(** * Conversation orchestration engine of the chat worker (src/index.ts)

    A shallow embedding of the two Durable Objects ([ChatSessions],
    [ChatHistory]), of the enrichment helpers ([analyzeImage],
    [extractTextFromFile], [getWeather], [webSearch], [getExternalInfo]) and
    of the per-turn procedure ([coordinateChat], [handleChat]), followed by the
    properties the specification states about them.

    Conventions of the embedding.
    - A JavaScript string is modelled by the sequence of its code units, as
      a [string], for the strings whose code units are below 256: the binary
      strings [atob] gives and Latin-1 text.  One character of a [string] is
      one code unit, so [length] and [substring] count what the code counts.
      White space ([\s] of a pattern, [trim]) is what JavaScript takes for
      white space in this range: tab, line feed, vertical tab, form feed,
      carriage return, space and the no-break space (code unit 160).  The
      letters of the patterns and of the keyword checks are the ASCII
      letters, also under the [i] flag.  Case mapping acts on the ASCII
      letters, which is all that finding an ASCII keyword or an ASCII
      extension in the mapped text depends on (the extension printed in upper
      case in the answer for an unknown format is exact for ASCII
      extensions).  A lone surrogate cannot be written in this range; that
      [encodeURIComponent] throws on a text that has one is kept as an oracle
      ([URIError]).  The pictographs of the constant answers of the source
      lie above the range and are written with their UTF-8 bytes: the code
      only concatenates them.
    - [await]ed code is run to completion in program order.  A rejected
      promise and a thrown exception are the same [Throw] outcome.
    - Everything the platform decides (what a remote service answers, what
      the clock reads, whether durable storage works) is an input: the
      oracles of [Env], and the [fault] field of a storage.
    - HTTP headers and [console] logging do not influence any result and are
      left out. *)

From Stdlib Require Import ZArith Ascii String Bool Lia.
From stdpp Require Import base option list strings gmap.

Open Scope string_scope.
Open Scope list_scope.
Open Scope nat_scope.

(** ** Exceptions and the state-and-exception monad *)

(** What a [catch] clause can receive: an [Error] with its message, or any
    other thrown value ([error instanceof Error] is false). *)
Inductive exn : Type :=
| JsError (message : string)
| NonError.

Inductive outcome (A : Type) : Type :=
| Ok (a : A)
| Throw (e : exn).
Arguments Ok {A} a.
Arguments Throw {A} e.

(** A computation over a mutable state [S] that returns or throws.  The state
    reached when the exception is thrown is kept: JavaScript does not roll
    back. *)
Definition M (S A : Type) : Type := S → outcome A * S.

Definition ret {S A} (a : A) : M S A := λ s, (Ok a, s).
Definition throw {S A} (e : exn) : M S A := λ s, (Throw e, s).
Definition bind {S A B} (m : M S A) (k : A → M S B) : M S B :=
  λ s, match m s with
       | (Ok a, s') => k a s'
       | (Throw e, s') => (Throw e, s')
       end.
(** [try { m } catch (error) { h error }], also [promise.catch(h)]. *)
Definition try_catch {S A} (m : M S A) (h : exn → M S A) : M S A :=
  λ s, match m s with
       | (Ok a, s') => (Ok a, s')
       | (Throw e, s') => h e s'
       end.
(** Lifting of a pure outcome (the result of an oracle). *)
Definition lift {S A} (o : outcome A) : M S A := λ s, (o, s).

Notation "'let*' x ':=' m 'in' k" := (bind m (λ x, k))
  (at level 10, x name, m at level 100, k at level 200).
Notation "m ';;;' k" := (bind m (λ _, k))
  (at level 100, k at level 200, right associativity).

(** ** JavaScript strings *)

Definition empty : string := EmptyString.
Definition dquote : string := String (ascii_of_nat 34) EmptyString.
Definition newline : string := String (ascii_of_nat 10) EmptyString.
(** The degree sign, code unit 176, and the no-break space, code unit 160. *)
Definition degree : string := String (ascii_of_nat 176) EmptyString.
Definition nbsp : string := String (ascii_of_nat 160) EmptyString.

(** Truthiness of a string value, and of a possibly [undefined] one. *)
Definition truthy (s : string) : bool :=
  match s with EmptyString => false | String _ _ => true end.
Definition truthy_opt (o : option string) : bool :=
  match o with Some s => truthy s | None => false end.
(** [a || b] on a possibly undefined string. *)
Definition or_else (o : option string) (d : string) : string :=
  match o with
  | Some s => if truthy s then s else d
  | None => d
  end.

Definition is_upper (c : ascii) : bool :=
  let n := nat_of_ascii c in (65 <=? n)%nat && (n <=? 90)%nat.
Definition is_lower (c : ascii) : bool :=
  let n := nat_of_ascii c in (97 <=? n)%nat && (n <=? 122)%nat.
Definition is_digit (c : ascii) : bool :=
  let n := nat_of_ascii c in (48 <=? n)%nat && (n <=? 57)%nat.
(** [\s] of a pattern, and what [trim] removes, among the code units below
    256: tab, line feed, vertical tab, form feed, carriage return, space and
    the no-break space. *)
Definition is_space (c : ascii) : bool :=
  let n := nat_of_ascii c in
  ((9 <=? n)%nat && (n <=? 13)%nat) || (n =? 32)%nat || (n =? 160)%nat.

Definition lower_char (c : ascii) : ascii :=
  if is_upper c then ascii_of_nat (nat_of_ascii c + 32) else c.
Definition upper_char (c : ascii) : ascii :=
  if is_lower c then ascii_of_nat (nat_of_ascii c - 32) else c.

Fixpoint map_string (f : ascii → ascii) (s : string) : string :=
  match s with
  | EmptyString => EmptyString
  | String c r => String (f c) (map_string f r)
  end.
Definition toLowerCase : string → string := map_string lower_char.
Definition toUpperCase : string → string := map_string upper_char.

(** [s.includes(sub)] *)
Fixpoint includes (s sub : string) : bool :=
  String.prefix sub s ||
  match s with
  | EmptyString => false
  | String _ r => includes r sub
  end.

(** [s.split(sep)] for a one-character separator. *)
Fixpoint split (sep : ascii) (s : string) : list string :=
  match s with
  | EmptyString => [EmptyString]
  | String c r =>
      if Ascii.eqb c sep then EmptyString :: split sep r
      else match split sep r with
           | h :: t => String c h :: t
           | [] => [String c EmptyString]
           end
  end.

Fixpoint trimStart (s : string) : string :=
  match s with
  | String c r => if is_space c then trimStart r else s
  | EmptyString => EmptyString
  end.
Fixpoint trimEnd (s : string) : string :=
  match s with
  | EmptyString => EmptyString
  | String c r =>
      match trimEnd r with
      | EmptyString => if is_space c then EmptyString else String c EmptyString
      | r' => String c r'
      end
  end.
Definition trim (s : string) : string := trimEnd (trimStart s).

(** [l.join(sep)] *)
Fixpoint join (sep : string) (l : list string) : string :=
  match l with
  | [] => EmptyString
  | [x] => x
  | x :: r => x +:+ sep +:+ join sep r
  end.

(** [l.slice(-k)] for a positive constant [k]: the last [k] elements, the
    whole list when it is shorter. *)
Definition slice_last {A} (k : nat) (l : list A) : list A :=
  drop (length l - k) l.

(** ** The platform *)

(** The outcome of the vision model call: a bare string, an object of which
    the code probes [description], [response] and [text], or [null]. *)
Inductive VisionResponse : Type :=
| VString (s : string)
| VObject (description response text : option string)
| VNull.

(** The outcome of the text model call: a falsy value, or an object with an
    optional [response] field. *)
Inductive TextResponse : Type :=
| TFalsy
| TObject (response : option string).

(** A role-tagged message of a generation request.  A field is [None] when
    the JavaScript property is [undefined]. *)
Record ChatMsg : Type := { msg_role : option string; msg_content : option string }.

(** The body of the geocoding answer, as far as the code reads it.  Numbers
    are kept as the text a template literal renders them to. *)
Record GeoResult : Type :=
  { latitude : string; longitude : string; geo_name : string; country : string }.
Record GeoData : Type := { results : option (list GeoResult) }.

Record Current : Type :=
  { weather_code : Z; temperature_2m : string;
    relative_humidity_2m : string; wind_speed_10m : string }.
Record WeatherData : Type := { current : option Current }.

Record Topic : Type := { Text : option string }.
Record SearchData : Type :=
  { AbstractText : option string; RelatedTopics : option (list Topic) }.

(** The oracles of the environment.  A remote call answers by [Ok] or fails
    by [Throw]; for the three HTTP services the oracle stands for [fetch]
    followed by [response.json()], and a body on which the property accesses
    of the code would throw is a [Throw] as well (all of them end in the same
    [catch]). *)
Record Env : Type :=
  { AI_run_vision : list nat → string → outcome VisionResponse;
    AI_run_text : list ChatMsg → outcome TextResponse;
    fetch_geocoding : string → outcome GeoData;
    fetch_forecast : string → outcome WeatherData;
    fetch_search : string → outcome SearchData;
    atob : string → outcome string;
    encodeURIComponent : string → string;
    (** what [encodeURIComponent] throws on the text, if it throws: a
        [URIError] for a text with a lone surrogate *)
    URIError : string → option exn;
    (** [Date.now()] at the n-th reading of the clock *)
    clock : nat → Z;
    (** [new Date(t).toUTCString()] *)
    toUTCString : Z → string;
    (** [Math.random().toString(36).substr(2, 9)] at the n-th reading *)
    random_suffix : nat → string }.

(** Calls that leave the worker, in the order they are issued. *)
Inductive Event : Type :=
| EvVision (image : list nat) (prompt : string)
| EvText (messages : list ChatMsg)
| EvFetch (url : string).

(** ** Durable Objects *)

(** [state.storage] of one Durable Object: the records it holds, and whether
    it works.  With [fault = Some e] every operation throws [e]. *)
Record Storage (R : Type) : Type := { fault : option exn; records : R }.
Arguments fault {R} _.
Arguments records {R} _.

(** A Durable Object method runs on the object and on the count of clock and
    random readings made so far. *)
Definition DO (O A : Type) : Type := M (O * nat) A.

Definition this {O} : DO O O := λ s, (Ok (fst s), s).
Definition set_this {O} (o : O) : DO O unit := λ s, (Ok tt, (o, snd s)).
Definition Date_now {O} (env : Env) : DO O Z :=
  λ s, (Ok (clock env (snd s)), (fst s, S (snd s))).
Definition Math_random {O} (env : Env) : DO O string :=
  λ s, (Ok (random_suffix env (snd s)), (fst s, S (snd s))).

(** A request to a Durable Object.  [json] is what [request.json()] gives:
    the parsed object (here with string-valued fields; a missing key is
    [undefined]) or an exception. *)
Record Request : Type :=
  { pathname : string; method : string; json : outcome (gmap string string) }.

Inductive JsVal : Type :=
| JStr (s : string)
| JNum (z : Z).

(** *** ChatSessions: the directory of chat sessions *)

Record Session : Type :=
  { id : string; name : string; lastMessage : option string;
    createdAt : Z; updatedAt : Z }.

Definition set_name (v : string) (s : Session) : Session :=
  {| id := id s; name := v; lastMessage := lastMessage s;
     createdAt := createdAt s; updatedAt := updatedAt s |}.
Definition set_lastMessage (v : string) (s : Session) : Session :=
  {| id := id s; name := name s; lastMessage := Some v;
     createdAt := createdAt s; updatedAt := updatedAt s |}.
Definition set_updatedAt (v : Z) (s : Session) : Session :=
  {| id := id s; name := name s; lastMessage := lastMessage s;
     createdAt := createdAt s; updatedAt := v |}.

Module ChatSessions.

(** The object: [this.state.storage] (one record, under the key
    ['sessions']) and [this.sessions]. *)
Record t : Type :=
  { state : Storage (option (list Session)); sessions : list Session }.

(** [constructor]: [this.sessions = []], on the storage the platform hands
    over. *)
Definition constructor (st : Storage (option (list Session))) : t :=
  {| state := st; sessions := [] |}.

Inductive Payload : Type :=
| SessionsJson (l : list Session)       (* { sessions: ... } *)
| SessionJson (s : option Session)      (* { session: ... } *)
| ErrorJson (error : string)            (* { error: ... } *)
| SuccessJson                           (* { success: true } *)
| NotFoundText.                         (* 'Not Found' *)
Record Response : Type := { status : nat; payload : Payload }.

Definition set_sessions (l : list Session) : DO t unit :=
  let* o := this in set_this {| state := state o; sessions := l |}.

(** [this.state.storage.get('sessions')] *)
Definition storage_get : DO t (option (list Session)) :=
  let* o := this in
  match fault (state o) with
  | Some e => throw e
  | None => ret (records (state o))
  end.

(** [this.state.storage.put('sessions', v)] *)
Definition storage_put (v : list Session) : DO t unit :=
  let* o := this in
  match fault (state o) with
  | Some e => throw e
  | None =>
      set_this {| state := {| fault := None; records := Some v |};
                  sessions := sessions o |}
  end.

(** [this.sessions.findIndex(s => s.id === v)], [None] for [-1].  A missing
    [body.id] is [undefined] and equals no string. *)
Definition findIndex (v : option string) (l : list Session) : option nat :=
  fst <$> list_find (λ s, Some (id s) = v) l.

Definition route (request : Request) (m : string) : bool :=
  String.eqb (pathname request) "/sessions" && String.eqb (method request) m.

(** The first statement of [fetch]: load the stored list when the list in
    memory is empty. *)
Definition hydrate : DO t unit :=
  let* o := this in
  if (length (sessions o) =? 0)%nat then
    let* stored := storage_get in
    match stored with
    | Some l => set_sessions l
    | None => ret tt
    end
  else ret tt.

Definition fetch (env : Env) (request : Request) : DO t Response :=
  hydrate ;;;
  if route request "GET" then
    let* o := this in
    ret {| status := 200; payload := SessionsJson (sessions o) |}
  else if route request "POST" then
    let* body := lift (json request) in
    (* body.id || 'session-' + Math.random().toString(36).substr(2, 9) *)
    let* new_id :=
      (if truthy_opt (body !! "id") then ret (or_else (body !! "id") empty)
       else let* r := Math_random env in ret ("session-" +:+ r)) in
    let* created := Date_now env in
    let* updated := Date_now env in
    let newSession :=
      {| id := new_id; name := or_else (body !! "name") "New Chat";
         lastMessage := Some empty;
         createdAt := created; updatedAt := updated |} in
    let* o := this in
    set_sessions (newSession :: sessions o) ;;;
    let* o := this in
    storage_put (sessions o) ;;;
    ret {| status := 200; payload := SessionJson (Some newSession) |}
  else if route request "PUT" then
    let* body := lift (json request) in
    let* o := this in
    match findIndex (body !! "id") (sessions o) with
    | Some sessionIndex =>
        (if truthy_opt (body !! "name") then
           let* o := this in
           set_sessions
             (alter (set_name (or_else (body !! "name") empty))
                    sessionIndex (sessions o))
         else ret tt) ;;;
        (match body !! "lastMessage" with
         | Some v =>
             let* o := this in
             set_sessions (alter (set_lastMessage v) sessionIndex (sessions o))
         | None => ret tt
         end) ;;;
        let* now := Date_now env in
        let* o := this in
        set_sessions (alter (set_updatedAt now) sessionIndex (sessions o)) ;;;
        let* o := this in
        storage_put (sessions o) ;;;
        let* o := this in
        ret {| status := 200;
               payload := SessionJson (sessions o !! sessionIndex) |}
    | None =>
        ret {| status := 404; payload := ErrorJson "Session not found" |}
    end
  else if route request "DELETE" then
    let* body := lift (json request) in
    let* o := this in
    set_sessions (filter (λ s, Some (id s) ≠ body !! "id") (sessions o)) ;;;
    let* o := this in
    storage_put (sessions o) ;;;
    ret {| status := 200; payload := SuccessJson |}
  else
    ret {| status := 404; payload := NotFoundText |}.

End ChatSessions.

(** *** ChatHistory: the message log of one session *)

Record Message : Type :=
  { role : option string; content : option string; timestamp : Z }.

Module ChatHistory.

(** The two records of the storage, ['messages'] and ['userContext']. *)
Record Records : Type :=
  { rec_messages : option (list Message);
    rec_userContext : option (gmap string JsVal) }.

Record t : Type :=
  { state : Storage Records;
    messages : list Message;
    userContext : gmap string JsVal }.

(** [constructor]: [this.messages = []; this.userContext = {}]. *)
Definition constructor (st : Storage Records) : t :=
  {| state := st; messages := []; userContext := ∅ |}.

Inductive Payload : Type :=
| MessagesJson (messages : list Message) (context : gmap string JsVal)
| SuccessJson
| ContextJson (context : gmap string JsVal)
| NotFoundText.
Record Response : Type := { status : nat; payload : Payload }.

Definition set_messages (l : list Message) : DO t unit :=
  let* o := this in
  set_this {| state := state o; messages := l; userContext := userContext o |}.
Definition set_userContext (c : gmap string JsVal) : DO t unit :=
  let* o := this in
  set_this {| state := state o; messages := messages o; userContext := c |}.

Definition storage_get {V} (field : Records → option V) : DO t (option V) :=
  let* o := this in
  match fault (state o) with
  | Some e => throw e
  | None => ret (field (records (state o)))
  end.

Definition storage_update (f : Records → Records) : DO t unit :=
  let* o := this in
  match fault (state o) with
  | Some e => throw e
  | None =>
      set_this {| state := {| fault := None; records := f (records (state o)) |};
                  messages := messages o; userContext := userContext o |}
  end.

(** [storage.put('messages', v)], [storage.delete('messages')] and
    [storage.put('userContext', c)] *)
Definition storage_put_messages (v : list Message) : DO t unit :=
  storage_update
    (λ r, {| rec_messages := Some v; rec_userContext := rec_userContext r |}).
Definition storage_delete_messages : DO t unit :=
  storage_update
    (λ r, {| rec_messages := None; rec_userContext := rec_userContext r |}).
Definition storage_put_userContext (c : gmap string JsVal) : DO t unit :=
  storage_update
    (λ r, {| rec_messages := rec_messages r; rec_userContext := Some c |}).

(** The first statement of [fetch]: load both records when the list in
    memory is empty. *)
Definition hydrate : DO t unit :=
  let* o := this in
  if (length (messages o) =? 0)%nat then
    let* stored := storage_get rec_messages in
    let* context := storage_get rec_userContext in
    (match stored with Some l => set_messages l | None => ret tt end) ;;;
    (match context with Some c => set_userContext c | None => ret tt end)
  else ret tt.

Definition fetch (env : Env) (request : Request) : DO t Response :=
  hydrate ;;;
  let not_found := ret {| status := 404; payload := NotFoundText |} in
  if String.eqb (pathname request) "/messages" then
    if String.eqb (method request) "GET" then
      let* o := this in
      ret {| status := 200;
             payload := MessagesJson (messages o) (userContext o) |}
    else if String.eqb (method request) "POST" then
      let* body := lift (json request) in
      let* now := Date_now env in
      let* o := this in
      set_messages
        (messages o ++
         [{| role := body !! "role"; content := body !! "content";
             timestamp := now |}]) ;;;
      let* o := this in
      (if (50 <? length (messages o))%nat then
         set_messages (slice_last 50 (messages o))
       else ret tt) ;;;
      let* o := this in
      storage_put_messages (messages o) ;;;
      ret {| status := 200; payload := SuccessJson |}
    else if String.eqb (method request) "DELETE" then
      set_messages [] ;;;
      storage_delete_messages ;;;
      ret {| status := 200; payload := SuccessJson |}
    else not_found
  else if String.eqb (pathname request) "/context" then
    if String.eqb (method request) "POST" then
      let* body := lift (json request) in
      let* o := this in
      set_userContext ((JStr <$> body) ∪ userContext o) ;;;
      let* now := Date_now env in
      let* o := this in
      set_userContext (<["lastActivity" := JNum now]> (userContext o)) ;;;
      let* o := this in
      storage_put_userContext (userContext o) ;;;
      ret {| status := 200; payload := SuccessJson |}
    else if String.eqb (method request) "GET" then
      let* o := this in
      ret {| status := 200; payload := ContextJson (userContext o) |}
    else not_found
  else not_found.

End ChatHistory.

(** ** The worker *)

(** The mutable world of a worker invocation: the instances of the two
    Durable Object namespaces by name, the count of clock and random readings,
    and the calls issued to remote services so far (oldest first). *)
Record World : Type :=
  { CHAT_HISTORY : gmap string ChatHistory.t;
    CHAT_SESSIONS : gmap string ChatSessions.t;
    readings : nat;
    trace : list Event }.

(** The instance behind [env.CHAT_HISTORY.get(env.CHAT_HISTORY.idFromName(n))]:
    an object that was never addressed is constructed on an empty storage. *)
Definition history_object (w : World) (n : string) : ChatHistory.t :=
  default
    (ChatHistory.constructor
       {| fault := None;
          records := {| ChatHistory.rec_messages := None;
                        ChatHistory.rec_userContext := None |} |})
    (CHAT_HISTORY w !! n).
Definition sessions_object (w : World) (n : string) : ChatSessions.t :=
  default (ChatSessions.constructor {| fault := None; records := None |})
          (CHAT_SESSIONS w !! n).

(** [stub.fetch(request)]: the object handles the request; what it throws is
    thrown to the caller. *)
Definition history_stub_fetch (env : Env) (n : string) (request : Request)
  : M World ChatHistory.Response :=
  λ w,
    let '(r, (o, k)) := ChatHistory.fetch env request (history_object w n, readings w) in
    (r, {| CHAT_HISTORY := <[n := o]> (CHAT_HISTORY w);
           CHAT_SESSIONS := CHAT_SESSIONS w;
           readings := k; trace := trace w |}).
Definition sessions_stub_fetch (env : Env) (n : string) (request : Request)
  : M World ChatSessions.Response :=
  λ w,
    let '(r, (o, k)) := ChatSessions.fetch env request (sessions_object w n, readings w) in
    (r, {| CHAT_HISTORY := CHAT_HISTORY w;
           CHAT_SESSIONS := <[n := o]> (CHAT_SESSIONS w);
           readings := k; trace := trace w |}).

Definition emit (e : Event) : M World unit :=
  λ w, (Ok tt, {| CHAT_HISTORY := CHAT_HISTORY w; CHAT_SESSIONS := CHAT_SESSIONS w;
                  readings := readings w; trace := trace w ++ [e] |}).
(** [new Date().toUTCString()] *)
Definition utc_now (env : Env) : M World string :=
  λ w, (Ok (toUTCString env (clock env (readings w))),
        {| CHAT_HISTORY := CHAT_HISTORY w; CHAT_SESSIONS := CHAT_SESSIONS w;
           readings := S (readings w); trace := trace w |}).

(** A remote call: it is issued, then it answers or fails. *)
Definition run_vision (env : Env) (image : list nat) (prompt : string)
  : M World VisionResponse :=
  emit (EvVision image prompt) ;;; lift (AI_run_vision env image prompt).
Definition run_text (env : Env) (messages : list ChatMsg) : M World TextResponse :=
  emit (EvText messages) ;;; lift (AI_run_text env messages).
Definition fetch_json {A} (oracle : string → outcome A) (url : string) : M World A :=
  emit (EvFetch url) ;;; lift (oracle url).

(** [String(v)] of a possibly undefined string, as [atob(undefined)] sees it. *)
Definition to_string (o : option string) : string := default "undefined" o.
(** [error instanceof Error ? error.message : d] *)
Definition message_or (error : exn) (d : string) : string :=
  match error with JsError m => m | NonError => d end.
Definition char_codes (s : string) : list nat :=
  nat_of_ascii <$> list_ascii_of_string s.
Definition mem (s : string) (l : list string) : bool := existsb (String.eqb s) l.

(** *** analyzeImage *)

Definition analyzeImage (env : Env) (imageDataUrl : string) (userQuestion : option string)
  : M World string :=
  try_catch
    (let base64Data := split "," imageDataUrl !! 1%nat in
     let* binaryString := lift (atob env (to_string base64Data)) in
     let bytes := char_codes binaryString in
     let prompt :=
       if truthy_opt userQuestion then
         "Analyze this image and answer the following question: "
           +:+ to_string userQuestion +:+ ". Provide detailed observations and insights."
       else
         "Describe this image in comprehensive detail. Include: objects, people, text visible in the image, colors, setting, actions, emotions, and any other relevant details. If there's text in the image, transcribe it exactly." in
     let* response := run_vision env bytes prompt in
     match response with
     | VString s => ret s
     | VObject description response text =>
         if truthy_opt description then ret (to_string description)
         else if truthy_opt response then ret (to_string response)
         else if truthy_opt text then ret (to_string text)
         else ret "Image analyzed successfully."
     | VNull =>
         throw (JsError "Cannot read properties of null (reading 'description')")
     end)
    (λ error,
       ret ("Image uploaded (analysis unavailable: "
              +:+ message_or error "unknown error" +:+ ").")).

(** *** extractTextFromFile *)

Definition image_extensions : list string :=
  ["jpg"; "jpeg"; "png"; "gif"; "webp"; "bmp"].
Definition text_extensions : list string :=
  ["txt"; "md"; "json"; "csv"; "html"; "xml"; "js"; "ts"; "py"; "java"; "c";
   "cpp"; "css"; "yml"; "yaml"; "toml"; "ini"; "log"; "sql"; "sh"; "bash"].

(** The character class of the PDF text pattern: letters, digits, white
    space and the punctuation . , ; : ! ? - ' (double quote) ( ). *)
Definition pdf_char (c : ascii) : bool :=
  is_upper c || is_lower c || is_digit c || is_space c ||
  existsb (Nat.eqb (nat_of_ascii c)) [46; 44; 59; 58; 33; 63; 45; 39; 34; 40; 41]%nat.

(** [text.match(re)] for a global [class+]: the maximal runs of class
    characters from left to right; [cur] is the run being read, reversed. *)
Fixpoint match_runs (cls : ascii → bool) (cur : list ascii) (s : string) : list string :=
  let flush := match cur with
               | [] => []
               | _ => [string_of_list_ascii (rev cur)]
               end in
  match s with
  | EmptyString => flush
  | String c r =>
      if cls c then match_runs cls (c :: cur) r
      else flush ++ match_runs cls [] r
  end.

Definition PREVIEW_LIMIT : nat := 80 * 100.

Definition extractTextFromFile (fileName fileDataUrl : string) (env : Env)
    (userQuestion : option string) : M World string :=
  try_catch
    (let extension := toLowerCase (default empty (last (split "." fileName))) in
     let base64Data := split "," fileDataUrl !! 1%nat in
     if mem extension image_extensions then
       let* imageAnalysis := analyzeImage env fileDataUrl userQuestion in
       ret ("📷 Image file " +:+ dquote +:+ fileName +:+ dquote +:+ " analysis:"
              +:+ newline +:+ newline +:+ imageAnalysis)
     else if mem extension text_extensions then
       let* text := lift (atob env (to_string base64Data)) in
       let preview :=
         if (PREVIEW_LIMIT <? String.length text)%nat then
           String.substring 0 PREVIEW_LIMIT text +:+ "..." +:+ newline +:+ newline
             +:+ "[File truncated - showing first 8000 characters]"
         else text in
       ret ("📄 File " +:+ dquote +:+ fileName +:+ dquote +:+ " contents:"
              +:+ newline +:+ newline +:+ preview)
     else if String.eqb extension "pdf" then
       try_catch
         (let* text := lift (atob env (to_string base64Data)) in
          let textMatch := match_runs pdf_char [] text in
          let extractedText := String.substring 0 PREVIEW_LIMIT (join " " textMatch) in
          if (10 <? length textMatch)%nat && (100 <? String.length extractedText)%nat then
            ret ("📄 PDF file " +:+ dquote +:+ fileName +:+ dquote
                   +:+ " content (extracted text):" +:+ newline +:+ newline
                   +:+ extractedText
                   +:+ (if (String.length extractedText =? PREVIEW_LIMIT)%nat then
                          newline +:+ newline
                            +:+ "[Content truncated - showing first 8000 characters]"
                        else empty))
          else
            ret ("📄 PDF file " +:+ dquote +:+ fileName +:+ dquote
                   +:+ " uploaded. I can see it's a PDF but couldn't extract the text automatically. Could you tell me what's in the document or copy-paste the text?"))
         (λ _,
            ret ("📄 PDF file " +:+ dquote +:+ fileName +:+ dquote
                   +:+ " uploaded. Please describe what you'd like to know about it."))
     else
       ret ("📄 File " +:+ dquote +:+ fileName +:+ dquote +:+ " uploaded ("
              +:+ (if truthy extension then toUpperCase extension else "unknown")
              +:+ " format). Please tell me what you'd like to know about this file."))
    (λ _,
       ret ("📄 File " +:+ dquote +:+ fileName +:+ dquote
              +:+ " received. Please describe what you'd like to know about it.")).

(** *** getWeather and webSearch *)

(** The [weatherCodes] table. *)
Definition weatherCodes (code : Z) : option string :=
  if (code =? 0)%Z then Some "Clear sky"
  else if (code =? 1)%Z then Some "Mainly clear"
  else if (code =? 2)%Z then Some "Partly cloudy"
  else if (code =? 3)%Z then Some "Overcast"
  else if (code =? 45)%Z then Some "Foggy"
  else if (code =? 51)%Z then Some "Light drizzle"
  else if (code =? 61)%Z then Some "Light rain"
  else if (code =? 63)%Z then Some "Moderate rain"
  else if (code =? 65)%Z then Some "Heavy rain"
  else if (code =? 80)%Z then Some "Rain showers"
  else if (code =? 95)%Z then Some "Thunderstorm"
  else None.

(** [encodeURIComponent(s)] as the code calls it: the encoded text, or the
    [URIError] thrown. *)
Definition encode_uri (env : Env) (s : string) : outcome string :=
  match URIError env s with
  | Some e => Throw e
  | None => Ok (encodeURIComponent env s)
  end.

(** The URLs of the three services, for the encoded name of a place, for a
    place found, and for an encoded query. *)
Definition geocoding_query (name : string) : string :=
  "https://geocoding-api.open-meteo.com/v1/search?name="
    +:+ name +:+ "&count=1&language=en&format=json".
Definition forecast_url (g : GeoResult) : string :=
  "https://api.open-meteo.com/v1/forecast?latitude=" +:+ latitude g
    +:+ "&longitude=" +:+ longitude g
    +:+ "&current=temperature_2m,relative_humidity_2m,weather_code,wind_speed_10m&timezone=auto".
Definition search_query (q : string) : string :=
  "https://api.duckduckgo.com/?q=" +:+ q +:+ "&format=json&no_html=1&skip_disambig=1".
(** The URLs for a city and for a query that can be encoded. *)
Definition geocoding_url (env : Env) (city : string) : string :=
  geocoding_query (encodeURIComponent env city).
Definition search_url (env : Env) (query : string) : string :=
  search_query (encodeURIComponent env query).

Definition getWeather (env : Env) (city : string) : M World string :=
  try_catch
    (let* name := lift (encode_uri env city) in
     let* geoData := fetch_json (fetch_geocoding env) (geocoding_query name) in
     match results geoData with
     | Some (g :: _) =>
         let* weatherData := fetch_json (fetch_forecast env) (forecast_url g) in
         match current weatherData with
         | Some cur =>
             let condition := or_else (weatherCodes (weather_code cur)) "Unknown" in
             ret ("Weather in " +:+ geo_name g +:+ ", " +:+ country g +:+ ": "
                    +:+ condition +:+ ", Temperature: " +:+ temperature_2m cur
                    +:+ degree +:+ "C, Humidity: " +:+ relative_humidity_2m cur
                    +:+ "%, Wind: " +:+ wind_speed_10m cur +:+ " km/h")
         | None =>
             throw (JsError "Cannot read properties of undefined (reading 'weather_code')")
         end
     | _ => ret ("Could not find weather data for " +:+ city)
     end)
    (λ _, ret "Unable to fetch weather data").

Definition webSearch (env : Env) (query : string) : M World string :=
  try_catch
    (let* q := lift (encode_uri env query) in
     let* data := fetch_json (fetch_search env) (search_query q) in
     let none := ret ("No information found for: " +:+ query) in
     if truthy_opt (AbstractText data) then
       ret ("Search result: " +:+ to_string (AbstractText data))
     else
       match RelatedTopics data with
       | Some (firstTopic :: _) =>
           if truthy_opt (Text firstTopic) then
             ret ("Search result: " +:+ to_string (Text firstTopic))
           else none
       | _ => none
       end)
    (λ _, ret "Unable to search").

(** *** getExternalInfo *)

(** The city pattern: the letters i n in either case, white space (greedy,
    one or more), a captured group of letters and white space (lazy, one or
    more), then a question mark, the end of the text, or a full stop.  The
    three functions follow the backtracking order of the matcher. *)
Definition city_char (c : ascii) : bool := is_upper c || is_lower c || is_space c.
Definition city_end (c : ascii) : bool :=
  Ascii.eqb c "?"%char || Ascii.eqb c "."%char.

(** The lazy group after its first character: stop as soon as the terminator
    follows, otherwise take one more character of the class. *)
Fixpoint city_group (taken : string) (s : string) : option string :=
  match s with
  | EmptyString => Some taken
  | String c r =>
      if city_end c then Some taken
      else if city_char c then city_group (taken +:+ String c EmptyString) r
      else None
  end.
Definition city_group1 (s : string) : option string :=
  match s with
  | String c r => if city_char c then city_group (String c EmptyString) r else None
  | EmptyString => None
  end.
(** The greedy white space: take one character, prefer taking more, and give
    back when the rest does not match. *)
Fixpoint city_spaces (s : string) : option string :=
  match s with
  | String c r =>
      if is_space c then
        match city_spaces r with
        | Some g => Some g
        | None => city_group1 r
        end
      else None
  | EmptyString => None
  end.
Definition city_at (s : string) : option string :=
  match s with
  | String a (String b r) =>
      if Ascii.eqb (lower_char a) "i"%char && Ascii.eqb (lower_char b) "n"%char
      then city_spaces r else None
  | _ => None
  end.
(** [message.match(re)]: the first position from the left where the pattern
    matches; the result is the captured group. *)
Fixpoint cityMatch (s : string) : option string :=
  match city_at s with
  | Some g => Some g
  | None =>
      match s with
      | String _ r => cityMatch r
      | EmptyString => None
      end
  end.

Definition getExternalInfo (message : string) (env : Env) (p0 : string)
  : M World (option string) :=
  let lowerMessage := toLowerCase message in
  match (if includes lowerMessage "weather" || includes lowerMessage "temperature"
         then cityMatch message else None) with
  | Some city =>
      let* r := getWeather env (trim city) in ret (Some r)
  | None =>
      if includes lowerMessage "time" || includes lowerMessage "date"
         || includes lowerMessage "day" then
        let* now := utc_now env in
        ret (Some ("Current date and time: " +:+ now +:+ " (UTC)"))
      else if includes lowerMessage "news" || includes lowerMessage "latest"
              || includes lowerMessage "current" then
        let* r := webSearch env message in ret (Some r)
      else ret None
  end.

(** *** coordinateChat *)

Inductive TaskType : Type := image_task | file_task | external_task.
(** What a task resolves to: [{ type, data }], [data] being [null] after a
    failure. *)
Record TaskResult : Type := { type : TaskType; data : option string }.

(** The text gathered for one turn. *)
Record Bundle : Type :=
  { imageContext : string; fileContext : string; externalContext : string }.

(** One entry of [tasks]: the promise with its [then] and [catch]. *)
Definition task (ty : TaskType) (m : M World (option string)) : M World TaskResult :=
  try_catch (let* result := m in ret {| type := ty; data := result |})
            (λ _, ret {| type := ty; data := None |}).

(** The tasks of a turn and [await Promise.all(tasks)].  The tasks share no
    state and an oracle answers by its arguments alone, so running them one
    after the other in the order they were started gives the results of any
    interleaving. *)
Definition runTasks (env : Env) (message : string) (image fileData fileName : option string)
  : M World (list TaskResult) :=
  let* r1 :=
    (if truthy_opt image then
       let* r := task image_task
                   (let* s := analyzeImage env (to_string image) (Some message) in
                    ret (Some s)) in
       ret [r]
     else ret []) in
  let* r2 :=
    (if truthy_opt fileData && truthy_opt fileName then
       let* r := task file_task
                   (let* s := extractTextFromFile (to_string fileName) (to_string fileData)
                                env (Some message) in
                    ret (Some s)) in
       ret [r]
     else ret []) in
  let* r3 := task external_task (getExternalInfo message env "user-default") in
  ret (r1 ++ r2 ++ [r3]).

(** The [results.forEach] that fills the three context variables. *)
Definition mergeResult (b : Bundle) (result : TaskResult) : Bundle :=
  if truthy_opt (data result) then
    match type result with
    | image_task =>
        {| imageContext := to_string (data result);
           fileContext := fileContext b; externalContext := externalContext b |}
    | file_task =>
        {| imageContext := imageContext b;
           fileContext := to_string (data result); externalContext := externalContext b |}
    | external_task =>
        {| imageContext := imageContext b;
           fileContext := fileContext b; externalContext := to_string (data result) |}
    end
  else b.
Definition mergeResults (results : list TaskResult) : Bundle :=
  fold_left mergeResult results
    {| imageContext := empty; fileContext := empty; externalContext := empty |}.

Definition systemPrompt (now : string) (b : Bundle) : string :=
  "You are a helpful AI assistant with access to file and image analysis capabilities. Current date and time: "
    +:+ now +:+ "." +:+ newline +:+ newline
    +:+ "When users upload files or images, the content is automatically extracted and provided to you in the [FILE CONTENT] or [IMAGE ANALYSIS] sections. You CAN see and analyze this content directly. Respond based on the actual content provided, not as if you cannot access it."
    +:+ (if truthy (externalContext b) then newline +:+ newline +:+ externalContext b
         else empty).

Definition userMessage (message : string) (b : Bundle) : string :=
  let u0 := empty in
  let u1 := if truthy (imageContext b) then
              u0 +:+ "[IMAGE ANALYSIS]" +:+ newline +:+ imageContext b +:+ newline +:+ newline
            else u0 in
  let u2 := if truthy (fileContext b) then
              u1 +:+ "[FILE CONTENT]" +:+ newline +:+ fileContext b +:+ newline +:+ newline
            else u1 in
  let u3 :=
    if truthy message then
      if truthy (imageContext b) || truthy (fileContext b) then
        u2 +:+ "[USER'S QUESTION]" +:+ newline +:+ message
      else message
    else if truthy (imageContext b) || truthy (fileContext b) then
      u2 +:+ "Please analyze the "
         +:+ (if truthy (imageContext b) then "image" else "file")
         +:+ " I've uploaded and provide detailed insights."
    else u2 in
  if truthy u3 then u3 else "Hello! How can I help you today?".

Definition to_chat (m : Message) : ChatMsg :=
  {| msg_role := role m; msg_content := content m |}.

(** The [messages] argument of the text model call. *)
Definition generationRequest (system : string) (history : list Message) (user : string)
  : list ChatMsg :=
  [{| msg_role := Some "system"; msg_content := Some system |}]
    ++ (to_chat <$> slice_last 10 history)
    ++ [{| msg_role := Some "user"; msg_content := Some user |}].

Definition get_messages : Request :=
  {| pathname := "/messages"; method := "GET";
     json := Throw (JsError "Unexpected end of JSON input") |}.
Definition post_message (r c : string) : Request :=
  {| pathname := "/messages"; method := "POST";
     json := Ok (<["role" := r]> (<["content" := c]> ∅)) |}.

(** [historyData.messages || []] of the parsed answer; the text answer
    ['Not Found'] is not JSON. *)
Definition history_messages (r : ChatHistory.Response) : M World (list Message) :=
  match ChatHistory.payload r with
  | ChatHistory.MessagesJson l _ => ret l
  | ChatHistory.NotFoundText =>
      throw (JsError ("Unexpected token 'N', " +:+ dquote +:+ "Not Found" +:+ dquote
                        +:+ " is not valid JSON"))
  | _ => ret []
  end.

Definition coordinateChat (env : Env) (message sessionId : string)
    (image fileData fileName : option string) : M World string :=
  let* results := runTasks env message image fileData fileName in
  let* historyResponse := history_stub_fetch env sessionId get_messages in
  let* history := history_messages historyResponse in
  let b := mergeResults results in
  let* now := utc_now env in
  let system := systemPrompt now b in
  let user := userMessage message b in
  let* response := run_text env (generationRequest system history user) in
  match response with
  | TObject (Some aiResponse) =>
      if truthy aiResponse then
        history_stub_fetch env sessionId (post_message "user" user) ;;;
        history_stub_fetch env sessionId (post_message "assistant" aiResponse) ;;;
        ret aiResponse
      else throw (JsError "Invalid response from AI")
  | _ => throw (JsError "Invalid response from AI")
  end.

(** *** handleChat *)

(** The parsed body of a chat request.  [message] is tested for presence by
    the code, so it is optional here as well. *)
Record ChatBody : Type :=
  { message : option string; sessionId : string;
    image : option string; fileName : option string; fileData : option string }.

Inductive ChatPayload : Type :=
| ChatReply (response sessionId : string)   (* { response, sessionId } *)
| ChatError (error : string).               (* { error } *)
Record ChatResponse : Type := { status : nat; payload : ChatPayload }.

Definition put_session (i preview : string) : Request :=
  {| pathname := "/sessions"; method := "PUT";
     json := Ok (<["id" := i]> (<["lastMessage" := preview]> ∅)) |}.

(** [request] is what [request.json()] gives. *)
Definition handleChat (request : outcome ChatBody) (env : Env) : M World ChatResponse :=
  try_catch
    (let* body := lift request in
     if negb (truthy_opt (message body)) && negb (truthy_opt (image body))
        && negb (truthy_opt (fileData body)) then
       throw (JsError "Message, image, or file is required")
     else
       let* aiResponse :=
         coordinateChat env (or_else (message body) empty) (sessionId body)
                        (image body) (fileData body) (fileName body) in
       sessions_stub_fetch env "user-default"
         (put_session (sessionId body) (or_else (message body) "Sent an attachment")) ;;;
       ret {| status := 200; payload := ChatReply aiResponse (sessionId body) |})
    (λ error,
       ret {| status := 500; payload := ChatError (message_or error "Unknown error") |}).

(** *** searchChatHistory *)

Definition get_sessions : Request :=
  {| pathname := "/sessions"; method := "GET";
     json := Throw (JsError "Unexpected end of JSON input") |}.

(** [sessionsData.sessions || []] of the parsed answer. *)
Definition sessions_list (r : ChatSessions.Response) : M World (list Session) :=
  match ChatSessions.payload r with
  | ChatSessions.SessionsJson l => ret l
  | ChatSessions.NotFoundText =>
      throw (JsError ("Unexpected token 'N', " +:+ dquote +:+ "Not Found" +:+ dquote
                        +:+ " is not valid JSON"))
  | _ => ret []
  end.

(** One step of [messages.forEach]: the line of a message is added to the
    text; a message without [content] makes [msg.content.substring] throw.
    [substring(0, 200)] and [length] count code units, the characters of a
    [string]. *)
Definition chat_line (allChatsInfo : string) (msg : Message) : outcome string :=
  match content msg with
  | Some c =>
      let preview := String.substring 0 200 c in
      Ok (allChatsInfo
            +:+ (if bool_decide (role msg = Some "user") then "User" else "Assistant")
            +:+ ": " +:+ preview
            +:+ (if (200 <? String.length c)%nat then "..." else empty)
            +:+ newline)
  | None =>
      Throw (JsError "Cannot read properties of undefined (reading 'substring')")
  end.
Fixpoint chat_lines (allChatsInfo : string) (messages : list Message) : outcome string :=
  match messages with
  | [] => Ok allChatsInfo
  | msg :: rest =>
      match chat_line allChatsInfo msg with
      | Ok info => chat_lines info rest
      | Throw e => Throw e
      end
  end.

(** The loop over the sessions; [toLocaleDateString] stands for
    [new Date(t).toLocaleDateString()]. *)
Fixpoint collectChats (env : Env) (toLocaleDateString : Z → string)
    (sessions : list Session) (allChatsInfo : string) : M World string :=
  match sessions with
  | [] => ret allChatsInfo
  | session :: rest =>
      let* historyResponse := history_stub_fetch env (id session) get_messages in
      let* messages := history_messages historyResponse in
      let* info :=
        (if (0 <? length messages)%nat then
           lift (chat_lines
                   (allChatsInfo +:+ newline +:+ newline +:+ "--- Chat: " +:+ dquote
                      +:+ name session +:+ dquote +:+ " ("
                      +:+ toLocaleDateString (updatedAt session) +:+ ") ---" +:+ newline)
                   messages)
         else ret allChatsInfo) in
      collectChats env toLocaleDateString rest info
  end.

Definition searchChatHistory (env : Env) (toLocaleDateString : Z → string)
    (userId query : string) : M World string :=
  try_catch
    (let* sessionsResponse := sessions_stub_fetch env userId get_sessions in
     let* sessions := sessions_list sessionsResponse in
     if (length sessions =? 0)%nat then ret "You don't have any saved chats yet."
     else
       let* allChatsInfo := collectChats env toLocaleDateString (take 10 sessions) empty in
       if negb (truthy allChatsInfo) then
         ret "Your chats don't contain any messages yet."
       else
         ret ("Here's information from your saved chats:" +:+ newline +:+ allChatsInfo))
    (λ _, ret "I encountered an error while searching your chat history.").

(** *** The entry point of the worker *)

(** A request to the worker: the method, the path and the [sessionId] query
    parameter of its URL, and what parsing its body as JSON gives, read as
    the object the directory gets and as the typed body of a chat request. *)
Record WorkerRequest : Type :=
  { request_method : string;
    url_pathname : string;
    sessionId_param : option string;
    request_json : outcome (gmap string string);
    request_chat : outcome ChatBody }.

Inductive WorkerResponse : Type :=
| Preflight                                   (* null, with the CORS headers *)
| FromSessions (r : ChatSessions.Response)    (* the answer of the directory *)
| FromChat (r : ChatResponse)
| FromHistory (r : ChatHistory.Response)      (* the answer of the log *)
| HtmlPage                                    (* getHTML(), text/html *)
| NotFound.                                   (* 'Not Found', 404 *)

Definition delete_messages : Request :=
  {| pathname := "/messages"; method := "DELETE";
     json := Throw (JsError "Unexpected end of JSON input") |}.

(** [export default { fetch }] *)
Definition worker_fetch (request : WorkerRequest) (env : Env) : M World WorkerResponse :=
  if String.eqb (request_method request) "OPTIONS" then ret Preflight
  else if String.eqb (url_pathname request) "/api/sessions" then
    let doRequest :=
      {| pathname := "/sessions"; method := request_method request;
         json := if String.eqb (request_method request) "GET"
                    || String.eqb (request_method request) "HEAD"
                 then Throw (JsError "Unexpected end of JSON input")
                 else request_json request |} in
    let* r := sessions_stub_fetch env "user-default" doRequest in
    ret (FromSessions r)
  else if String.eqb (url_pathname request) "/api/chat"
          && String.eqb (request_method request) "POST" then
    let* r := handleChat (request_chat request) env in
    ret (FromChat r)
  else if String.eqb (url_pathname request) "/api/history"
          && String.eqb (request_method request) "GET" then
    let* r := history_stub_fetch env (or_else (sessionId_param request) "default")
                get_messages in
    ret (FromHistory r)
  else if String.eqb (url_pathname request) "/api/history"
          && String.eqb (request_method request) "DELETE" then
    let* r := history_stub_fetch env (or_else (sessionId_param request) "default")
                delete_messages in
    ret (FromHistory r)
  else if String.eqb (url_pathname request) "/"
          || String.eqb (url_pathname request) "/index.html" then
    ret HtmlPage
  else ret NotFound.

(** * Vocabulary of the properties *)

(** ** Serving a sequence of requests

    A Durable Object handles one request at a time: the requests of a
    sequence are served in order, each on the state the previous one left,
    also after an exception. *)
Fixpoint serve {O R} (f : Request → DO O R) (reqs : list Request) (s : O * nat)
  : list (outcome R) * (O * nat) :=
  match reqs with
  | [] => ([], s)
  | r :: rest =>
      let '(a, s') := f r s in
      let '(l, s'') := serve f rest s' in
      (a :: l, s'')
  end.

(** ** The message log *)

(** An append: [POST /messages] with the given body. *)
Definition append_request (body : gmap string string) : Request :=
  {| pathname := "/messages"; method := "POST"; json := Ok body |}.
(** The message an append stores when the clock is at its [k]-th reading. *)
Definition stamped (env : Env) (k : nat) (body : gmap string string) : Message :=
  {| role := body !! "role"; content := body !! "content"; timestamp := clock env k |}.
(** The messages of a sequence of appends that starts at reading [k]. *)
Definition appended (env : Env) (k : nat) (bodies : list (gmap string string))
  : list Message :=
  imap (λ i b, stamped env (k + i) b) bodies.
Definition success : outcome ChatHistory.Response :=
  Ok {| ChatHistory.status := 200; ChatHistory.payload := ChatHistory.SuccessJson |}.

Definition stored_messages (o : ChatHistory.t) : option (list Message) :=
  ChatHistory.rec_messages (records (ChatHistory.state o)).
(** The log of a session as a reader gets it: the list in memory, or the
    stored one while the list in memory is empty. *)
Definition history_view (o : ChatHistory.t) : list Message :=
  match ChatHistory.messages o with
  | [] => default [] (stored_messages o)
  | l => l
  end.
(** The list in memory is [l] and the storage works and agrees with it. *)
Definition synced (o : ChatHistory.t) (l : list Message) : Prop :=
  fault (ChatHistory.state o) = None ∧ ChatHistory.messages o = l ∧
  (stored_messages o = Some l ∨ (l = [] ∧ stored_messages o = None)).

(** ** The directory *)

Definition ids (l : list Session) : list string := id <$> l.
(** The summaries as a reader gets them. *)
Definition directory (o : ChatSessions.t) : list Session :=
  match ChatSessions.sessions o with
  | [] => default [] (records (ChatSessions.state o))
  | l => l
  end.
Definition with_sessions (o : ChatSessions.t) (l : list Session) : ChatSessions.t :=
  {| ChatSessions.state := ChatSessions.state o; ChatSessions.sessions := l |}.
(** The object after a successful write of [l]. *)
Definition persisted (l : list Session) : ChatSessions.t :=
  {| ChatSessions.state := {| fault := None; records := Some l |};
     ChatSessions.sessions := l |}.

Definition create_request (body : gmap string string) : Request :=
  {| pathname := "/sessions"; method := "POST"; json := Ok body |}.
Definition update_request (body : gmap string string) : Request :=
  {| pathname := "/sessions"; method := "PUT"; json := Ok body |}.

(** What an update writes into the summary it found. *)
Definition updated (body : gmap string string) (now : Z) (s : Session) : Session :=
  set_updatedAt now
    (match body !! "lastMessage" with Some v => set_lastMessage v | None => λ x, x end
       ((if truthy_opt (body !! "name") then set_name (or_else (body !! "name") empty)
         else λ x, x) s)).

(** The id a request gives to the summary it creates, if it creates one. *)
Definition created_id (env : Env) (r : Request) (k : nat) : option string :=
  if ChatSessions.route r "POST" then
    match json r with
    | Ok body =>
        Some (if truthy_opt (body !! "id") then or_else (body !! "id") empty
              else "session-" +:+ random_suffix env k)
    | Throw _ => None
    end
  else None.
(** Every creation of the sequence uses an id the directory does not hold at
    that point. *)
Fixpoint fresh_creates (env : Env) (reqs : list Request) (s : ChatSessions.t * nat)
  : Prop :=
  match reqs with
  | [] => True
  | r :: rest =>
      (∀ i, created_id env r (snd s) = Some i → i ∉ ids (directory (fst s)))
      ∧ fresh_creates env rest (snd (ChatSessions.fetch env r s))
  end.
Definition distinct_ids (o : ChatSessions.t) : Prop :=
  NoDup (ids (ChatSessions.sessions o))
  ∧ ∀ l, records (ChatSessions.state o) = Some l → NoDup (ids l).

(** ** Intents *)

(** [keyword] occurs in [message] up to the case of ASCII letters. *)
Definition mentions (message keyword : string) : Prop :=
  ∃ pre mid post, message = pre +:+ mid +:+ post ∧ toLowerCase mid = keyword.
Definition weather_intent (m : string) : Prop :=
  mentions m "weather" ∨ mentions m "temperature".
Definition time_intent (m : string) : Prop :=
  mentions m "time" ∨ mentions m "date" ∨ mentions m "day".
Definition news_intent (m : string) : Prop :=
  mentions m "news" ∨ mentions m "latest" ∨ mentions m "current".

(** The three lookups, as [getExternalInfo] returns them. *)
Definition weather_lookup (env : Env) (city : string) : M World (option string) :=
  let* r := getWeather env (trim city) in ret (Some r).
Definition time_answer (env : Env) : M World (option string) :=
  let* now := utc_now env in
  ret (Some ("Current date and time: " +:+ now +:+ " (UTC)")).
Definition news_lookup (env : Env) (m : string) : M World (option string) :=
  let* r := webSearch env m in ret (Some r).

(** ** Turns *)

Definition is_lookup (e : Event) : Prop :=
  match e with EvText _ => False | _ => True end.
(** [w'] differs from [w] by clock readings and by calls other than
    generation calls: the Durable Objects are the same. *)
Definition extends (w w' : World) : Prop :=
  CHAT_HISTORY w' = CHAT_HISTORY w ∧ CHAT_SESSIONS w' = CHAT_SESSIONS w
  ∧ ∃ evs, trace w' = trace w ++ evs ∧ Forall is_lookup evs.
Definition quiet {A} (m : M World A) : Prop := ∀ w, extends w (snd (m w)).
(** [m] never throws. *)
Definition safe {A} (m : M World A) : Prop := ∀ w, ∃ a, fst (m w) = Ok a.

(** The calls issued between [w] and [w']. *)
Definition new_events (w w' : World) : list Event := drop (length (trace w)) (trace w').
(** The calls of at most one lookup for [message]: none (no lookup, the
    date-and-time answer, or a lookup whose text cannot be encoded for the
    URL), the geocoding call of a weather lookup, that call followed by the
    forecast call, or the call of a web search. *)
Definition one_lookup (env : Env) (message : string) (evs : list Event) : Prop :=
  evs = []
  ∨ (∃ city, evs = [EvFetch (geocoding_url env city)])
  ∨ (∃ city g, evs = [EvFetch (geocoding_url env city); EvFetch (forecast_url g)])
  ∨ evs = [EvFetch (search_url env message)].
(** A remote call of the weather lookup for [city] fails: the geocoding call,
    or the forecast call for the place the geocoding found. *)
Definition weather_call_failed (env : Env) (city : string) : Prop :=
  (∃ e, fetch_geocoding env (geocoding_url env city) = Throw e)
  ∨ (∃ g rest e,
       fetch_geocoding env (geocoding_url env city) = Ok {| results := Some (g :: rest) |}
       ∧ fetch_forecast env (forecast_url g) = Throw e).
(** No log has changed between [w] and [w'], neither as read nor as stored. *)
Definition log_unchanged (w w' : World) : Prop :=
  ∀ n, history_view (history_object w' n) = history_view (history_object w n)
       ∧ stored_messages (history_object w' n) = stored_messages (history_object w n).

(** The text a generation answer yields, if any, and what the turn throws
    otherwise. *)
Definition usable (o : outcome TextResponse) : option string :=
  match o with
  | Ok (TObject (Some s)) => if truthy s then Some s else None
  | _ => None
  end.
Definition generation_error (o : outcome TextResponse) : exn :=
  match o with
  | Throw e => e
  | Ok _ => JsError "Invalid response from AI"
  end.

(** The input check of [handleChat], and the two calls that follow it. *)
Definition valid (body : ChatBody) : bool :=
  truthy_opt (message body) || truthy_opt (image body) || truthy_opt (fileData body).
Definition turn (env : Env) (body : ChatBody) : M World string :=
  coordinateChat env (or_else (message body) empty) (sessionId body)
                 (image body) (fileData body) (fileName body).
Definition preview_update (body : ChatBody) : Request :=
  put_session (sessionId body) (or_else (message body) "Sent an attachment").

Definition no_bundle : Bundle :=
  {| imageContext := empty; fileContext := empty; externalContext := empty |}.
Definition system_msg (s : string) : ChatMsg :=
  {| msg_role := Some "system"; msg_content := Some s |}.
Definition user_msg (s : string) : ChatMsg :=
  {| msg_role := Some "user"; msg_content := Some s |}.
(** The world after the call [e] was issued. *)
Definition issued (e : Event) (w : World) : World := snd (emit e w).

(** ** Sample inputs *)

(** A platform whose models answer and whose HTTP services are down. *)
Definition sample_env : Env :=
  {| AI_run_vision := λ _ _, Ok (VString "a cat");
     AI_run_text := λ _, Ok (TObject (Some "Hi there"));
     fetch_geocoding := λ _, Throw (JsError "network");
     fetch_forecast := λ _, Throw (JsError "network");
     fetch_search := λ _, Throw (JsError "network");
     atob := λ s, Ok s;
     encodeURIComponent := λ s, s;
     URIError := λ _, None;
     clock := λ n, Z.of_nat n;
     toUTCString := λ _, "Mon, 02 Nov 2026 12:00:00 GMT";
     random_suffix := λ _, "abc123xyz" |}.
(** The same platform with a failing text model. *)
Definition failing_env : Env :=
  {| AI_run_vision := AI_run_vision sample_env;
     AI_run_text := λ _, Throw (JsError "model overloaded");
     fetch_geocoding := fetch_geocoding sample_env;
     fetch_forecast := fetch_forecast sample_env;
     fetch_search := fetch_search sample_env;
     atob := atob sample_env;
     encodeURIComponent := encodeURIComponent sample_env;
     URIError := URIError sample_env;
     clock := clock sample_env;
     toUTCString := toUTCString sample_env;
     random_suffix := random_suffix sample_env |}.

Definition fresh_world : World :=
  {| CHAT_HISTORY := ∅; CHAT_SESSIONS := ∅; readings := 0; trace := [] |}.
(** A world in which the storage of the directory is out of order. *)
Definition directory_down : World :=
  {| CHAT_HISTORY := ∅;
     CHAT_SESSIONS :=
       {[ "user-default" :=
            ChatSessions.constructor
              {| fault := Some (JsError "storage unavailable"); records := None |} ]};
     readings := 0; trace := [] |}.

Definition fresh_history : ChatHistory.t :=
  ChatHistory.constructor
    {| fault := None;
       records := {| ChatHistory.rec_messages := None;
                     ChatHistory.rec_userContext := None |} |}.
Definition fresh_directory : ChatSessions.t :=
  ChatSessions.constructor {| fault := None; records := None |}.

Definition hello : ChatBody :=
  {| message := Some "Hello"; sessionId := "s1";
     image := None; fileName := None; fileData := None |}.
Definition no_input : ChatBody :=
  {| message := None; sessionId := "s1";
     image := None; fileName := None; fileData := None |}.
Definition paris : string := "What's the weather in Paris?".
(** The generation request of the turn [hello] on a fresh world. *)
Definition hello_request : list ChatMsg :=
  [system_msg (systemPrompt "Mon, 02 Nov 2026 12:00:00 GMT" no_bundle);
   user_msg "Hello"].
Definition sample_session : Session :=
  {| id := "a"; name := "Trip"; lastMessage := Some "see you";
     createdAt := 5; updatedAt := 7 |}.
Definition other_session : Session :=
  {| id := "b"; name := "Work"; lastMessage := Some empty;
     createdAt := 3; updatedAt := 3 |}.
Definition say (r c : string) : gmap string string :=
  <["role" := r]> (<["content" := c]> ∅).
Definition field (k v : string) : gmap string string := <[k := v]> ∅.
(** Two creations with the same id, and a well-behaved sequence. *)
Definition twice_a : list Request :=
  [create_request (field "id" "a"); create_request (field "id" "a")].
Definition busy_day : list Request :=
  [create_request (field "id" "a");
   create_request (<["id" := "b"]> (field "name" "Work"));
   update_request (<["id" := "a"]> (field "name" "Trip"));
   {| pathname := "/sessions"; method := "DELETE"; json := Ok (field "id" "b") |};
   {| pathname := "/sessions"; method := "GET"; json := Throw NonError |}].
Definition two_sessions : ChatSessions.t := persisted [other_session; sample_session].
Definition three_bodies : list (gmap string string) :=
  [say "user" "a"; say "assistant" "b"; say "user" "c"].
(** A world in which the log of the session s1 holds three messages. *)
Definition logged_a : Message :=
  {| role := Some "user"; content := Some "a"; timestamp := 11 |}.
Definition logged_b : Message :=
  {| role := Some "assistant"; content := Some "b"; timestamp := 12 |}.
Definition logged_c : Message :=
  {| role := Some "user"; content := Some "c"; timestamp := 13 |}.
Definition chatted_world : World :=
  {| CHAT_HISTORY :=
       {[ "s1" :=
            {| ChatHistory.state :=
                 {| fault := None;
                    records :=
                      {| ChatHistory.rec_messages := Some [logged_a; logged_b; logged_c];
                         ChatHistory.rec_userContext := None |} |};
               ChatHistory.messages := [logged_a; logged_b; logged_c];
               ChatHistory.userContext := ∅ |} ]};
     CHAT_SESSIONS := ∅; readings := 0; trace := [] |}.

(** ** Vocabulary of the further properties *)

Fixpoint all_chars (p : ascii → bool) (s : string) : bool :=
  match s with
  | EmptyString => true
  | String c r => p c && all_chars p r
  end.
Definition starts_with (p : ascii → bool) (s : string) : bool :=
  match s with String c _ => p c | EmptyString => false end.
Fixpoint ends_with (p : ascii → bool) (s : string) : bool :=
  match s with
  | EmptyString => false
  | String c EmptyString => p c
  | String _ r => ends_with p r
  end.
Definition is_sep (sep c : ascii) : bool := Ascii.eqb c sep.

Definition delete_request (body : gmap string string) : Request :=
  {| pathname := "/sessions"; method := "DELETE"; json := Ok body |}.
(** The summary a creation with [body] makes when the clock and random
    readings stand at [k]. *)
Definition new_session (env : Env) (body : gmap string string) (k : nat) : Session :=
  let k1 := if truthy_opt (body !! "id") then k else S k in
  {| id := if truthy_opt (body !! "id") then or_else (body !! "id") empty
           else "session-" +:+ random_suffix env k;
     name := or_else (body !! "name") "New Chat";
     lastMessage := Some empty;
     createdAt := clock env k1; updatedAt := clock env (S k1) |}.
(** The summaries with another id than the one of [body]. *)
Definition without (body : gmap string string) (l : list Session) : list Session :=
  filter (λ s, Some (id s) ≠ body !! "id") l.

(** The object after the platform dropped it from memory: it is constructed
    again on its storage. *)
Definition restart_directory (o : ChatSessions.t) : ChatSessions.t :=
  ChatSessions.constructor (ChatSessions.state o).
Definition restart_log (o : ChatHistory.t) : ChatHistory.t :=
  ChatHistory.constructor (ChatHistory.state o).

(** The storage works and holds what the memory holds, where the memory
    holds something. *)
Definition directory_in_step (o : ChatSessions.t) : Prop :=
  fault (ChatSessions.state o) = None
  ∧ (ChatSessions.sessions o = []
     ∨ records (ChatSessions.state o) = Some (ChatSessions.sessions o)).
Definition log_in_step (o : ChatHistory.t) : Prop :=
  fault (ChatHistory.state o) = None
  ∧ (ChatHistory.messages o = [] ∨ stored_messages o = Some (ChatHistory.messages o))
  ∧ (ChatHistory.rec_userContext (records (ChatHistory.state o))
       = Some (ChatHistory.userContext o)
     ∨ (ChatHistory.rec_userContext (records (ChatHistory.state o)) = None
        ∧ ChatHistory.userContext o = ∅)).

(** The log object once a request has loaded it: with an empty list in
    memory, the stored list and the stored context (where there are any)
    replace what the memory holds. *)
Definition hydrated (o : ChatHistory.t) : ChatHistory.t :=
  match ChatHistory.messages o with
  | [] =>
      {| ChatHistory.state := ChatHistory.state o;
         ChatHistory.messages := default [] (stored_messages o);
         ChatHistory.userContext :=
           default (ChatHistory.userContext o)
                   (ChatHistory.rec_userContext (records (ChatHistory.state o))) |}
  | _ => o
  end.
(** The context as a reader gets it. *)
Definition context_view (o : ChatHistory.t) : gmap string JsVal :=
  ChatHistory.userContext (hydrated o).

Definition get_context : Request :=
  {| pathname := "/context"; method := "GET";
     json := Throw (JsError "Unexpected end of JSON input") |}.
Definition merge_request (body : gmap string string) : Request :=
  {| pathname := "/context"; method := "POST"; json := Ok body |}.

(** The prompt of the vision call for the question [q]. *)
Definition vision_prompt (q : option string) : string :=
  if truthy_opt q then
    "Analyze this image and answer the following question: "
      +:+ to_string q +:+ ". Provide detailed observations and insights."
  else
    "Describe this image in comprehensive detail. Include: objects, people, text visible in the image, colors, setting, actions, emotions, and any other relevant details. If there's text in the image, transcribe it exactly.".
(** What [atob] is applied to: the part of the data URL between its first
    and its second comma. *)
Definition base64_part (dataUrl : string) : string :=
  to_string (split "," dataUrl !! 1%nat).
(** The extension [extractTextFromFile] goes by. *)
Definition file_extension (fileName : string) : string :=
  toLowerCase (default empty (last (split "." fileName))).
Definition no_dot (s : string) : bool :=
  all_chars (λ c, negb (is_sep "." c)) s.

(** The report of a weather lookup that found the place [g] and its current
    weather [cur]. *)
Definition weather_report (g : GeoResult) (cur : Current) : string :=
  "Weather in " +:+ geo_name g +:+ ", " +:+ country g +:+ ": "
    +:+ or_else (weatherCodes (weather_code cur)) "Unknown"
    +:+ ", Temperature: " +:+ temperature_2m cur
    +:+ degree +:+ "C, Humidity: " +:+ relative_humidity_2m cur
    +:+ "%, Wind: " +:+ wind_speed_10m cur +:+ " km/h".
(** The forecast for the place the geocoding found carries no current
    weather. *)
Definition no_current (env : Env) (city : string) : Prop :=
  ∃ g rest,
    fetch_geocoding env (geocoding_url env city) = Ok {| results := Some (g :: rest) |}
    ∧ fetch_forecast env (forecast_url g) = Ok {| current := None |}.
(** The first character of a text. *)
Definition first_char (s : string) : option ascii :=
  match s with String c _ => Some c | EmptyString => None end.

(** [m] keeps the relation [R] between the world it starts from and the
    world it leaves. *)
Definition preserves (R : World → World → Prop) {A} (m : M World A) : Prop :=
  ∀ w, R w (snd (m w)).
(** No directory other than [n] has changed. *)
Definition only_directory (n : string) (w w' : World) : Prop :=
  ∀ m, m ≠ n → CHAT_SESSIONS w' !! m = CHAT_SESSIONS w !! m.
(** No log other than [n] has changed. *)
Definition only_log (n : string) (w w' : World) : Prop :=
  ∀ m, m ≠ n → CHAT_HISTORY w' !! m = CHAT_HISTORY w !! m.
(** Nothing but reading happened between [w] and [w']: no call, no clock
    reading, and every log and every directory reads and stores what it
    did. *)
Definition read_only (w w' : World) : Prop :=
  trace w' = trace w ∧ readings w' = readings w
  ∧ (∀ n, history_view (history_object w' n) = history_view (history_object w n)
          ∧ ChatHistory.state (history_object w' n)
            = ChatHistory.state (history_object w n))
  ∧ (∀ n, directory (sessions_object w' n) = directory (sessions_object w n)
          ∧ ChatSessions.state (sessions_object w' n)
            = ChatSessions.state (sessions_object w n)).
(** The directories are the same. *)
Definition same_directories (w w' : World) : Prop := CHAT_SESSIONS w' = CHAT_SESSIONS w.

(** The request is for the path [p] with the method [m]. *)
Definition log_route (r : Request) (p m : string) : bool :=
  String.eqb (pathname r) p && String.eqb (method r) m.

(** ** Further sample inputs *)

(** A request with a body that is not JSON. *)
Definition bad_create : Request :=
  {| pathname := "/sessions"; method := "POST";
     json := Throw (JsError "Unexpected end of JSON input") |}.
Definition bad_append : Request :=
  {| pathname := "/messages"; method := "POST";
     json := Throw (JsError "Unexpected end of JSON input") |}.
Definition first_message : Message :=
  {| role := Some "user"; content := Some "a"; timestamp := 4 |}.
(** A log as the platform constructs it on a storage that holds a message
    and a context. *)
Definition stored_log : ChatHistory.t :=
  ChatHistory.constructor
    {| fault := None;
       records := {| ChatHistory.rec_messages := Some [first_message];
                     ChatHistory.rec_userContext := Some {[ "name" := JStr "Ada" ]} |} |}.
(** A log that holds a message in memory while its storage is out of
    order. *)
Definition broken_log : ChatHistory.t :=
  {| ChatHistory.state :=
       {| fault := Some (JsError "storage unavailable");
          records := {| ChatHistory.rec_messages := Some [first_message];
                        ChatHistory.rec_userContext := None |} |};
     ChatHistory.messages := [first_message];
     ChatHistory.userContext := ∅ |}.
Definition mixed_day : list Request :=
  [append_request (say "user" "a"); merge_request (field "name" "Bo");
   delete_messages; append_request (say "user" "b")].
(** The sample platform with a decoder that rejects its input. *)
Definition no_atob_env : Env :=
  {| AI_run_vision := AI_run_vision sample_env;
     AI_run_text := AI_run_text sample_env;
     fetch_geocoding := fetch_geocoding sample_env;
     fetch_forecast := fetch_forecast sample_env;
     fetch_search := fetch_search sample_env;
     atob := λ _, Throw (JsError "Invalid character");
     encodeURIComponent := encodeURIComponent sample_env;
     URIError := URIError sample_env;
     clock := clock sample_env;
     toUTCString := toUTCString sample_env;
     random_suffix := random_suffix sample_env |}.
Definition text_url : string := "data:text/plain;base64,hello world".
(** The sample platform for a text that [encodeURIComponent] rejects. *)
Definition no_uri_env : Env :=
  {| AI_run_vision := AI_run_vision sample_env;
     AI_run_text := AI_run_text sample_env;
     fetch_geocoding := fetch_geocoding sample_env;
     fetch_forecast := fetch_forecast sample_env;
     fetch_search := fetch_search sample_env;
     atob := atob sample_env;
     encodeURIComponent := encodeURIComponent sample_env;
     URIError := λ _, Some (JsError "URI malformed");
     clock := clock sample_env;
     toUTCString := toUTCString sample_env;
     random_suffix := random_suffix sample_env |}.
(** The text of a PDF (as [atob] gives it for the sample platform): twelve
    runs of characters of the class, one of them with a no-break space, cut
    by characters outside the class. *)
Definition pdf_text : string :=
  "%PDF" +:+ nbsp +:+ "sample<<Title (Report)>>stream{Quarterly figures}[north: 12; south: 15]"
    +:+ "<east: 9>{west: 21}*total: 57*#prepared by A. Clerk#~checked~|approved|endstream".
Definition pdf_url : string := "data:application/pdf;base64," +:+ pdf_text.
Definition pdf_extracted : string :=
  "PDF" +:+ nbsp +:+ "sample Title (Report) stream Quarterly figures north: 12; south: 15"
    +:+ " east: 9 west: 21 total: 57 prepared by A. Clerk checked approved endstream".
(** A world whose directory holds the session of [hello]. *)
Definition s1_session : Session :=
  {| id := "s1"; name := "Trip"; lastMessage := Some empty;
     createdAt := 5; updatedAt := 7 |}.
Definition listed_world : World :=
  {| CHAT_HISTORY := ∅;
     CHAT_SESSIONS := {[ "user-default" := persisted [s1_session] ]};
     readings := 0; trace := [] |}.
Definition cat_and_sun : list TaskResult :=
  [ {| type := image_task; data := Some "a cat" |};
    {| type := external_task; data := Some "sunny" |} ].
Definition sun_and_cat : list TaskResult :=
  [ {| type := external_task; data := Some "sunny" |};
    {| type := image_task; data := Some "a cat" |} ].

(** * Properties *)

(** ** Sanity checks of the embedding on concrete inputs *)

Example cityMatch_paris : cityMatch paris = Some "Paris".
Proof. reflexivity. Qed.
Example cityMatch_two_words : cityMatch "Raining in New York" = Some "New York".
Proof. reflexivity. Qed.
Example cityMatch_leftmost : cityMatch "going in 5 min or in Rome." = Some "or in Rome".
Proof. reflexivity. Qed.
Example cityMatch_none : cityMatch "weather today" = None.
Proof. reflexivity. Qed.
Example split_data_url : split "," "data:image/png;base64,AAAA" !! 1 = Some "AAAA".
Proof. reflexivity. Qed.
Example extension_of : last (split "." "notes.final.TXT") = Some "TXT".
Proof. reflexivity. Qed.
Example match_runs_pdf : match_runs pdf_char [] "ab%%cd e#" = ["ab"; "cd e"].
Proof. reflexivity. Qed.
Example slice_last_3 : slice_last 2 [1; 2; 3] = [2; 3].
Proof. reflexivity. Qed.
(** The no-break space is white space: for the city pattern (after the
    letters i n, inside the capture), for [trim], and for the runs of the PDF
    pattern. *)
Example cityMatch_nbsp_in_capture :
  cityMatch ("weather in Paris" +:+ nbsp +:+ "?") = Some ("Paris" +:+ nbsp)
  ∧ trim ("Paris" +:+ nbsp) = "Paris".
Proof. split; reflexivity. Qed.
Example cityMatch_nbsp_after_in :
  cityMatch ("weather in" +:+ nbsp +:+ "Paris or in Rome?") = Some "Paris or in Rome".
Proof. reflexivity. Qed.
Example nbsp_lookup env p :
  getExternalInfo ("weather in" +:+ nbsp +:+ "Paris?") env p = weather_lookup env "Paris".
Proof. reflexivity. Qed.
(** A query that cannot be encoded: the search answers with its fallback
    text and issues no call. *)
Example webSearch_unencodable_query :
  webSearch no_uri_env "latest" fresh_world = (Ok "Unable to search", fresh_world)
  ∧ getExternalInfo "latest" no_uri_env "user-default" fresh_world
    = (Ok (Some "Unable to search"), fresh_world).
Proof. split; reflexivity. Qed.
Example match_runs_nbsp :
  match_runs pdf_char [] ("ab" +:+ nbsp +:+ "cd%e") = ["ab" +:+ nbsp +:+ "cd"; "e"].
Proof. reflexivity. Qed.
Example hello_turn :
  fst (handleChat (Ok hello) sample_env fresh_world)
  = Ok {| status := 200; payload := ChatReply "Hi there" "s1" |}.
Proof. vm_compute. reflexivity. Qed.
Example hello_logged :
  ChatHistory.messages
    (history_object (snd (handleChat (Ok hello) sample_env fresh_world)) "s1")
  = [ {| role := Some "user"; content := Some "Hello"; timestamp := 1 |};
      {| role := Some "assistant"; content := Some "Hi there"; timestamp := 2 |} ].
Proof. vm_compute. reflexivity. Qed.

(** ** Lists and strings *)

Lemma slice_last_short {A} (k : nat) (l : list A) :
  length l ≤ k → slice_last k l = l.
Proof. intros H. unfold slice_last. by replace (length l - k) with 0 by lia. Qed.

Lemma length_slice_last {A} (k : nat) (l : list A) :
  length (slice_last k l) = Nat.min (length l) k.
Proof. unfold slice_last. rewrite length_drop. lia. Qed.

(** Evicting after every append keeps what evicting once at the end keeps. *)
Lemma slice_last_snoc {A} (k : nat) (l : list A) x :
  0 < k → slice_last k (slice_last k l ++ [x]) = slice_last k (l ++ [x]).
Proof.
  intros Hk. unfold slice_last.
  rewrite !length_app, length_drop. simpl.
  destruct (decide (length l ≤ k)) as [H|H].
  - replace (length l - k) with 0 by lia. simpl.
    by replace (length l - 0) with (length l) by lia.
  - replace (length l - (length l - k) + 1 - k) with 1 by lia.
    replace (length l + 1 - k) with (S (length l - k)) by lia.
    rewrite (drop_app_le l [x] (S _)) by lia.
    rewrite drop_app_le by (rewrite length_drop; lia).
    rewrite drop_drop. do 2 f_equal. lia.
Qed.

Lemma alter_middle {A} (f : A → A) before s after :
  alter f (length before) (before ++ s :: after) = before ++ f s :: after.
Proof.
  replace (length before) with (length before + 0) by lia.
  by rewrite alter_app_r.
Qed.

Lemma append_cons c (a b : string) : String c a +:+ b = String c (a +:+ b).
Proof. reflexivity. Qed.

Lemma prefix_spec a s : String.prefix a s = true ↔ ∃ post, s = a +:+ post.
Proof.
  revert s. induction a as [|c a IH]; intros s.
  - split; [intros _; by exists s|by destruct s].
  - destruct s as [|d s]; simpl.
    + split; [done|intros [post H]; done].
    + destruct (ascii_dec c d) as [->|Hne].
      * rewrite IH. split; intros [post H]; exists post;
          rewrite append_cons in *; congruence.
      * split; [done|intros [post H]; rewrite append_cons in H; congruence].
Qed.

Lemma includes_spec s sub :
  includes s sub = true ↔ ∃ pre post, s = pre +:+ sub +:+ post.
Proof.
  induction s as [|c s IH]; cbn [includes].
  - rewrite orb_false_r, prefix_spec. split.
    + intros [post H]. by exists EmptyString, post.
    + intros (pre & post & H). destruct pre; [by exists post|done].
  - rewrite orb_true_iff, prefix_spec, IH. split.
    + intros [[post H]|(pre & post & H)].
      * by exists EmptyString, post.
      * exists (String c pre), post. by rewrite append_cons, H.
    + intros (pre & post & H). destruct pre as [|d pre].
      * left. by exists post.
      * right. exists pre, post. rewrite append_cons in H. congruence.
Qed.

Lemma map_string_app f a b :
  map_string f (a +:+ b) = map_string f a +:+ map_string f b.
Proof.
  induction a as [|c a IH]; [done|].
  rewrite append_cons. simpl. by rewrite IH.
Qed.

Lemma map_string_split f s a b :
  map_string f s = a +:+ b →
  ∃ s1 s2, s = s1 +:+ s2 ∧ map_string f s1 = a ∧ map_string f s2 = b.
Proof.
  revert s. induction a as [|c a IH]; intros s H.
  - by exists EmptyString, s.
  - rewrite append_cons in H. destruct s as [|d s]; simpl in H; [done|].
    injection H as Hc Hr. destruct (IH _ Hr) as (s1 & s2 & -> & H1 & H2).
    exists (String d s1), s2. simpl. by rewrite Hc, H1.
Qed.

(** The substring test of the code is the case-insensitive occurrence. *)
Lemma includes_mentions message keyword :
  includes (toLowerCase message) keyword = true ↔ mentions message keyword.
Proof.
  rewrite includes_spec. unfold mentions, toLowerCase. split.
  - intros (pre & post & H).
    apply map_string_split in H as (s1 & r & -> & H1 & H).
    apply map_string_split in H as (s2 & s3 & -> & H2 & H3).
    by exists s1, s2, s3.
  - intros (pre & mid & post & -> & H).
    exists (map_string lower_char pre), (map_string lower_char post).
    by rewrite !map_string_app, H.
Qed.

Lemma weather_intent_spec m :
  includes (toLowerCase m) "weather" || includes (toLowerCase m) "temperature" = true
  ↔ weather_intent m.
Proof. unfold weather_intent. by rewrite orb_true_iff, !includes_mentions. Qed.
Lemma time_intent_spec m :
  includes (toLowerCase m) "time" || includes (toLowerCase m) "date"
    || includes (toLowerCase m) "day" = true ↔ time_intent m.
Proof. unfold time_intent. rewrite !orb_true_iff, !includes_mentions. tauto. Qed.
Lemma news_intent_spec m :
  includes (toLowerCase m) "news" || includes (toLowerCase m) "latest"
    || includes (toLowerCase m) "current" = true ↔ news_intent m.
Proof. unfold news_intent. rewrite !orb_true_iff, !includes_mentions. tauto. Qed.

(** ** Serving requests *)

Lemma serve_app {O R} (f : Request → DO O R) r1 r2 s :
  serve f (r1 ++ r2) s =
  let '(l1, s1) := serve f r1 s in
  let '(l2, s2) := serve f r2 s1 in (l1 ++ l2, s2).
Proof.
  revert s. induction r1 as [|r r1 IH]; intros s; simpl.
  - by destruct (serve f r2 s).
  - destruct (f r s) as [a s']. rewrite IH.
    destruct (serve f r1 s') as [l1 s1]. by destruct (serve f r2 s1).
Qed.

(** ** The message log *)

Lemma appended_snoc env k bodies b :
  appended env k (bodies ++ [b])
  = appended env k bodies ++ [stamped env (k + length bodies) b].
Proof. unfold appended. rewrite imap_app. simpl. by rewrite Nat.add_0_r. Qed.

Lemma length_appended env k bodies : length (appended env k bodies) = length bodies.
Proof. unfold appended. by rewrite length_imap. Qed.

(** One append on a log in step with its storage: the message is stamped
    with the clock, the list is cut to its last 50 and written. *)
Lemma append_step env o l k body :
  synced o l →
  ∃ o', ChatHistory.fetch env (append_request body) (o, k) = (success, (o', S k))
        ∧ synced o' (slice_last 50 (l ++ [stamped env k body])).
Proof.
  intros (Hf & Hm & Hs). destruct o as [[f rec] ms uc].
  unfold stored_messages in Hs. simpl in *. subst.
  unfold ChatHistory.fetch, append_request, success.
  destruct l as [|m l].
  - destruct Hs as [Hs|[_ Hs]]; destruct rec as [rm ru]; simpl in Hs; subst;
      destruct ru; cbn; eexists; (split; [reflexivity|]); unfold synced; cbn; auto.
  - destruct Hs as [Hs|[? _]]; [|done].
    cbn -[slice_last Nat.ltb].
    destruct (50 <? _) eqn:E; cbn -[slice_last Nat.ltb];
      eexists; (split; [reflexivity|]); unfold synced; cbn -[slice_last].
    + auto.
    + apply Nat.ltb_ge in E.
      rewrite (slice_last_short 50 (m :: l ++ _)) by exact E. auto.
Qed.

Lemma appends_synced env o k bodies :
  synced o [] →
  ∃ o', serve (ChatHistory.fetch env) (append_request <$> bodies) (o, k)
        = (replicate (length bodies) success, (o', k + length bodies))
        ∧ synced o' (slice_last 50 (appended env k bodies)).
Proof.
  intros H0. induction bodies as [|b bodies IH] using rev_ind.
  - exists o. simpl. by rewrite Nat.add_0_r.
  - destruct IH as (o1 & E1 & S1).
    destruct (append_step env o1 _ (k + length bodies) b S1) as (o2 & E2 & S2).
    exists o2. rewrite fmap_app, serve_app, E1. simpl. rewrite E2.
    rewrite length_app. simpl. split.
    + f_equal; [|f_equal; lia]. by rewrite replicate_add.
    + rewrite appended_snoc, <- slice_last_snoc by lia. done.
Qed.

Example fifty_one_appends :
  let bodies := replicate 51 (say "user" "x") in
  ChatHistory.messages
    (fst (snd (serve (ChatHistory.fetch sample_env) (append_request <$> bodies)
                     (fresh_history, 0))))
  = drop 1 (appended sample_env 0 bodies).
Proof. vm_compute. reflexivity. Qed.

(** C1.  Start from an empty log whose storage works and serve a sequence of
    appends.  After each of them (after the first [n], for every [n] up to
    the length of the sequence) every append has succeeded, the list holds at
    most 50 messages, it is exactly the last [min n 50] appended messages in
    append order, and the same list is what the storage holds. *)
Theorem C1_append_window env o k bodies n :
  ChatHistory.messages o = [] →
  stored_messages o = None →
  fault (ChatHistory.state o) = None →
  n ≤ length bodies →
  let run := serve (ChatHistory.fetch env) (append_request <$> take n bodies) (o, k) in
  let o' := fst (snd run) in
  fst run = replicate n success
  ∧ length (ChatHistory.messages o') ≤ 50
  ∧ ChatHistory.messages o'
    = drop (n - Nat.min n 50) (appended env k (take n bodies))
  ∧ (0 < n → stored_messages o' = Some (ChatHistory.messages o')).
Proof.
  intros Hm Hs Hf Hn.
  assert (H0 : synced o []) by (unfold synced; auto).
  destruct (appends_synced env o k (take n bodies) H0) as (o' & E & Hf' & Hm' & Hs').
  rewrite length_take, Nat.min_l in E by exact Hn.
  cbv zeta. rewrite E. simpl. split; [done|].
  assert (Hlen : length (appended env k (take n bodies)) = n).
  { rewrite length_appended, length_take. lia. }
  assert (Hcut : slice_last 50 (appended env k (take n bodies))
                 = drop (n - Nat.min n 50) (appended env k (take n bodies))).
  { unfold slice_last. rewrite Hlen. f_equal. lia. }
  rewrite Hm'. split; [rewrite length_slice_last; lia|]. split; [exact Hcut|].
  intros Hpos. destruct Hs' as [Hs'|[Hnil _]]; [done|].
  apply (f_equal length) in Hnil. rewrite length_slice_last, Hlen in Hnil.
  simpl in Hnil. lia.
Qed.

Lemma C1_append_window_witness :
  2 ≤ length three_bodies
  ∧ fst (serve (ChatHistory.fetch sample_env) (append_request <$> take 2 three_bodies)
               (fresh_history, 0)) = replicate 2 success
  ∧ ChatHistory.messages
      (fst (snd (serve (ChatHistory.fetch sample_env)
                       (append_request <$> take 2 three_bodies) (fresh_history, 0))))
    = drop (2 - Nat.min 2 50) (appended sample_env 0 (take 2 three_bodies)).
Proof.
  assert (H : 2 ≤ length three_bodies) by (simpl; lia).
  split; [exact H|].
  destruct (C1_append_window sample_env fresh_history 0 three_bodies 2
              eq_refl eq_refl eq_refl H) as (H1 & _ & H3 & _).
  split; [exact H1|exact H3].
Defined.

(** ** The directory *)

Lemma hydrate_ok o k :
  fault (ChatSessions.state o) = None →
  ChatSessions.hydrate (o, k) = (Ok tt, (with_sessions o (directory o), k)).
Proof.
  destruct o as [[f r] l]. simpl. intros ->.
  unfold ChatSessions.hydrate, directory, with_sessions.
  destruct l; [destruct r|]; reflexivity.
Qed.

(** Loading either fails on the storage and changes nothing, or leaves the
    summaries a reader gets in memory. *)
Lemma hydrate_cases o k :
  (∃ e, ChatSessions.hydrate (o, k) = (Throw e, (o, k)))
  ∨ (∃ o1, ChatSessions.hydrate (o, k) = (Ok tt, (o1, k))
           ∧ ChatSessions.sessions o1 = directory o
           ∧ ChatSessions.state o1 = ChatSessions.state o).
Proof.
  destruct o as [[[e|] r] [|x l]].
  - left. by exists e.
  - right. eexists. split; [reflexivity|]. done.
  - right. destruct r; eexists; (split; [reflexivity|]); done.
  - right. eexists. split; [reflexivity|]. done.
Qed.

Lemma findIndex_first v before s after :
  Some (id s) = v → Forall (λ x, Some (id x) ≠ v) before →
  ChatSessions.findIndex v (before ++ s :: after) = Some (length before).
Proof.
  intros Hs Hb. unfold ChatSessions.findIndex.
  induction Hb as [|x l Hx Hl IH]; simpl.
  - by rewrite decide_True by done.
  - rewrite decide_False by done.
    destruct (list_find _ (l ++ s :: after)) as [[i y]|]; simpl in *; congruence.
Qed.

Lemma findIndex_none v l :
  Forall (λ x, Some (id x) ≠ v) l → ChatSessions.findIndex v l = None.
Proof.
  intros H. unfold ChatSessions.findIndex.
  by rewrite (proj2 (list_find_None _ l) H).
Qed.

Ltac run_object :=
  unfold ChatSessions.set_sessions, ChatSessions.storage_put, bind, this,
    set_this, ret, lift, Date_now, Math_random, throw.

(** An update of a summary the directory holds: the first summary with the
    id is rewritten in place, the list is written, the clock is read once. *)
Lemma put_found env o k body before s after :
  fault (ChatSessions.state o) = None →
  directory o = before ++ s :: after →
  Some (id s) = body !! "id" →
  Forall (λ x, Some (id x) ≠ body !! "id") before →
  ChatSessions.fetch env (update_request body) (o, k) =
  (Ok {| ChatSessions.status := 200;
         ChatSessions.payload :=
           ChatSessions.SessionJson (Some (updated body (clock env k) s)) |},
   (persisted (before ++ updated body (clock env k) s :: after), S k)).
Proof.
  intros Hf Hd Hs Hb. unfold ChatSessions.fetch.
  unfold bind at 1. rewrite hydrate_ok by done. rewrite Hd.
  destruct o as [[f r] l]. simpl in Hf. subst f.
  unfold update_request, with_sessions. cbn -[ChatSessions.findIndex alter].
  rewrite findIndex_first by done.
  unfold updated.
  destruct (body !! "name") as [n|]; [destruct (truthy n) eqn:Hn|];
  destruct (body !! "lastMessage") as [v|];
    unfold truthy_opt, or_else; rewrite ?Hn; run_object; cbn -[alter];
    rewrite ?alter_middle; cbn -[alter]; rewrite ?alter_middle; cbn -[alter];
    rewrite ?alter_middle; rewrite ?list_lookup_middle by done; reflexivity.
Qed.

(** An update of an id the directory does not hold. *)
Lemma put_missing env o k body :
  fault (ChatSessions.state o) = None →
  Forall (λ x, Some (id x) ≠ body !! "id") (directory o) →
  ChatSessions.fetch env (update_request body) (o, k) =
  (Ok {| ChatSessions.status := 404;
         ChatSessions.payload := ChatSessions.ErrorJson "Session not found" |},
   (with_sessions o (directory o), k)).
Proof.
  intros Hf Hb. unfold ChatSessions.fetch.
  unfold bind at 1. rewrite hydrate_ok by done.
  destruct o as [[f r] l]. simpl in Hf. subst f.
  unfold update_request, with_sessions. cbn -[ChatSessions.findIndex directory].
  by rewrite findIndex_none by done.
Qed.

Lemma directory_with_sessions o : directory (with_sessions o (directory o)) = directory o.
Proof.
  destruct o as [[f r] [|x l]]; [|done].
  unfold directory, with_sessions. simpl. by destruct r as [[|y r]|].
Qed.

Lemma distinct_directory o : distinct_ids o → NoDup (ids (directory o)).
Proof.
  intros [Hm Hs]. unfold directory. destruct (ChatSessions.sessions o); [|done].
  destruct (records (ChatSessions.state o)); simpl; [auto|constructor].
Qed.

Lemma ids_alter (f : Session → Session) i l :
  (∀ s, id (f s) = id s) → ids (alter f i l) = ids l.
Proof.
  intros Hf. unfold ids. revert i.
  induction l as [|x l IH]; intros [|i]; simpl; try done.
  - by rewrite Hf.
  - f_equal. apply IH.
Qed.

Lemma ids_filter_NoDup (P : Session → Prop) `{∀ x, Decision (P x)} l :
  NoDup (ids l) → NoDup (ids (filter P l)).
Proof.
  unfold ids. intros Hl. eapply sublist_NoDup; [exact Hl|].
  apply fmap_sublist, sublist_filter.
Qed.

Ltac distinct_goal Hm Hs :=
  split; [|intros ? Hrec; cbn -[alter filter] in Hrec;
           first [apply Hs in Hrec; exact Hrec | injection Hrec as <-]];
  cbn -[alter filter]; rewrite ?ids_alter by done;
  first [exact Hm | apply ids_filter_NoDup; exact Hm
        | constructor; [assumption|exact Hm] ].

(** One request keeps the ids distinct, in memory and in the storage, if the
    summary it creates (when it creates one) has an id that is not in use. *)
Lemma fetch_distinct env r o k :
  distinct_ids o →
  (∀ i, created_id env r k = Some i → i ∉ ids (directory o)) →
  distinct_ids (fst (snd (ChatSessions.fetch env r (o, k)))).
Proof.
  intros Hinv Hfresh. unfold ChatSessions.fetch. unfold bind at 1.
  destruct (hydrate_cases o k) as [[e ->]|(o1 & -> & Hl & Hst)]; [exact Hinv|].
  assert (Hinv1 : distinct_ids o1).
  { split; [rewrite Hl; by apply distinct_directory|rewrite Hst; apply Hinv]. }
  unfold created_id in Hfresh. rewrite <- Hl in Hfresh.
  clear Hinv Hl Hst o. destruct Hinv1 as [Hm Hs].
  destruct o1 as [[f rec] l]. simpl in *.
  destruct (ChatSessions.route r "GET") eqn:EG; [by split|].
  destruct (ChatSessions.route r "POST") eqn:EP.
  { destruct (json r) as [body|e]; [|by split].
    specialize (Hfresh _ eq_refl). cbn.
    unfold truthy_opt, or_else in *.
    destruct (body !! "id") as [i|]; [destruct (truthy i)|]; destruct f;
      run_object; cbn; distinct_goal Hm Hs. }
  destruct (ChatSessions.route r "PUT") eqn:EU.
  { destruct (json r) as [body|e]; [|by split].
    unfold lift, bind at 1. unfold this, bind at 1. cbn -[ChatSessions.findIndex alter].
    destruct (ChatSessions.findIndex _ l) as [n|]; [|by split].
    unfold truthy_opt, or_else.
    destruct (body !! "name") as [nm|]; [destruct (truthy nm)|];
      destruct (body !! "lastMessage") as [v|]; destruct f;
      run_object; cbn -[alter]; distinct_goal Hm Hs. }
  destruct (ChatSessions.route r "DELETE") eqn:ED.
  { destruct (json r) as [body|e]; [|by split].
    destruct f; cbn -[filter]; distinct_goal Hm Hs. }
  by split.
Qed.

Lemma serve_distinct env reqs o k :
  distinct_ids o → fresh_creates env reqs (o, k) →
  distinct_ids (fst (snd (serve (ChatSessions.fetch env) reqs (o, k)))).
Proof.
  revert o k. induction reqs as [|r reqs IH]; intros o k Hinv Hfresh; [done|].
  destruct Hfresh as [H1 H2]. simpl in *.
  pose proof (fetch_distinct env r o k Hinv H1) as Hstep.
  destruct (ChatSessions.fetch env r (o, k)) as [a [o' k']]. simpl in *.
  specialize (IH o' k' Hstep H2).
  by destruct (serve (ChatSessions.fetch env) reqs (o', k')).
Qed.

Lemma not_in_ids i l : i ∉ ids l → Forall (λ x, Some (id x) ≠ Some i) l.
Proof.
  intros H. apply Forall_forall. intros x Hx [= Hid]. apply H.
  unfold ids. rewrite <- Hid. by apply list_elem_of_fmap_2.
Qed.

Example busy_day_directory :
  ids (directory (fst (snd (serve (ChatSessions.fetch sample_env) busy_day
                                  (fresh_directory, 0))))) = ["a"].
Proof. vm_compute. reflexivity. Qed.

(** C8 (as the code has it).  Start from the empty directory and serve any
    sequence of requests in which every creation uses an id the directory
    does not hold at that point.  Then no two summaries share an id, in the
    list in memory and in the list a reader gets. *)
Theorem C8_distinct_ids env reqs o k :
  ChatSessions.sessions o = [] →
  records (ChatSessions.state o) = None →
  fresh_creates env reqs (o, k) →
  NoDup (ids (ChatSessions.sessions
                (fst (snd (serve (ChatSessions.fetch env) reqs (o, k))))))
  ∧ NoDup (ids (directory (fst (snd (serve (ChatSessions.fetch env) reqs (o, k)))))).
Proof.
  intros Hm Hs Hfresh.
  assert (H0 : distinct_ids o).
  { split; [rewrite Hm; constructor|]. intros l Hl. rewrite Hs in Hl. discriminate Hl. }
  pose proof (serve_distinct env reqs o k H0 Hfresh) as H.
  split; [exact (proj1 H)|by apply distinct_directory].
Qed.

Lemma C8_distinct_ids_witness :
  fresh_creates sample_env busy_day (fresh_directory, 0)
  ∧ NoDup (ids (directory (fst (snd (serve (ChatSessions.fetch sample_env) busy_day
                                           (fresh_directory, 0)))))).
Proof.
  assert (H : fresh_creates sample_env busy_day (fresh_directory, 0)).
  { repeat split; vm_compute; intros i Hi; try discriminate Hi;
      injection Hi as <-; intros Hin;
      repeat (apply elem_of_cons in Hin as [Hin|Hin]; [discriminate Hin|]);
      by apply not_elem_of_nil in Hin. }
  split; [exact H|].
  exact (proj2 (C8_distinct_ids sample_env busy_day fresh_directory 0
                  eq_refl eq_refl H)).
Defined.

(** C8, as stated, fails: two creations with the id a, served from the empty
    directory, leave two summaries with the id a. *)
Lemma C8_duplicate_ids :
  ids (ChatSessions.sessions
         (fst (snd (serve (ChatSessions.fetch sample_env) twice_a (fresh_directory, 0)))))
  = ["a"; "a"]
  ∧ ¬ NoDup (ids (ChatSessions.sessions
                    (fst (snd (serve (ChatSessions.fetch sample_env) twice_a
                                     (fresh_directory, 0)))))).
Proof.
  assert (E : ids (ChatSessions.sessions
                     (fst (snd (serve (ChatSessions.fetch sample_env) twice_a
                                      (fresh_directory, 0))))) = ["a"; "a"])
    by (vm_compute; reflexivity).
  split; [exact E|]. rewrite E. intros H.
  apply NoDup_cons in H as [H _]. apply H. by left.
Qed.

Lemma name_body_lookups i X :
  let body : gmap string string := <["id" := i]> (field "name" X) in
  body !! "id" = Some i ∧ body !! "name" = Some X ∧ body !! "lastMessage" = None.
Proof. unfold field. by simplify_map_eq. Qed.

Lemma preview_body_lookups i p :
  let body : gmap string string := <["id" := i]> (field "lastMessage" p) in
  body !! "id" = Some i ∧ body !! "name" = None ∧ body !! "lastMessage" = Some p.
Proof. unfold field. by simplify_map_eq. Qed.

(** C9.  On a directory whose storage works, renaming to a non-empty name [X]
    the summary with id [i]:
    - when the directory holds the id, the first summary with it gets the
      name [X] and the clock reading as [updatedAt]; its [id], [lastMessage]
      and [createdAt], its place in the list and all other summaries stay as
      they were; the answer is that summary and the list is written;
    - when the directory does not hold the id, the answer is 404 with the
      error Session not found, and the directory and its storage stay as they
      were. *)
Theorem C9_update_name env o k i X :
  fault (ChatSessions.state o) = None →
  truthy X = true →
  (∀ before s after,
     directory o = before ++ s :: after → id s = i → i ∉ ids before →
     let s' := {| id := id s; name := X; lastMessage := lastMessage s;
                  createdAt := createdAt s; updatedAt := clock env k |} in
     ChatSessions.fetch env (update_request (<["id" := i]> (field "name" X))) (o, k)
     = (Ok {| ChatSessions.status := 200;
              ChatSessions.payload := ChatSessions.SessionJson (Some s') |},
        (persisted (before ++ s' :: after), S k)))
  ∧ (i ∉ ids (directory o) →
     let run := ChatSessions.fetch env
                  (update_request (<["id" := i]> (field "name" X))) (o, k) in
     fst run = Ok {| ChatSessions.status := 404;
                     ChatSessions.payload := ChatSessions.ErrorJson "Session not found" |}
     ∧ directory (fst (snd run)) = directory o
     ∧ ChatSessions.state (fst (snd run)) = ChatSessions.state o).
Proof.
  intros Hf HX. destruct (name_body_lookups i X) as (Hi & Hn & Hl). split.
  - intros before s after Hd Hs Hb. cbv zeta.
    rewrite (put_found env o k _ before s after Hf Hd).
    + unfold updated. rewrite Hn, Hl. unfold truthy_opt, or_else. by rewrite HX.
    + by rewrite Hi, Hs.
    + rewrite Hi. by apply not_in_ids.
  - intros Hb. cbv zeta. rewrite (put_missing env o k _ Hf).
    + simpl. split; [done|]. split; [apply directory_with_sessions|done].
    + rewrite Hi. by apply not_in_ids.
Qed.

Lemma C9_update_name_witness :
  directory two_sessions = [other_session] ++ sample_session :: []
  ∧ ChatSessions.fetch sample_env (update_request (<["id" := "a"]> (field "name" "X")))
                       (two_sessions, 4)
    = (Ok {| ChatSessions.status := 200;
             ChatSessions.payload :=
               ChatSessions.SessionJson
                 (Some {| id := "a"; name := "X"; lastMessage := Some "see you";
                          createdAt := 5; updatedAt := 4 |}) |},
       (persisted [other_session;
                   {| id := "a"; name := "X"; lastMessage := Some "see you";
                      createdAt := 5; updatedAt := 4 |}], 5)).
Proof.
  split; [reflexivity|].
  refine (proj1 (C9_update_name sample_env two_sessions 4 "a" "X" eq_refl eq_refl)
            [other_session] sample_session [] eq_refl eq_refl _).
  intros Hin. apply elem_of_cons in Hin as [Hin|Hin]; [discriminate Hin|].
  by apply not_elem_of_nil in Hin.
Defined.

(** C10.  On a directory whose storage works and that holds the id [i]:
    - an update with the empty name succeeds and leaves the name as it was,
      while [updatedAt] becomes the clock reading;
    - an update with the empty preview sets [lastMessage] to the empty
      string (and [updatedAt] to the clock reading). *)
Theorem C10_empty_name_and_preview env o k i before s after :
  fault (ChatSessions.state o) = None →
  directory o = before ++ s :: after →
  id s = i →
  i ∉ ids before →
  (let s' := {| id := id s; name := name s; lastMessage := lastMessage s;
                createdAt := createdAt s; updatedAt := clock env k |} in
   ChatSessions.fetch env (update_request (<["id" := i]> (field "name" empty))) (o, k)
   = (Ok {| ChatSessions.status := 200;
            ChatSessions.payload := ChatSessions.SessionJson (Some s') |},
      (persisted (before ++ s' :: after), S k)))
  ∧ (let s' := {| id := id s; name := name s; lastMessage := Some empty;
                  createdAt := createdAt s; updatedAt := clock env k |} in
     ChatSessions.fetch env
       (update_request (<["id" := i]> (field "lastMessage" empty))) (o, k)
     = (Ok {| ChatSessions.status := 200;
              ChatSessions.payload := ChatSessions.SessionJson (Some s') |},
        (persisted (before ++ s' :: after), S k))).
Proof.
  intros Hf Hd Hs Hb. split; cbv zeta.
  - destruct (name_body_lookups i empty) as (Hi & Hn & Hl).
    rewrite (put_found env o k _ before s after Hf Hd).
    + unfold updated. by rewrite Hn, Hl.
    + by rewrite Hi, Hs.
    + rewrite Hi. by apply not_in_ids.
  - destruct (preview_body_lookups i empty) as (Hi & Hn & Hl).
    rewrite (put_found env o k _ before s after Hf Hd).
    + unfold updated. by rewrite Hn, Hl.
    + by rewrite Hi, Hs.
    + rewrite Hi. by apply not_in_ids.
Qed.

Lemma C10_empty_name_and_preview_witness :
  directory two_sessions = [other_session] ++ sample_session :: []
  ∧ fst (ChatSessions.fetch sample_env
           (update_request (<["id" := "a"]> (field "name" empty))) (two_sessions, 4))
    = Ok {| ChatSessions.status := 200;
            ChatSessions.payload :=
              ChatSessions.SessionJson
                (Some {| id := "a"; name := "Trip"; lastMessage := Some "see you";
                         createdAt := 5; updatedAt := 4 |}) |}
  ∧ fst (ChatSessions.fetch sample_env
           (update_request (<["id" := "a"]> (field "lastMessage" empty)))
           (two_sessions, 4))
    = Ok {| ChatSessions.status := 200;
            ChatSessions.payload :=
              ChatSessions.SessionJson
                (Some {| id := "a"; name := "Trip"; lastMessage := Some empty;
                         createdAt := 5; updatedAt := 4 |}) |}.
Proof.
  assert (Hb : "a" ∉ ids [other_session]).
  { intros Hin. apply elem_of_cons in Hin as [Hin|Hin]; [discriminate Hin|].
    by apply not_elem_of_nil in Hin. }
  destruct (C10_empty_name_and_preview sample_env two_sessions 4 "a"
              [other_session] sample_session [] eq_refl eq_refl eq_refl Hb)
    as [H1 H2].
  split; [reflexivity|]. split; [exact (f_equal fst H1)|exact (f_equal fst H2)].
Defined.

(** ** Enrichment leaves the Durable Objects alone and issues no generation
    call *)

Lemma new_events_app w w' evs : trace w' = trace w ++ evs → new_events w w' = evs.
Proof. intros H. unfold new_events. rewrite H. by rewrite drop_app_length. Qed.

Lemma extends_refl w : extends w w.
Proof. repeat split. exists []. by rewrite app_nil_r. Qed.

Lemma extends_trans w1 w2 w3 : extends w1 w2 → extends w2 w3 → extends w1 w3.
Proof.
  intros (H1 & H2 & e1 & H3 & F1) (H4 & H5 & e2 & H6 & F2).
  repeat split; [congruence..|].
  exists (e1 ++ e2). split; [by rewrite H6, H3, app_assoc|by apply Forall_app].
Qed.

Create HintDb quiet.

Section Quiet.

Context {A B : Type}.

Lemma quiet_ret (a : A) : quiet (ret a).
Proof. intros w. apply extends_refl. Qed.
Lemma quiet_throw e : quiet (@throw World A e).
Proof. intros w. apply extends_refl. Qed.
Lemma quiet_lift (o : outcome A) : quiet (lift o).
Proof. intros w. apply extends_refl. Qed.
Lemma quiet_bind (m : M World A) (k : A → M World B) :
  quiet m → (∀ a, quiet (k a)) → quiet (bind m k).
Proof.
  intros Hm Hk w. unfold bind. specialize (Hm w).
  destruct (m w) as [[a|e] w1]; simpl in *; [|done].
  eapply extends_trans; [exact Hm|apply Hk].
Qed.
Lemma quiet_try_catch (m : M World A) h :
  quiet m → (∀ e, quiet (h e)) → quiet (try_catch m h).
Proof.
  intros Hm Hh w. unfold try_catch. specialize (Hm w).
  destruct (m w) as [[a|e] w1]; simpl in *; [done|].
  eapply extends_trans; [exact Hm|apply Hh].
Qed.
Lemma quiet_if (b : bool) (m1 m2 : M World A) :
  quiet m1 → quiet m2 → quiet (if b then m1 else m2).
Proof. by destruct b. Qed.

Lemma safe_ret (a : A) : safe (ret a).
Proof. intros w. by exists a. Qed.
Lemma safe_bind (m : M World A) (k : A → M World B) :
  safe m → (∀ a, safe (k a)) → safe (bind m k).
Proof.
  intros Hm Hk w. unfold bind. destruct (Hm w) as [a Ha].
  destruct (m w) as [[a'|e] w1]; simpl in *; [|done]. apply Hk.
Qed.
Lemma safe_try_catch (m : M World A) h : (∀ e, safe (h e)) → safe (try_catch m h).
Proof.
  intros Hh w. unfold try_catch.
  destruct (m w) as [[a|e] w1]; simpl; [by exists a|apply Hh].
Qed.

End Quiet.

Lemma quiet_emit e : is_lookup e → quiet (emit e).
Proof. intros He w. repeat split. exists [e]. split; [done|by constructor]. Qed.
Lemma quiet_utc_now env : quiet (utc_now env).
Proof. intros w. repeat split. exists []. by rewrite app_nil_r. Qed.

#[local] Hint Resolve quiet_ret quiet_throw quiet_lift quiet_bind quiet_try_catch
  quiet_utc_now quiet_if : quiet.

Lemma quiet_run_vision env i p : quiet (run_vision env i p).
Proof. apply quiet_bind; [by apply quiet_emit|auto with quiet]. Qed.
Lemma quiet_fetch_json {A} (f : string → outcome A) u : quiet (fetch_json f u).
Proof. apply quiet_bind; [by apply quiet_emit|auto with quiet]. Qed.
#[local] Hint Resolve quiet_run_vision quiet_fetch_json : quiet.

Ltac quiet_step :=
  match goal with
  | |- quiet (match ?x with _ => _ end) => destruct x
  | |- quiet (let* _ := _ in _) => apply quiet_bind; [|intros ?]
  | |- quiet (try_catch _ _) => apply quiet_try_catch; [|intros ?]
  | |- quiet _ => solve [auto with quiet]
  end.

Section Enrichment.

Variable env : Env.

Lemma quiet_analyzeImage u q : quiet (analyzeImage env u q).
Proof. unfold analyzeImage. repeat quiet_step. Qed.
Hint Resolve quiet_analyzeImage : quiet.
Lemma quiet_extractTextFromFile f u q : quiet (extractTextFromFile f u env q).
Proof. unfold extractTextFromFile. repeat quiet_step. Qed.
Lemma quiet_getWeather c : quiet (getWeather env c).
Proof. unfold getWeather. repeat quiet_step. Qed.
Lemma quiet_webSearch c : quiet (webSearch env c).
Proof. unfold webSearch. repeat quiet_step. Qed.
Hint Resolve quiet_extractTextFromFile quiet_getWeather quiet_webSearch : quiet.
Lemma quiet_getExternalInfo m p : quiet (getExternalInfo m env p).
Proof. unfold getExternalInfo. repeat quiet_step. Qed.
Hint Resolve quiet_getExternalInfo : quiet.
Lemma quiet_task ty m : quiet m → quiet (task ty m).
Proof. intros. unfold task. repeat quiet_step. Qed.
Lemma quiet_runTasks m i fd fn : quiet (runTasks env m i fd fn).
Proof. unfold runTasks. repeat quiet_step; apply quiet_task; repeat quiet_step. Qed.

Lemma safe_task ty m : safe (task ty m).
Proof. apply safe_try_catch. intros e. apply safe_ret. Qed.
(** No failure of a task makes the gathering of a turn throw. *)
Lemma safe_runTasks m i fd fn : safe (runTasks env m i fd fn).
Proof.
  unfold runTasks.
  apply safe_bind;
    [destruct (truthy_opt i);
       [apply safe_bind; [apply safe_task|intros; apply safe_ret]|apply safe_ret]
    |intros r1].
  apply safe_bind;
    [destruct (_ && _);
       [apply safe_bind; [apply safe_task|intros; apply safe_ret]|apply safe_ret]
    |intros r2].
  apply safe_bind; [apply safe_task|intros; apply safe_ret].
Qed.

(** A failed remote call of a lookup or of the image analysis is caught
    inside the helper, which answers with its fallback text. *)
Lemma getWeather_down city e w :
  URIError env city = None →
  fetch_geocoding env (geocoding_url env city) = Throw e →
  getWeather env city w
  = (Ok "Unable to fetch weather data", issued (EvFetch (geocoding_url env city)) w).
Proof.
  intros Hu H.
  unfold getWeather, try_catch, encode_uri, fetch_json, bind, lift, emit, issued.
  rewrite Hu. fold (geocoding_url env city). simpl. by rewrite H.
Qed.

Lemma webSearch_down q e w :
  URIError env q = None →
  fetch_search env (search_url env q) = Throw e →
  webSearch env q w = (Ok "Unable to search", issued (EvFetch (search_url env q)) w).
Proof.
  intros Hu H.
  unfold webSearch, try_catch, encode_uri, fetch_json, bind, lift, emit, issued.
  rewrite Hu. fold (search_url env q). simpl. by rewrite H.
Qed.

(** A text that cannot be encoded for the URL: no call is issued. *)
Lemma getWeather_unencodable city e w :
  URIError env city = Some e →
  getWeather env city w = (Ok "Unable to fetch weather data", w).
Proof. intros Hu. unfold getWeather, try_catch, encode_uri, bind, lift. by rewrite Hu. Qed.
Lemma webSearch_unencodable q e w :
  URIError env q = Some e → webSearch env q w = (Ok "Unable to search", w).
Proof. intros Hu. unfold webSearch, try_catch, encode_uri, bind, lift. by rewrite Hu. Qed.

Lemma analyzeImage_down url q binary prompt e w :
  atob env (to_string (split "," url !! 1)) = Ok binary →
  prompt = (if truthy_opt q then
              "Analyze this image and answer the following question: "
                +:+ to_string q +:+ ". Provide detailed observations and insights."
            else
              "Describe this image in comprehensive detail. Include: objects, people, text visible in the image, colors, setting, actions, emotions, and any other relevant details. If there's text in the image, transcribe it exactly.") →
  AI_run_vision env (char_codes binary) prompt = Throw e →
  analyzeImage env url q w
  = (Ok ("Image uploaded (analysis unavailable: "
           +:+ message_or e "unknown error" +:+ ")."),
     issued (EvVision (char_codes binary) prompt) w).
Proof.
  intros Ha -> Hv.
  unfold analyzeImage, try_catch, run_vision, bind, lift, emit, issued.
  rewrite Ha. simpl. by rewrite Hv.
Qed.

(** A weather lookup with a failed remote call answers with the same
    fallback text. *)
Lemma getWeather_failed city w :
  weather_call_failed env city →
  fst (getWeather env city w) = Ok "Unable to fetch weather data".
Proof.
  intros Hfail. destruct (URIError env city) as [e0|] eqn:Hu.
  { by rewrite (getWeather_unencodable city e0 w Hu). }
  destruct Hfail as [[e H]|(g & rest & e & Hg & Hf)].
  - by rewrite (getWeather_down city e w Hu H).
  - unfold getWeather, try_catch, encode_uri, fetch_json, bind, lift, emit.
    rewrite Hu. fold (geocoding_url env city). simpl.
    rewrite Hg. simpl. by rewrite Hf.
Qed.

Lemma getWeather_events city w :
  ∃ evs, trace (snd (getWeather env city w)) = trace w ++ evs
         ∧ (evs = []
            ∨ evs = [EvFetch (geocoding_url env city)]
            ∨ ∃ g, evs = [EvFetch (geocoding_url env city); EvFetch (forecast_url g)]).
Proof.
  destruct (URIError env city) as [e0|] eqn:Hu.
  { rewrite (getWeather_unencodable city e0 w Hu). exists [].
    split; [by rewrite app_nil_r|by left]. }
  unfold getWeather, try_catch, encode_uri, fetch_json, bind, lift, emit.
  rewrite Hu. fold (geocoding_url env city). simpl.
  destruct (fetch_geocoding env _) as [[[[|g rest]|]]|e]; simpl;
    try (eexists; split; [reflexivity|right; by left]).
  destruct (fetch_forecast env _) as [[[c|]]|e]; simpl;
    (eexists; split; [by rewrite <- app_assoc|right; right; by exists g]).
Qed.

Lemma webSearch_events q w :
  trace (snd (webSearch env q w))
  = trace w ++ match URIError env q with
               | Some _ => []
               | None => [EvFetch (search_url env q)]
               end.
Proof.
  destruct (URIError env q) as [e0|] eqn:Hu.
  { rewrite (webSearch_unencodable q e0 w Hu). simpl. by rewrite app_nil_r. }
  unfold webSearch, try_catch, encode_uri, fetch_json, bind, lift, emit.
  rewrite Hu. fold (search_url env q). simpl.
  destruct (fetch_search env _) as [[a [[|t l]|]]|e]; simpl; try done;
    destruct (truthy_opt a); try done; by destruct (truthy_opt (Text t)).
Qed.

(** The calls of [getExternalInfo] are those of at most one lookup. *)
Lemma getExternalInfo_events m p w :
  one_lookup env m (new_events w (snd (getExternalInfo m env p w))).
Proof.
  unfold getExternalInfo, one_lookup.
  match goal with
  | |- context [if ?c then cityMatch m else None] =>
      destruct (if c then cityMatch m else None) as [city|]
  end.
  - unfold bind. destruct (getWeather_events (trim city) w) as (evs & Ht & Hevs).
    destruct (getWeather env (trim city) w) as [[r|e] w']; simpl in *;
      rewrite (new_events_app _ _ _ Ht);
      (destruct Hevs as [->|[->|[g ->]]];
       [by left|right; left; by exists (trim city)|]);
      right; right; left; by exists (trim city), g.
  - destruct (_ || _ || _).
    + left. apply new_events_app. simpl. by rewrite app_nil_r.
    + destruct (_ || _ || _).
      * unfold bind.
        pose proof (webSearch_events m w) as Ht.
        destruct (URIError env m) as [e0|];
          [left|right; right; right];
          destruct (webSearch env m w) as [[r|e] w']; simpl in *;
            apply new_events_app; rewrite Ht; by rewrite ?app_nil_r.
      * left. apply new_events_app. simpl. by rewrite app_nil_r.
Qed.

End Enrichment.

#[local] Hint Resolve quiet_analyzeImage quiet_extractTextFromFile quiet_getWeather
  quiet_webSearch quiet_getExternalInfo quiet_task : quiet.

(** ** The tasks of a turn and the bundle *)

Lemma task_result ty m w :
  ∃ d, task ty m w = (Ok {| type := ty; data := d |}, snd (task ty m w))
       ∧ (∀ s w', m w = (Ok s, w') → d = s ∧ snd (task ty m w) = w').
Proof.
  unfold task, try_catch, bind, ret.
  destruct (m w) as [[s|e] w'] eqn:E; simpl.
  - exists s. split; [done|]. by intros ? ? [= -> ->].
  - exists None. split; [done|]. by intros ? ? [=].
Qed.

(** A task that is scheduled on a condition: [if (c) tasks.push(...)]. *)
Lemma optional_task_result (c : bool) ty m w :
  ∃ rs w',
    (if c then let* r := task ty m in ret [r] else ret []) w = (Ok rs, w')
    ∧ Forall (λ r, type r = ty) rs
    ∧ (c = true → ∀ s w1, m w = (Ok s, w1) → rs = [{| type := ty; data := s |}]).
Proof.
  destruct c.
  - destruct (task_result ty m w) as (d & E & Hd).
    exists [{| type := ty; data := d |}], (snd (task ty m w)).
    unfold bind. rewrite E. split; [done|]. split; [by repeat constructor|].
    intros _ s w1 Hm. by destruct (Hd s w1 Hm) as [-> _].
  - exists [], w. split; [done|]. split; [constructor|done].
Qed.

(** The results of a turn: the image task if scheduled, the file task if
    scheduled, the external task. *)
Lemma runTasks_parts env m i fd fn w :
  ∃ r1 r2 r3 w2 w3,
    runTasks env m i fd fn w = (Ok (r1 ++ r2 ++ [r3]), w3)
    ∧ Forall (λ r, type r = image_task) r1
    ∧ Forall (λ r, type r = file_task) r2
    ∧ type r3 = external_task
    ∧ (truthy_opt i = true →
       ∀ s w1, analyzeImage env (to_string i) (Some m) w = (Ok s, w1) →
               r1 = [{| type := image_task; data := Some s |}])
    ∧ task external_task (getExternalInfo m env "user-default") w2 = (Ok r3, w3).
Proof.
  unfold runTasks.
  destruct (optional_task_result (truthy_opt i) image_task
              (let* s := analyzeImage env (to_string i) (Some m) in ret (Some s)) w)
    as (r1 & w1 & E1 & T1 & H1).
  destruct (optional_task_result (truthy_opt fd && truthy_opt fn) file_task
              (let* s := extractTextFromFile (to_string fn) (to_string fd) env (Some m)
               in ret (Some s)) w1)
    as (r2 & w2 & E2 & T2 & _).
  destruct (task_result external_task (getExternalInfo m env "user-default") w2)
    as (d & E3 & _).
  exists r1, r2, {| type := external_task; data := d |}, w2,
    (snd (task external_task (getExternalInfo m env "user-default") w2)).
  split.
  { unfold bind at 1. rewrite E1. unfold bind at 1. rewrite E2.
    unfold bind at 1. by rewrite E3. }
  repeat split; try done.
  intros Hi s w' Ha. apply (H1 Hi (Some s) w'). unfold bind. by rewrite Ha.
Qed.

Lemma mergeResults_snoc rs r : mergeResults (rs ++ [r]) = mergeResult (mergeResults rs) r.
Proof. unfold mergeResults. by rewrite fold_left_app. Qed.

Lemma imageContext_kept rs b :
  Forall (λ r, type r ≠ image_task) rs →
  imageContext (fold_left mergeResult rs b) = imageContext b.
Proof.
  intros H. revert b. induction H as [|r rs Hr _ IH]; intros b; simpl; [done|].
  rewrite IH. unfold mergeResult.
  destruct (truthy_opt (data r)); [|done]. by destruct (type r).
Qed.

(** ** The lookup of a turn *)

Lemma paris_lookup env p : getExternalInfo paris env p = weather_lookup env "Paris".
Proof. reflexivity. Qed.

Lemma weather_today_lookup env p : getExternalInfo "weather today" env p = time_answer env.
Proof. reflexivity. Qed.

Lemma getExternalInfo_weather message env p city :
  weather_intent message → cityMatch message = Some city →
  getExternalInfo message env p = weather_lookup env city.
Proof.
  intros Hw Hc. unfold getExternalInfo.
  apply weather_intent_spec in Hw. by rewrite Hw, Hc.
Qed.

(** C5 (as the code has it).  [getExternalInfo] runs at most one lookup (the
    calls it issues are none, those of one weather lookup, or the one of a
    web search): it is
    - the weather lookup, when the text mentions weather or temperature and
      the city pattern matches (the city is the trimmed capture);
    otherwise, also when weather or temperature is mentioned without a city,
    - the date-and-time answer, when the text mentions time, date or day;
    - else the web search on the text, when it mentions news, latest or
      current;
    - else nothing.
    Mentions are case-insensitive substring occurrences. *)
Theorem C5_lookup_priority message env p0 :
  (∀ w, one_lookup env message (new_events w (snd (getExternalInfo message env p0 w))))
  ∧ (∀ city, weather_intent message → cityMatch message = Some city →
       getExternalInfo message env p0 = weather_lookup env city)
  ∧ (¬ (weather_intent message ∧ is_Some (cityMatch message)) →
     (time_intent message → getExternalInfo message env p0 = time_answer env)
     ∧ (¬ time_intent message → news_intent message →
          getExternalInfo message env p0 = news_lookup env message)
     ∧ (¬ time_intent message → ¬ news_intent message →
          getExternalInfo message env p0 = ret None)).
Proof.
  split; [intros w; apply getExternalInfo_events|].
  split; [intros city; apply getExternalInfo_weather|].
  unfold getExternalInfo. intros Hnw.
  assert ((if includes (toLowerCase message) "weather"
              || includes (toLowerCase message) "temperature"
           then cityMatch message else None) = None) as ->.
  { destruct (_ || _) eqn:E; [|done]. apply weather_intent_spec in E.
    destruct (cityMatch message) eqn:Ec; [|done]. destruct Hnw. eauto. }
  pose proof (time_intent_spec message) as Ht.
  pose proof (news_intent_spec message) as Hn.
  destruct (_ || _ || _) eqn:Et in Ht |- *.
  - split; [done|]. rewrite <- Ht. split; intros []; done.
  - destruct (_ || _ || _) eqn:En in Hn |- *.
    + split; [rewrite <- Ht; done|]. split; [done|]. rewrite <- Hn. intros _ []. done.
    + split; [rewrite <- Ht; done|]. split; [rewrite <- Hn; done|done].
Qed.

Lemma C5_lookup_priority_witness :
  weather_intent paris
  ∧ cityMatch paris = Some "Paris"
  ∧ getExternalInfo paris sample_env "user-default" = weather_lookup sample_env "Paris".
Proof.
  assert (Hw : weather_intent paris) by (apply weather_intent_spec; reflexivity).
  split; [exact Hw|]. split; [reflexivity|].
  exact (proj1 (proj2 (C5_lookup_priority paris sample_env "user-default"))
           "Paris" Hw eq_refl).
Defined.

(** C5, as stated, fails: weather today mentions weather, the first intent of
    the priority order, but without a city no weather lookup is issued; the
    text also mentions day, and the date-and-time answer is what the turn
    gets. *)
Lemma C5_weather_without_city :
  weather_intent "weather today"
  ∧ getExternalInfo "weather today" sample_env "user-default" fresh_world
    = (Ok (Some "Current date and time: Mon, 02 Nov 2026 12:00:00 GMT (UTC)"),
       snd (utc_now sample_env fresh_world))
  ∧ trace (snd (getExternalInfo "weather today" sample_env "user-default" fresh_world))
    = []
  ∧ ∀ city, getExternalInfo "weather today" sample_env "user-default" fresh_world
            ≠ weather_lookup sample_env city fresh_world.
Proof.
  split; [apply weather_intent_spec; reflexivity|].
  split; [reflexivity|]. split; [reflexivity|].
  intros city H. apply (f_equal (λ r, length (trace (snd r)))) in H.
  rewrite weather_today_lookup in H. unfold weather_lookup, bind in H.
  rewrite (getWeather_down sample_env _ (JsError "network")) in H by reflexivity.
  discriminate H.
Qed.

(** C3 (as the code has it).  A failed enrichment sub-task does not fail the
    turn; a helper that throws leaves its field of the bundle empty, but the
    helpers catch the failures of their remote calls and answer with a
    fallback text, which is what the field then holds:
    - the tasks of a turn always resolve;
    - a task whose helper throws resolves with no data, which the merge skips;
    - when the vision call fails, the image field is the text Image uploaded
      (analysis unavailable: ...) with the message of the error;
    - when a remote call of a weather lookup fails, the external field is
      the text Unable to fetch weather data;
    - for the Paris question without attachments the lookup is the weather
      lookup for Paris, and when its call (the name can be encoded for the
      URL) fails it is the only call issued,
      the only result is the external one, and the external field is Unable
      to fetch weather data. *)
Theorem C3_failed_enrichment env :
  (∀ message image fileData fileName w,
     ∃ results, fst (runTasks env message image fileData fileName w) = Ok results)
  ∧ (∀ ty helper e w w' b,
       helper w = (Throw e, w') →
       task ty helper w = (Ok {| type := ty; data := None |}, w')
       ∧ mergeResult b {| type := ty; data := None |} = b)
  ∧ (∀ message image fileData fileName binary e w,
       truthy_opt image = true →
       atob env (to_string (split "," (to_string image) !! 1)) = Ok binary →
       (∀ prompt, AI_run_vision env (char_codes binary) prompt = Throw e) →
       ∃ results,
         fst (runTasks env message image fileData fileName w) = Ok results
         ∧ imageContext (mergeResults results)
           = "Image uploaded (analysis unavailable: "
               +:+ message_or e "unknown error" +:+ ").")
  ∧ (∀ message image fileData fileName city w,
       weather_intent message →
       cityMatch message = Some city →
       weather_call_failed env (trim city) →
       ∃ results,
         fst (runTasks env message image fileData fileName w) = Ok results
         ∧ externalContext (mergeResults results) = "Unable to fetch weather data")
  ∧ getExternalInfo paris env "user-default" = weather_lookup env "Paris"
  ∧ (∀ e w,
       URIError env "Paris" = None →
       fetch_geocoding env (geocoding_url env "Paris") = Throw e →
       runTasks env paris None None None w
       = (Ok [{| type := external_task; data := Some "Unable to fetch weather data" |}],
          issued (EvFetch (geocoding_url env "Paris")) w)
       ∧ externalContext
           (mergeResults
              [{| type := external_task; data := Some "Unable to fetch weather data" |}])
         = "Unable to fetch weather data").
Proof.
  split; [intros; apply safe_runTasks|].
  split.
  { intros ty helper e w w' b H. split; [|done].
    unfold task, try_catch, bind. by rewrite H. }
  split.
  { intros message image fileData fileName binary e w Hi Ha Hv.
    destruct (runTasks_parts env message image fileData fileName w)
      as (r1 & r2 & r3 & w2 & w3 & E & T1 & T2 & T3 & H1 & _).
    exists (r1 ++ r2 ++ [r3]). rewrite E. split; [done|].
    rewrite (H1 Hi _ _ (analyzeImage_down env _ _ binary _ e w Ha eq_refl (Hv _))).
    unfold mergeResults. simpl fold_left.
    rewrite imageContext_kept; [done|].
    apply Forall_app. split.
    - eapply Forall_impl; [exact T2|]. by intros r ->.
    - repeat constructor. by rewrite T3. }
  split.
  { intros message image fileData fileName city w Hw Hc Hg.
    destruct (runTasks_parts env message image fileData fileName w)
      as (r1 & r2 & r3 & w2 & w3 & E & _ & _ & _ & _ & E3).
    exists (r1 ++ r2 ++ [r3]). rewrite E. split; [done|].
    rewrite (getExternalInfo_weather _ _ _ city Hw Hc) in E3.
    unfold weather_lookup, task, try_catch, bind in E3.
    pose proof (getWeather_failed env _ w2 Hg) as Hfail.
    destruct (getWeather env (trim city) w2) as [r w'].
    simpl in Hfail. subst r. injection E3 as <- _.
    by rewrite !app_assoc, mergeResults_snoc. }
  split; [apply paris_lookup|].
  intros e w Hu Hg. split; [|reflexivity].
  unfold runTasks, bind. simpl. unfold ret, task, try_catch, bind.
  rewrite paris_lookup. unfold weather_lookup, bind.
  change (trim "Paris") with "Paris". by rewrite (getWeather_down env _ e w Hu Hg).
Qed.

Lemma C3_failed_enrichment_witness :
  URIError sample_env "Paris" = None
  ∧ fetch_geocoding sample_env (geocoding_url sample_env "Paris")
    = Throw (JsError "network")
  ∧ runTasks sample_env paris None None None fresh_world
    = (Ok [{| type := external_task; data := Some "Unable to fetch weather data" |}],
       issued (EvFetch (geocoding_url sample_env "Paris")) fresh_world).
Proof.
  split; [reflexivity|]. split; [reflexivity|].
  destruct (C3_failed_enrichment sample_env) as (_ & _ & _ & _ & _ & H).
  exact (proj1 (H (JsError "network") fresh_world eq_refl eq_refl)).
Defined.

(** C3, as stated, fails: for the Paris question with the geocoding service
    down, the turn is not failed, but the external field of the bundle is not
    empty: it holds Unable to fetch weather data (which then goes into the
    system message). *)
Lemma C3_fallback_not_empty :
  fetch_geocoding sample_env (geocoding_url sample_env "Paris")
  = Throw (JsError "network")
  ∧ fst (runTasks sample_env paris None None None fresh_world)
    = Ok [{| type := external_task; data := Some "Unable to fetch weather data" |}]
  ∧ externalContext
      (mergeResults
         [{| type := external_task; data := Some "Unable to fetch weather data" |}])
    = "Unable to fetch weather data"
  ∧ externalContext
      (mergeResults
         [{| type := external_task; data := Some "Unable to fetch weather data" |}])
    ≠ empty.
Proof. repeat split; try reflexivity. discriminate. Qed.

(** ** Reading the log *)

(** Either the storage fails and nothing changes, or the answer carries the
    log and the object holds it in memory. *)
Lemma get_messages_cases env o k :
  (∃ e, fault (ChatHistory.state o) = Some e
        ∧ ChatHistory.fetch env get_messages (o, k) = (Throw e, (o, k)))
  ∨ (∃ o' c, ChatHistory.fetch env get_messages (o, k)
             = (Ok {| ChatHistory.status := 200;
                      ChatHistory.payload := ChatHistory.MessagesJson (history_view o) c |},
                (o', k))
           ∧ ChatHistory.state o' = ChatHistory.state o
           ∧ history_view o' = history_view o).
Proof.
  destruct o as [[[e|] [rm rc]] [|x l] uc].
  - left. by exists e.
  - right. do 2 eexists. split; [cbn; reflexivity|]. done.
  - right. destruct rm, rc; do 2 eexists; (split; [cbn; reflexivity|]); split; try done;
      unfold history_view; simpl; by destruct l.
  - right. do 2 eexists. split; [cbn; reflexivity|]. done.
Qed.

Lemma log_unchanged_trans w1 w2 w3 :
  log_unchanged w1 w2 → log_unchanged w2 w3 → log_unchanged w1 w3.
Proof. intros H1 H2 n. destruct (H1 n), (H2 n). split; congruence. Qed.
Lemma extends_log_unchanged w w' : extends w w' → log_unchanged w w'.
Proof. intros (H & _) n. unfold history_object. by rewrite H. Qed.

Lemma history_object_insert w s k t n o m :
  history_object {| CHAT_HISTORY := <[n := o]> (CHAT_HISTORY w); CHAT_SESSIONS := s;
                    readings := k; trace := t |} m
  = if decide (n = m) then o else history_object w m.
Proof.
  unfold history_object. simpl.
  destruct (decide (n = m)) as [->|Hne].
  - by rewrite lookup_insert_eq.
  - by rewrite lookup_insert_ne.
Qed.

Lemma history_get_cases env sid w :
  (∃ e w', fault (ChatHistory.state (history_object w sid)) = Some e
           ∧ history_stub_fetch env sid get_messages w = (Throw e, w')
           ∧ trace w' = trace w ∧ log_unchanged w w')
  ∨ (∃ c w', history_stub_fetch env sid get_messages w
             = (Ok {| ChatHistory.status := 200;
                      ChatHistory.payload :=
                        ChatHistory.MessagesJson (history_view (history_object w sid)) c |},
                w')
           ∧ trace w' = trace w ∧ readings w' = readings w ∧ log_unchanged w w').
Proof.
  unfold history_stub_fetch.
  destruct (get_messages_cases env (history_object w sid) (readings w))
    as [(e & Hf & ->)|(o' & c & -> & Hst & Hv)].
  - left. do 2 eexists. split; [exact Hf|]. split; [reflexivity|]. split; [done|].
    intros n. rewrite history_object_insert.
    by destruct (decide (sid = n)) as [->|Hne].
  - right. do 2 eexists. split; [reflexivity|]. split; [done|]. split; [done|].
    intros n. rewrite history_object_insert.
    destruct (decide (sid = n)) as [->|Hne]; [|done].
    unfold stored_messages. by rewrite Hv, Hst.
Qed.

Lemma history_stub_trace env n r w : trace (snd (history_stub_fetch env n r w)) = trace w.
Proof.
  unfold history_stub_fetch.
  by destruct (ChatHistory.fetch env r (history_object w n, readings w)) as [a [o k]].
Qed.
Lemma sessions_stub_trace env n r w : trace (snd (sessions_stub_fetch env n r w)) = trace w.
Proof.
  unfold sessions_stub_fetch.
  by destruct (ChatSessions.fetch env r (sessions_object w n, readings w)) as [a [o k]].
Qed.

(** The two appends that commit a turn issue no call. *)
Lemma commit_trace env sid u a w :
  trace (snd ((history_stub_fetch env sid (post_message "user" u) ;;;
               history_stub_fetch env sid (post_message "assistant" a) ;;;
               ret a) w)) = trace w.
Proof.
  unfold bind.
  pose proof (history_stub_trace env sid (post_message "user" u) w) as H1.
  destruct (history_stub_fetch env sid (post_message "user" u) w) as [[r1|e1] w1];
    simpl in *; [|done].
  pose proof (history_stub_trace env sid (post_message "assistant" a) w1) as H2.
  destruct (history_stub_fetch env sid (post_message "assistant" a) w1) as [[r2|e2] w2];
    simpl in *; congruence.
Qed.

Lemma no_text_in_lookups evs msgs : Forall is_lookup evs → EvText msgs ∉ evs.
Proof. intros H Hin. by apply (proj1 (Forall_forall _ _) H) in Hin. Qed.

Lemma length_generationRequest s h u :
  length (generationRequest s h u) = Nat.min (length h) 10 + 2.
Proof.
  unfold generationRequest. simpl. rewrite length_app, length_fmap, length_slice_last.
  simpl. lia.
Qed.

(** ** coordinateChat and handleChat, step by step *)

Lemma coordinateChat_cases env message sid image fd fn w :
  ∃ results w1,
    runTasks env message image fd fn w = (Ok results, w1) ∧ extends w w1 ∧
    ((∃ e w2, fault (ChatHistory.state (history_object w sid)) = Some e
              ∧ coordinateChat env message sid image fd fn w = (Throw e, w2)
              ∧ trace w2 = trace w1 ∧ log_unchanged w w2)
     ∨ (∃ w2 w3 req,
          trace w2 = trace w1 ∧ log_unchanged w w2 ∧
          req = generationRequest
                  (systemPrompt (toUTCString env (clock env (readings w1)))
                                (mergeResults results))
                  (history_view (history_object w sid))
                  (userMessage message (mergeResults results)) ∧
          w3 = {| CHAT_HISTORY := CHAT_HISTORY w2; CHAT_SESSIONS := CHAT_SESSIONS w2;
                  readings := S (readings w2); trace := trace w2 ++ [EvText req] |} ∧
          coordinateChat env message sid image fd fn w =
          match usable (AI_run_text env req) with
          | Some aiResponse =>
              (history_stub_fetch env sid
                 (post_message "user" (userMessage message (mergeResults results))) ;;;
               history_stub_fetch env sid (post_message "assistant" aiResponse) ;;;
               ret aiResponse) w3
          | None => (Throw (generation_error (AI_run_text env req)), w3)
          end)).
Proof.
  destruct (safe_runTasks env message image fd fn w) as [results Hr].
  pose proof (quiet_runTasks env message image fd fn w) as Hq.
  destruct (runTasks env message image fd fn w) as [r w1] eqn:E. simpl in *. subst r.
  exists results, w1. split; [done|]. split; [done|].
  assert (Ho : history_object w1 sid = history_object w sid).
  { unfold history_object. by rewrite (proj1 Hq). }
  destruct (history_get_cases env sid w1)
    as [(e & w2 & Hf & Hg & Ht & Hl)|(c & w2 & Hg & Ht & Hk & Hl)].
  - left. exists e, w2. split; [by rewrite <- Ho|]. split; [|split; [done|]].
    + unfold coordinateChat, bind at 1. rewrite E. unfold bind at 1. by rewrite Hg.
    + eapply log_unchanged_trans; [by apply extends_log_unchanged|done].
  - right. rewrite Ho in Hg.
    eexists w2, _, _. split; [done|]. split.
    { eapply log_unchanged_trans; [by apply extends_log_unchanged|done]. }
    split; [reflexivity|]. split; [reflexivity|].
    unfold coordinateChat, bind at 1. rewrite E. unfold bind at 1. rewrite Hg.
    cbn -[history_view history_object generationRequest systemPrompt userMessage
          mergeResults history_stub_fetch].
    rewrite Hk.
    destruct (AI_run_text env _) as [[|[s|]]|e];
      cbn -[history_view history_object generationRequest systemPrompt userMessage
          mergeResults history_stub_fetch]; try reflexivity.
    destruct (truthy s); reflexivity.
Qed.

(** The generation call of a turn: when one was issued, it carried the request
    assembled from the gathered bundle and the log; and when its answer is
    not usable the procedure throws without touching the log. *)
Lemma coordinateChat_generation env message sid image fd fn w msgs :
  EvText msgs ∈ new_events w (snd (coordinateChat env message sid image fd fn w)) →
  ∃ results w1 w3,
    runTasks env message image fd fn w = (Ok results, w1)
    ∧ msgs = generationRequest
               (systemPrompt (toUTCString env (clock env (readings w1)))
                             (mergeResults results))
               (history_view (history_object w sid))
               (userMessage message (mergeResults results))
    ∧ (usable (AI_run_text env msgs) = None →
       coordinateChat env message sid image fd fn w
       = (Throw (generation_error (AI_run_text env msgs)), w3)
       ∧ log_unchanged w w3).
Proof.
  intros Hin.
  destruct (coordinateChat_cases env message sid image fd fn w)
    as (results & w1 & Hr & (Hh & Hs & evs & Ht & Hl) & Hc).
  destruct Hc as [(e & w2 & _ & Hc & Ht2 & Hlog)
                 |(w2 & w3 & req & Ht2 & Hlog & Hreq & Hw3 & Hc)].
  - rewrite Hc in Hin. simpl in Hin.
    rewrite (new_events_app w w2 evs) in Hin by congruence.
    by apply no_text_in_lookups in Hin.
  - assert (Htr : trace (snd (coordinateChat env message sid image fd fn w))
                  = trace w ++ (evs ++ [EvText req])).
    { rewrite Hc. destruct (usable _); [rewrite commit_trace|simpl];
        subst w3; simpl; by rewrite Ht2, Ht, app_assoc. }
    rewrite (new_events_app _ _ _ Htr) in Hin.
    apply elem_of_app in Hin as [Hin|Hin]; [by apply no_text_in_lookups in Hin|].
    apply list_elem_of_singleton in Hin. injection Hin as ->.
    exists results, w1, w3. split; [done|]. split; [done|].
    intros Hu. rewrite Hc, Hu. split; [done|].
    intros n. destruct (Hlog n) as [H1 H2]. subst w3. split; done.
Qed.

Lemma handleChat_invalid env body w :
  valid body = false →
  handleChat (Ok body) env w
  = (Ok {| status := 500; payload := ChatError "Message, image, or file is required" |}, w).
Proof.
  unfold valid. intros H. apply orb_false_elim in H as [H H3].
  apply orb_false_elim in H as [H1 H2].
  unfold handleChat, try_catch, bind, lift. by rewrite H1, H2, H3.
Qed.

Lemma handleChat_valid env body w :
  valid body = true →
  handleChat (Ok body) env w =
  match turn env body w with
  | (Ok aiResponse, w1) =>
      match sessions_stub_fetch env "user-default" (preview_update body) w1 with
      | (Ok _, w2) =>
          (Ok {| status := 200; payload := ChatReply aiResponse (sessionId body) |}, w2)
      | (Throw e, w2) =>
          (Ok {| status := 500; payload := ChatError (message_or e "Unknown error") |}, w2)
      end
  | (Throw e, w1) =>
      (Ok {| status := 500; payload := ChatError (message_or e "Unknown error") |}, w1)
  end.
Proof.
  unfold valid. intros H.
  unfold handleChat, try_catch, bind at 1, lift.
  replace (negb (truthy_opt (message body)) && negb (truthy_opt (image body))
           && negb (truthy_opt (fileData body))) with false
    by (destruct (truthy_opt (message body)), (truthy_opt (image body)),
          (truthy_opt (fileData body)); done).
  unfold bind, turn, preview_update.
  destruct (coordinateChat _ _ _ _ _ _ w) as [[a|e] w1]; [|done].
  by destruct (sessions_stub_fetch _ _ _ w1) as [[r|e] w2].
Qed.

Lemma handleChat_trace env body w :
  trace (snd (handleChat (Ok body) env w))
  = if valid body then trace (snd (turn env body w)) else trace w.
Proof.
  destruct (valid body) eqn:Hv.
  - rewrite handleChat_valid by done.
    destruct (turn env body w) as [[a|e] w1]; [|done]. simpl.
    pose proof (sessions_stub_trace env "user-default" (preview_update body) w1) as H.
    by destruct (sessions_stub_fetch _ _ _ w1) as [[r|e] w2].
  - by rewrite handleChat_invalid.
Qed.

(** ** The turn *)

(** C6.  The message list of the generation call of a turn is the system
    message (built from the clock and the bundle of the gathered results),
    then the last [min (length history) 10] messages of the log in their
    order, each with the role and the content it was logged with (and without
    its time), then the user turn built from the message and the bundle; it has
    [min (length history) 10 + 2] entries, at most 12.  In particular,
    for the message hi without attachments on a log of three messages, the
    turn issues exactly one call, the generation call, with five messages:
    the system message, the three logged messages in order, and the user
    message hi. *)
Theorem C6_generation_request env sid :
  (∀ message image fileData fileName w msgs,
     EvText msgs
       ∈ new_events w (snd (coordinateChat env message sid image fileData fileName w)) →
     ∃ results w1,
       runTasks env message image fileData fileName w = (Ok results, w1)
       ∧ msgs = [system_msg (systemPrompt (toUTCString env (clock env (readings w1)))
                                          (mergeResults results))]
                ++ ((λ m, {| msg_role := role m; msg_content := content m |})
                      <$> slice_last 10 (history_view (history_object w sid)))
                ++ [user_msg (userMessage message (mergeResults results))]
       ∧ length msgs = Nat.min (length (history_view (history_object w sid))) 10 + 2
       ∧ length msgs ≤ 12)
  ∧ (∀ w h1 h2 h3,
       fault (ChatHistory.state (history_object w sid)) = None →
       history_view (history_object w sid) = [h1; h2; h3] →
       new_events w (snd (coordinateChat env "hi" sid None None None w))
       = [EvText [system_msg (systemPrompt (toUTCString env (clock env (readings w)))
                                           no_bundle);
                  {| msg_role := role h1; msg_content := content h1 |};
                  {| msg_role := role h2; msg_content := content h2 |};
                  {| msg_role := role h3; msg_content := content h3 |};
                  user_msg "hi"]]).
Proof.
  split.
  - intros message image fileData fileName w msgs Hin.
    destruct (coordinateChat_generation env _ _ _ _ _ w msgs Hin)
      as (results & w1 & w3 & Hr & -> & _).
    exists results, w1. split; [exact Hr|]. split; [reflexivity|].
    rewrite length_generationRequest. split; [done|lia].
  - intros w h1 h2 h3 Hf Hh.
    destruct (coordinateChat_cases env "hi" sid None None None w)
      as (results & w1 & Hr & _ & Hc).
    assert (Hrun : runTasks env "hi" None None None w
                   = (Ok [{| type := external_task; data := None |}], w))
      by reflexivity.
    rewrite Hrun in Hr. injection Hr as <- <-.
    destruct Hc as [(e & w2 & He & _)|(w2 & w3 & req & Ht2 & _ & Hreq & Hw3 & Hc)];
      [congruence|].
    apply new_events_app. rewrite Hc.
    destruct (usable _); [rewrite commit_trace|simpl]; subst w3; simpl;
      by rewrite Ht2, Hreq, Hh.
Qed.

Lemma C6_generation_request_witness :
  fault (ChatHistory.state (history_object chatted_world "s1")) = None
  ∧ history_view (history_object chatted_world "s1")
    = [logged_a; logged_b; logged_c]
  ∧ new_events chatted_world
      (snd (coordinateChat sample_env "hi" "s1" None None None chatted_world))
    = [EvText [system_msg (systemPrompt "Mon, 02 Nov 2026 12:00:00 GMT" no_bundle);
               {| msg_role := Some "user"; msg_content := Some "a" |};
               {| msg_role := Some "assistant"; msg_content := Some "b" |};
               {| msg_role := Some "user"; msg_content := Some "c" |};
               user_msg "hi"]]
  ∧ (∀ msgs,
       EvText msgs
         ∈ new_events chatted_world
             (snd (coordinateChat sample_env "hi" "s1" None None None chatted_world)) →
       length msgs = 5).
Proof.
  destruct (C6_generation_request sample_env "s1") as [Hall Hthree].
  split; [reflexivity|]. split; [reflexivity|].
  split; [exact (Hthree chatted_world logged_a logged_b logged_c eq_refl eq_refl)|].
  intros msgs Hin.
  destruct (Hall _ _ _ _ _ _ Hin) as (results & w1 & _ & _ & Hlen & _).
  exact Hlen.
Defined.

(** C2.  When the generation call of a turn fails or yields no usable text
    (no object, no [response], or the empty text), the turn answers with
    status 500 and the error of the generation (the message of what the call
    threw, or Invalid response from AI), and no log has changed: every
    session reads and stores the messages it did before. *)
Theorem C2_generation_failure env body w msgs :
  EvText msgs ∈ new_events w (snd (handleChat (Ok body) env w)) →
  usable (AI_run_text env msgs) = None →
  fst (handleChat (Ok body) env w)
  = Ok {| status := 500;
          payload := ChatError (message_or (generation_error (AI_run_text env msgs))
                                           "Unknown error") |}
  ∧ log_unchanged w (snd (handleChat (Ok body) env w)).
Proof.
  intros Hin Hu. unfold new_events in Hin. rewrite handleChat_trace in Hin.
  destruct (valid body) eqn:Hv.
  - destruct (coordinateChat_generation env _ _ _ _ _ w msgs Hin)
      as (results & w1 & w3 & _ & _ & Hc).
    destruct (Hc Hu) as [Hc' Hlog].
    rewrite handleChat_valid by done. unfold turn. by rewrite Hc'.
  - rewrite drop_all in Hin. by apply not_elem_of_nil in Hin.
Qed.

Lemma C2_generation_failure_witness :
  EvText hello_request
    ∈ new_events fresh_world (snd (handleChat (Ok hello) failing_env fresh_world))
  ∧ usable (AI_run_text failing_env hello_request) = None
  ∧ fst (handleChat (Ok hello) failing_env fresh_world)
    = Ok {| status := 500; payload := ChatError "model overloaded" |}.
Proof.
  assert (H : EvText hello_request
                ∈ new_events fresh_world
                    (snd (handleChat (Ok hello) failing_env fresh_world)))
    by (vm_compute; constructor).
  split; [exact H|]. split; [reflexivity|].
  exact (proj1 (C2_generation_failure failing_env hello fresh_world hello_request
                  H eq_refl)).
Defined.

(** C7.  When message, image and file are all absent or empty, [handleChat]
    answers with status 500 and the error Message, image, or file is required,
    and the world is the one it started from: no call was issued, no clock
    was read and no Durable Object was addressed. *)
Theorem C7_validation env body w :
  truthy_opt (message body) = false →
  truthy_opt (image body) = false →
  truthy_opt (fileData body) = false →
  handleChat (Ok body) env w
  = (Ok {| status := 500; payload := ChatError "Message, image, or file is required" |},
     w).
Proof.
  intros H1 H2 H3. apply handleChat_invalid. unfold valid. by rewrite H1, H2, H3.
Qed.

Lemma C7_validation_witness :
  handleChat (Ok no_input) sample_env fresh_world
  = (Ok {| status := 500; payload := ChatError "Message, image, or file is required" |},
     fresh_world).
Proof.
  exact (C7_validation sample_env no_input fresh_world eq_refl eq_refl eq_refl).
Defined.

(** C4 (as the code has it).  After a turn whose generation and appends
    succeeded:
    - when the preview update answers, whatever the answer, the turn answers
      with status 200 and the reply;
    - in particular when the directory does not hold the session id (and its
      storage works), the update answers 404 and the turn still answers with
      the reply;
    - when the preview update throws, the turn answers with status 500 and
      the message of the error instead of the reply. *)
Theorem C4_preview_update env body w reply w1 :
  valid body = true →
  turn env body w = (Ok reply, w1) →
  (∀ r w2,
     sessions_stub_fetch env "user-default" (preview_update body) w1 = (Ok r, w2) →
     handleChat (Ok body) env w
     = (Ok {| status := 200; payload := ChatReply reply (sessionId body) |}, w2))
  ∧ (fault (ChatSessions.state (sessions_object w1 "user-default")) = None →
     sessionId body ∉ ids (directory (sessions_object w1 "user-default")) →
     fst (sessions_stub_fetch env "user-default" (preview_update body) w1)
     = Ok {| ChatSessions.status := 404;
             ChatSessions.payload := ChatSessions.ErrorJson "Session not found" |}
     ∧ fst (handleChat (Ok body) env w)
       = Ok {| status := 200; payload := ChatReply reply (sessionId body) |})
  ∧ (∀ e w2,
       sessions_stub_fetch env "user-default" (preview_update body) w1 = (Throw e, w2) →
       handleChat (Ok body) env w
       = (Ok {| status := 500; payload := ChatError (message_or e "Unknown error") |},
          w2)).
Proof.
  intros Hv Ht. split; [|split].
  - intros r w2 Hs. rewrite handleChat_valid by done. by rewrite Ht, Hs.
  - intros Hf Hn.
    assert (Hm := put_missing env (sessions_object w1 "user-default") (readings w1)
                    (<["id" := sessionId body]>
                       (<["lastMessage" := or_else (message body) "Sent an attachment"]>
                          ∅)) Hf).
    rewrite lookup_insert_eq in Hm. specialize (Hm (not_in_ids _ _ Hn)).
    change (update_request _) with (preview_update body) in Hm.
    split; [unfold sessions_stub_fetch; by rewrite Hm|].
    rewrite handleChat_valid by done. rewrite Ht.
    unfold sessions_stub_fetch. by rewrite Hm.
  - intros e w2 Hs. rewrite handleChat_valid by done. by rewrite Ht, Hs.
Qed.

Lemma C4_preview_update_witness :
  valid hello = true
  ∧ turn sample_env hello fresh_world
    = (Ok "Hi there", snd (turn sample_env hello fresh_world))
  ∧ fst (sessions_stub_fetch sample_env "user-default" (preview_update hello)
           (snd (turn sample_env hello fresh_world)))
    = Ok {| ChatSessions.status := 404;
            ChatSessions.payload := ChatSessions.ErrorJson "Session not found" |}
  ∧ fst (handleChat (Ok hello) sample_env fresh_world)
    = Ok {| status := 200; payload := ChatReply "Hi there" "s1" |}.
Proof.
  assert (Ht : turn sample_env hello fresh_world
               = (Ok "Hi there", snd (turn sample_env hello fresh_world)))
    by (vm_compute; reflexivity).
  split; [reflexivity|]. split; [exact Ht|].
  destruct (C4_preview_update sample_env hello fresh_world "Hi there" _ eq_refl Ht)
    as (_ & H & _).
  apply H; [reflexivity|].
  intros Hin. vm_compute in Hin. by apply not_elem_of_nil in Hin.
Defined.

(** C4, as stated, fails: with the storage of the directory out of order, the
    generation succeeds and both messages are appended to the log, the
    preview update throws, and the caller gets status 500 with the storage
    error instead of the reply. *)
Lemma C4_reply_lost :
  fst (turn sample_env hello directory_down) = Ok "Hi there"
  ∧ ChatHistory.messages
      (history_object (snd (turn sample_env hello directory_down)) "s1")
    = [ {| role := Some "user"; content := Some "Hello"; timestamp := 1 |};
        {| role := Some "assistant"; content := Some "Hi there"; timestamp := 2 |} ]
  ∧ fst (sessions_stub_fetch sample_env "user-default" (preview_update hello)
           (snd (turn sample_env hello directory_down)))
    = Throw (JsError "storage unavailable")
  ∧ fst (handleChat (Ok hello) sample_env directory_down)
    = Ok {| status := 500; payload := ChatError "storage unavailable" |}
  ∧ fst (handleChat (Ok hello) sample_env directory_down)
    ≠ Ok {| status := 200; payload := ChatReply "Hi there" "s1" |}.
Proof.
  assert (H : fst (handleChat (Ok hello) sample_env directory_down)
              = Ok {| status := 500; payload := ChatError "storage unavailable" |})
    by (vm_compute; reflexivity).
  repeat split; try (vm_compute; reflexivity).
  rewrite H. discriminate.
Qed.

(** * Further properties *)

(** ** Strings and patterns

    What the models of [split], [join], [trim], [substring] and of the two
    patterns of the code do, as far as the properties below need it. *)

Lemma split_nonempty sep s : split sep s ≠ [].
Proof.
  destruct s as [|c s]; simpl; [done|].
  destruct (Ascii.eqb c sep); [done|]. by destruct (split sep s).
Qed.

Lemma join_cons sep x y l : join sep (x :: y :: l) = x +:+ sep +:+ join sep (y :: l).
Proof. reflexivity. Qed.

Lemma split_join sep s : join (String sep EmptyString) (split sep s) = s.
Proof.
  induction s as [|c s IH]; [done|]. simpl split.
  destruct (Ascii.eqb c sep) eqn:E.
  - apply Ascii.eqb_eq in E as ->.
    pose proof (split_nonempty sep s) as Hne.
    destruct (split sep s) as [|y l]; [done|].
    rewrite join_cons, IH. reflexivity.
  - pose proof (split_nonempty sep s) as Hne.
    destruct (split sep s) as [|y l]; [done|].
    destruct l as [|z l].
    + simpl in *. by rewrite IH.
    + rewrite join_cons in *. rewrite append_cons. by rewrite IH.
Qed.

(** No part of a split contains the separator, and joining the parts with
    the separator gives the text back. *)
Lemma split_parts sep s :
  Forall (λ p, all_chars (λ c, negb (is_sep sep c)) p = true) (split sep s).
Proof.
  induction s as [|c s IH]; simpl; [by repeat constructor|].
  unfold is_sep in *.
  destruct (Ascii.eqb c sep) eqn:E; [by constructor|].
  destruct (split sep s) as [|y l]; [repeat constructor; simpl; by rewrite E|].
  inversion IH; subst. constructor; [simpl; by rewrite E|done].
Qed.

Lemma split_no_sep sep e :
  all_chars (λ c, negb (is_sep sep c)) e = true → split sep e = [e].
Proof.
  induction e as [|c e IH]; simpl; [done|]. unfold is_sep in *.
  intros H. apply andb_true_iff in H as [Hc He].
  apply negb_true_iff in Hc. rewrite Hc, (IH He). done.
Qed.

(** Splitting distributes over a separator: the extension of a file name
    is what follows its last dot. *)
Lemma split_app_sep sep a b :
  split sep (a +:+ String sep b) = split sep a ++ split sep b.
Proof.
  induction a as [|c a IH].
  - change (EmptyString +:+ String sep b) with (String sep b). simpl.
    by rewrite Ascii.eqb_refl.
  - rewrite append_cons. simpl. rewrite IH.
    pose proof (split_nonempty sep a) as Hne.
    destruct (Ascii.eqb c sep); [done|].
    by destruct (split sep a) as [|y l].
Qed.

Lemma last_split_ext sep b e :
  all_chars (λ c, negb (is_sep sep c)) e = true →
  last (split sep (b +:+ String sep e)) = Some e.
Proof.
  intros He. rewrite split_app_sep, (split_no_sep _ _ He).
  by rewrite last_snoc.
Qed.

Lemma all_chars_app p a b : all_chars p (a +:+ b) = all_chars p a && all_chars p b.
Proof.
  induction a as [|c a IH]; [done|]. rewrite append_cons. simpl.
  by rewrite IH, andb_assoc.
Qed.

(** [trim] removes white space at both ends and nothing else. *)
Lemma trimStart_spec s :
  ∃ ws, s = ws +:+ trimStart s ∧ all_chars is_space ws = true
        ∧ starts_with is_space (trimStart s) = false.
Proof.
  induction s as [|c s (ws & E & Hws & Hs)]; simpl.
  - by exists EmptyString.
  - destruct (is_space c) eqn:Ec.
    + exists (String c ws). rewrite append_cons, <- E. simpl. by rewrite Ec.
    + exists EmptyString. by simpl.
Qed.

Lemma trimEnd_spec s :
  ∃ ws, s = trimEnd s +:+ ws ∧ all_chars is_space ws = true
        ∧ ends_with is_space (trimEnd s) = false.
Proof.
  induction s as [|c s (ws & E & Hws & Hs)]; simpl.
  - by exists EmptyString.
  - destruct (trimEnd s) as [|d r] eqn:Et.
    + destruct (is_space c) eqn:Ec.
      * exists (String c ws). change (EmptyString +:+ ws) with ws in E.
        subst ws. simpl. rewrite Ec. by repeat split.
      * exists ws. rewrite append_cons, <- E. simpl. by rewrite Ec.
    + exists ws. rewrite append_cons, <- E. done.
Qed.

Lemma trimStart_id s : starts_with is_space s = false → trimStart s = s.
Proof. destruct s as [|c s]; simpl; [done|]. by intros ->. Qed.

Lemma trimEnd_id s : ends_with is_space s = false → trimEnd s = s.
Proof.
  induction s as [|c s IH]; [done|]. intros H.
  destruct s as [|d r].
  - simpl in *. by rewrite H.
  - change (ends_with is_space (String d r) = false) in H.
    simpl trimEnd in *. rewrite (IH H). done.
Qed.

Lemma trimEnd_starts s :
  starts_with is_space s = false → starts_with is_space (trimEnd s) = false.
Proof.
  destruct s as [|c s]; [done|]. simpl. intros Hc.
  destruct (trimEnd s); [by rewrite Hc|done].
Qed.

Lemma trim_spec s :
  ∃ l r, s = l +:+ trim s +:+ r
         ∧ all_chars is_space l = true ∧ all_chars is_space r = true
         ∧ starts_with is_space (trim s) = false
         ∧ ends_with is_space (trim s) = false.
Proof.
  unfold trim.
  destruct (trimStart_spec s) as (l & El & Hl & Hs).
  destruct (trimEnd_spec (trimStart s)) as (r & Er & Hr & He).
  exists l, r. split; [by rewrite <- Er|].
  repeat split; try done. by apply trimEnd_starts.
Qed.

Lemma trim_idempotent s : trim (trim s) = trim s.
Proof.
  destruct (trim_spec s) as (l & r & _ & _ & _ & Hs & He).
  unfold trim at 1. by rewrite (trimStart_id _ Hs), (trimEnd_id _ He).
Qed.

(** Concatenation and [substring(0, n)]. *)
Lemma append_nil_r (s : string) : s +:+ EmptyString = s.
Proof. induction s as [|c s IH]; [done|]. by rewrite append_cons, IH. Qed.
Lemma append_assoc (a b c : string) : (a +:+ b) +:+ c = a +:+ (b +:+ c).
Proof. induction a as [|x a IH]; [done|]. by rewrite !append_cons, IH. Qed.
Lemma length_append (a b : string) :
  String.length (a +:+ b) = String.length a + String.length b.
Proof. induction a as [|x a IH]; [done|]. rewrite append_cons. simpl. by rewrite IH. Qed.
Lemma length_substring0 n s : String.length (String.substring 0 n s) ≤ n.
Proof.
  revert s. induction n as [|n IH]; intros [|c s]; simpl; try lia.
  specialize (IH s). lia.
Qed.
Lemma substring0_short n s : String.length s ≤ n → String.substring 0 n s = s.
Proof.
  revert s. induction n as [|n IH]; intros [|c s]; simpl; try done; try lia.
  intros H. rewrite IH; [done|lia].
Qed.

(** The city pattern: what each stage of the matcher accepts. *)
Lemma city_group_spec taken s g :
  city_group taken s = Some g →
  ∃ more post, g = taken +:+ more ∧ all_chars city_char more = true
               ∧ s = more +:+ post
               ∧ (post = EmptyString ∨ starts_with city_end post = true).
Proof.
  revert taken. induction s as [|c s IH]; intros taken H; simpl in H.
  - injection H as <-. exists EmptyString, EmptyString.
    split; [by rewrite append_nil_r|]. auto.
  - destruct (city_end c) eqn:Ee.
    + injection H as <-. exists EmptyString, (String c s).
      split; [by rewrite append_nil_r|]. simpl. auto.
    + destruct (city_char c) eqn:Ec; [|done].
      destruct (IH _ H) as (more & post & -> & Hm & -> & Hp).
      exists (String c more), post. split; [by rewrite append_assoc|].
      simpl. rewrite Ec. auto.
Qed.

Lemma city_group1_spec s g :
  city_group1 s = Some g →
  g ≠ EmptyString ∧ all_chars city_char g = true
  ∧ ∃ post, s = g +:+ post ∧ (post = EmptyString ∨ starts_with city_end post = true).
Proof.
  destruct s as [|c s]; simpl; [done|].
  destruct (city_char c) eqn:Ec; [|done]. intros H.
  destruct (city_group_spec _ _ _ H) as (more & post & -> & Hm & -> & Hp).
  split; [done|]. split; [simpl; by rewrite Ec|]. by exists post.
Qed.

Lemma city_spaces_spec s g :
  city_spaces s = Some g →
  g ≠ EmptyString ∧ all_chars city_char g = true
  ∧ ∃ pre post, s = pre +:+ g +:+ post ∧ all_chars is_space pre = true
                ∧ pre ≠ EmptyString
                ∧ (post = EmptyString ∨ starts_with city_end post = true).
Proof.
  revert g. induction s as [|c s IH]; intros g; simpl; [done|].
  destruct (is_space c) eqn:Ec; [|done].
  destruct (city_spaces s) as [g'|] eqn:Es.
  - intros [= <-]. destruct (IH _ eq_refl) as (Hg & Ha & pre & post & -> & Hp & _ & Ht).
    split; [done|]. split; [done|].
    exists (String c pre), post. simpl. rewrite Ec. auto.
  - intros H. destruct (city_group1_spec _ _ H) as (Hg & Ha & post & -> & Ht).
    split; [done|]. split; [done|].
    exists (String c EmptyString), post. simpl. rewrite Ec. auto.
Qed.

Lemma ends_with_snoc p pre c :
  ends_with p (pre +:+ String c EmptyString) = p c.
Proof.
  induction pre as [|d pre IH]; [done|]. rewrite append_cons.
  change (ends_with p (String d (pre +:+ String c EmptyString)))
    with (match pre +:+ String c EmptyString with
          | EmptyString => p d
          | _ => ends_with p (pre +:+ String c EmptyString)
          end).
  destruct pre; simpl in *; done.
Qed.

Lemma ends_with_all p s : s ≠ EmptyString → all_chars p s = true → ends_with p s = true.
Proof.
  induction s as [|c s IH]; [done|]. intros _ H. simpl in H.
  apply andb_true_iff in H as [Hc Hs].
  destruct s as [|d s]; [done|]. by apply IH.
Qed.

Lemma ends_with_app p a b : b ≠ EmptyString → ends_with p (a +:+ b) = ends_with p b.
Proof.
  intros Hb. induction a as [|c a IH]; [done|]. rewrite append_cons.
  destruct (a +:+ b) eqn:E; [|exact IH].
  destruct a; [|done]. by destruct b.
Qed.

Lemma city_at_spec s g :
  city_at s = Some g →
  g ≠ EmptyString ∧ all_chars city_char g = true
  ∧ ∃ pre post, s = pre +:+ g +:+ post ∧ ends_with is_space pre = true
                ∧ (post = EmptyString ∨ starts_with city_end post = true).
Proof.
  destruct s as [|a [|b r]]; simpl; try done.
  destruct (_ && _); [|done]. intros H.
  destruct (city_spaces_spec _ _ H) as (Hg & Ha & pre & post & -> & Hp & Hne & Ht).
  split; [done|]. split; [done|].
  exists (String a (String b pre)), post. split; [done|]. split; [|done].
  change (String a (String b pre)) with ((String a (String b EmptyString)) +:+ pre).
  rewrite ends_with_app by done. by apply ends_with_all.
Qed.

Lemma cityMatch_spec message city :
  cityMatch message = Some city →
  city ≠ EmptyString
  ∧ all_chars city_char city = true
  ∧ ∃ pre post, message = pre +:+ city +:+ post
                ∧ ends_with is_space pre = true
                ∧ (post = EmptyString ∨ starts_with city_end post = true).
Proof.
  induction message as [|c s IH].
  - simpl. done.
  - intros H. cbn [cityMatch] in H.
    destruct (city_at (String c s)) as [g|] eqn:E.
    + injection H as <-. by apply city_at_spec.
    + destruct (IH H) as (Hg & Ha & pre & post & -> & Hp & Ht).
      split; [done|]. split; [done|].
      exists (String c pre), post. split; [done|]. split; [|done].
      change (String c pre) with (String c EmptyString +:+ pre).
      rewrite ends_with_app; [done|]. by destruct pre.
Qed.

(** X18.  When the city pattern matches a message, the captured city is non-
    empty, consists of ASCII letters and white space only, stands in the
    message right after white space and right before a question mark, a full
    stop or the end of the message; the city passed to the weather lookup
    (trimmed) consists of letters and white space and has no white space at
    either end. *)
Theorem X18_cityMatch_capture message city :
  cityMatch message = Some city →
  city ≠ EmptyString
  ∧ all_chars city_char city = true
  ∧ (∃ pre post, message = pre +:+ city +:+ post
                 ∧ ends_with is_space pre = true
                 ∧ (post = EmptyString ∨ starts_with city_end post = true))
  ∧ all_chars city_char (trim city) = true
  ∧ starts_with is_space (trim city) = false
  ∧ ends_with is_space (trim city) = false.
Proof.
  intros H. destruct (cityMatch_spec message city H) as (Hne & Hall & Hpos).
  destruct (trim_spec city) as (l & r & E & _ & _ & Hs & He).
  repeat split; try done.
  rewrite E, !all_chars_app in Hall.
  apply andb_prop in Hall as [_ Hall]. by apply andb_prop in Hall as [Hall _].
Qed.

Lemma X18_cityMatch_capture_witness :
  cityMatch ("weather in Paris" +:+ nbsp +:+ "?") = Some ("Paris" +:+ nbsp)
  ∧ all_chars city_char ("Paris" +:+ nbsp) = true
  ∧ all_chars city_char (trim ("Paris" +:+ nbsp)) = true
  ∧ starts_with is_space (trim ("Paris" +:+ nbsp)) = false
  ∧ ends_with is_space (trim ("Paris" +:+ nbsp)) = false.
Proof.
  split; [reflexivity|].
  destruct (X18_cityMatch_capture ("weather in Paris" +:+ nbsp +:+ "?")
              ("Paris" +:+ nbsp) eq_refl) as (_ & H2 & _ & H4 & H5 & H6).
  split; [exact H2|]. split; [exact H4|]. split; [exact H5|exact H6].
Defined.

(** The runs of a global character-class pattern are non-empty and made of
    characters of the class; a text of class characters is one run. *)
Lemma all_chars_of_list p l :
  Forall (λ c, p c = true) l → all_chars p (string_of_list_ascii l) = true.
Proof. induction 1 as [|c l Hc _ IH]; simpl; [done|by rewrite Hc, IH]. Qed.

Lemma run_of_chars cls d cur :
  Forall (λ c, cls c = true) (d :: cur) →
  string_of_list_ascii (rev (d :: cur)) ≠ EmptyString
  ∧ all_chars cls (string_of_list_ascii (rev (d :: cur))) = true.
Proof.
  intros H. split.
  - intros E. apply (f_equal list_ascii_of_string) in E.
    rewrite list_ascii_of_string_of_list_ascii in E. simpl in E.
    by destruct (rev cur).
  - by apply all_chars_of_list, List.Forall_rev.
Qed.

Lemma match_runs_runs cls cur s :
  Forall (λ c, cls c = true) cur →
  Forall (λ r, r ≠ EmptyString ∧ all_chars cls r = true) (match_runs cls cur s).
Proof.
  revert cur. induction s as [|c s IH]; intros cur Hcur; simpl.
  - destruct cur as [|d cur]; [constructor|].
    constructor; [by apply run_of_chars|constructor].
  - destruct (cls c) eqn:Ec.
    + apply IH. by constructor.
    + apply Forall_app. split; [|apply IH; constructor].
      destruct cur as [|d cur]; [constructor|].
      constructor; [by apply run_of_chars|constructor].
Qed.

Lemma match_runs_whole cls cur s :
  all_chars cls s = true →
  match_runs cls cur s
  = match rev cur ++ list_ascii_of_string s with
    | [] => []
    | l => [string_of_list_ascii l]
    end.
Proof.
  revert cur. induction s as [|c s IH]; intros cur H; simpl in *.
  - rewrite app_nil_r. destruct cur as [|d cur]; [done|].
    destruct (rev (d :: cur)) eqn:E; [|done].
    simpl in E. by destruct (rev cur).
  - apply andb_true_iff in H as [Hc Hs]. rewrite Hc, (IH _ Hs). simpl.
    by rewrite <- app_assoc.
Qed.

(** ** The directory: creation, removal, restart, rejected requests *)

(** The three requests on a directory whose storage works. *)
Lemma get_sessions_ok env o k :
  fault (ChatSessions.state o) = None →
  ChatSessions.fetch env get_sessions (o, k)
  = (Ok {| ChatSessions.status := 200;
           ChatSessions.payload := ChatSessions.SessionsJson (directory o) |},
     (with_sessions o (directory o), k)).
Proof.
  intros Hf. unfold ChatSessions.fetch. unfold bind at 1.
  by rewrite hydrate_ok by done.
Qed.

Lemma create_ok env o k body :
  fault (ChatSessions.state o) = None →
  ChatSessions.fetch env (create_request body) (o, k)
  = (Ok {| ChatSessions.status := 200;
           ChatSessions.payload :=
             ChatSessions.SessionJson (Some (new_session env body k)) |},
     (persisted (new_session env body k :: directory o),
      if truthy_opt (body !! "id") then S (S k) else S (S (S k)))).
Proof.
  intros Hf. unfold ChatSessions.fetch. unfold bind at 1.
  rewrite hydrate_ok by done.
  destruct o as [[f r] l]. simpl in Hf. subst f.
  unfold create_request, with_sessions, new_session. cbn -[directory].
  destruct (truthy_opt (body !! "id")); run_object; reflexivity.
Qed.

Lemma delete_ok env o k body :
  fault (ChatSessions.state o) = None →
  ChatSessions.fetch env (delete_request body) (o, k)
  = (Ok {| ChatSessions.status := 200; ChatSessions.payload := ChatSessions.SuccessJson |},
     (persisted (without body (directory o)), k)).
Proof.
  intros Hf. unfold ChatSessions.fetch. unfold bind at 1.
  rewrite hydrate_ok by done.
  destruct o as [[f r] l]. simpl in Hf. subst f.
  unfold delete_request, with_sessions, without. cbn -[directory filter].
  run_object. reflexivity.
Qed.

Lemma filter_all {A} (P : A → Prop) `{∀ x, Decision (P x)} l :
  Forall P l → filter P l = l.
Proof.
  induction 1 as [|x l Hx _ IH]; [done|].
  by rewrite filter_cons_True, IH.
Qed.

Lemma directory_persisted l : directory (persisted l) = l.
Proof. by destruct l. Qed.

(** X1.  On a directory whose storage works, a creation followed by a listing
    answers with the new summary and then with the list that has the new
    summary in front of the summaries the directory held, in their order. The
    new summary has the id of the body (or the generated id session-<random>),
    the name of the body or New Chat, an empty preview and two consecutive
    clock readings as creation and update times. *)
Theorem X1_create_then_list env o k body :
  fault (ChatSessions.state o) = None →
  fst (serve (ChatSessions.fetch env) [create_request body; get_sessions] (o, k))
  = [ (Ok {| ChatSessions.status := 200;
             ChatSessions.payload :=
               ChatSessions.SessionJson (Some (new_session env body k)) |});
      (Ok {| ChatSessions.status := 200;
             ChatSessions.payload :=
               ChatSessions.SessionsJson (new_session env body k :: directory o) |}) ].
Proof.
  intros Hf. simpl. rewrite create_ok by done.
  rewrite get_sessions_ok by done. by rewrite directory_persisted.
Qed.

Lemma X1_create_then_list_witness :
  fault (ChatSessions.state two_sessions) = None
  ∧ fst (serve (ChatSessions.fetch sample_env)
           [create_request (field "name" "Notes"); get_sessions] (two_sessions, 0))
    = [ (Ok {| ChatSessions.status := 200;
               ChatSessions.payload :=
                 ChatSessions.SessionJson
                   (Some (new_session sample_env (field "name" "Notes") 0)) |});
        (Ok {| ChatSessions.status := 200;
               ChatSessions.payload :=
                 ChatSessions.SessionsJson
                   [new_session sample_env (field "name" "Notes") 0;
                    other_session; sample_session] |}) ].
Proof.
  split; [reflexivity|].
  exact (X1_create_then_list sample_env two_sessions 0 (field "name" "Notes") eq_refl).
Defined.

(** X2.  On a directory whose storage works, DELETE /sessions with an id
    answers success and leaves exactly the summaries with another id, in their
    order: no summary with the id remains (also when several had it), and a
    directory that did not hold the id reads as before. *)
Theorem X2_remove_summary env o k i :
  fault (ChatSessions.state o) = None →
  let run := ChatSessions.fetch env (delete_request (field "id" i)) (o, k) in
  fst run = Ok {| ChatSessions.status := 200;
                  ChatSessions.payload := ChatSessions.SuccessJson |}
  ∧ directory (fst (snd run)) = filter (λ s, id s ≠ i) (directory o)
  ∧ (i ∉ ids (directory (fst (snd run))))
  ∧ (i ∉ ids (directory o) → directory (fst (snd run)) = directory o).
Proof.
  intros Hf. cbv zeta. rewrite delete_ok by done. simpl.
  rewrite directory_persisted. unfold without, field. rewrite lookup_insert_eq.
  assert (E : filter (λ s, Some (id s) ≠ Some i) (directory o)
              = filter (λ s, id s ≠ i) (directory o)).
  { apply list_filter_iff. intros s. split; intros H; congruence. }
  rewrite E. split; [done|]. split; [done|]. split.
  - unfold ids. intros Hin. apply list_elem_of_fmap in Hin as (s & Hs & Hin).
    apply list_elem_of_filter in Hin as [Hne _]. congruence.
  - intros Hn. apply filter_all. apply Forall_forall. intros s Hs Heq.
    apply Hn. unfold ids. rewrite <- Heq. by apply list_elem_of_fmap_2.
Qed.

Lemma X2_remove_summary_witness :
  fault (ChatSessions.state two_sessions) = None
  ∧ directory (fst (snd (ChatSessions.fetch sample_env (delete_request (field "id" "b"))
                           (two_sessions, 0))))
    = filter (λ s, id s ≠ "b") (directory two_sessions).
Proof.
  split; [reflexivity|].
  exact (proj1 (proj2 (X2_remove_summary sample_env two_sessions 0 "b" eq_refl))).
Defined.

(** A directory in step with its storage stays so, and reads the same after
    it is constructed again. *)
Lemma directory_restart o :
  directory_in_step o → directory (restart_directory o) = directory o.
Proof.
  intros [_ [H|H]]; unfold directory, restart_directory; simpl.
  - by rewrite H.
  - rewrite H. by destruct (ChatSessions.sessions o).
Qed.

Lemma fetch_in_step env r o k :
  directory_in_step o →
  directory_in_step (fst (snd (ChatSessions.fetch env r (o, k)))).
Proof.
  intros [Hf Hs]. unfold ChatSessions.fetch. unfold bind at 1.
  rewrite hydrate_ok by done.
  assert (H1 : directory_in_step (with_sessions o (directory o))).
  { split; [done|]. unfold directory, with_sessions. simpl.
    destruct Hs as [->|Hs].
    - destruct (records (ChatSessions.state o)); simpl; auto.
    - right. rewrite Hs. by destruct (ChatSessions.sessions o). }
  revert H1. generalize (with_sessions o (directory o)). clear o Hf Hs.
  intros [[f rec] l] [Hf Hs]. simpl in Hf. subst f.
  destruct (ChatSessions.route r "GET") eqn:EG; [by split|].
  destruct (ChatSessions.route r "POST") eqn:EP.
  { destruct (json r) as [body|e]; [|by split]. cbn.
    destruct (truthy_opt (body !! "id")); run_object; cbn; split; auto. }
  destruct (ChatSessions.route r "PUT") eqn:EU.
  { destruct (json r) as [body|e]; [|by split].
    unfold lift, bind at 1. unfold this, bind at 1. cbn -[ChatSessions.findIndex alter].
    destruct (ChatSessions.findIndex _ l) as [n|]; [|by split].
    destruct (truthy_opt (body !! "name"));
      destruct (body !! "lastMessage") as [v|];
      run_object; cbn -[alter]; split; auto. }
  destruct (ChatSessions.route r "DELETE") eqn:ED.
  { destruct (json r) as [body|e]; [|by split].
    cbn -[filter]. split; auto. }
  by split.
Qed.

Lemma serve_in_step env reqs o k :
  directory_in_step o →
  directory_in_step (fst (snd (serve (ChatSessions.fetch env) reqs (o, k)))).
Proof.
  revert o k. induction reqs as [|r reqs IH]; intros o k H; [done|]. simpl.
  pose proof (fetch_in_step env r o k H) as Hstep.
  destruct (ChatSessions.fetch env r (o, k)) as [a [o' k']]. simpl in *.
  specialize (IH o' k' Hstep).
  by destruct (serve (ChatSessions.fetch env) reqs (o', k')).
Qed.

(** X3.  After any sequence of requests served by a directory whose storage
    works and agreed with its memory at the start, an instance constructed
    again on the same storage (the platform dropped the object from memory)
    lists the same summaries as the instance that served the requests. *)
Theorem X3_directory_survives_restart env reqs o k :
  directory_in_step o →
  let o' := fst (snd (serve (ChatSessions.fetch env) reqs (o, k))) in
  ∀ k', fst (ChatSessions.fetch env get_sessions (restart_directory o', k'))
        = fst (ChatSessions.fetch env get_sessions (o', k'))
        ∧ fst (ChatSessions.fetch env get_sessions (o', k'))
          = Ok {| ChatSessions.status := 200;
                  ChatSessions.payload := ChatSessions.SessionsJson (directory o') |}.
Proof.
  intros H o' k'. pose proof (serve_in_step env reqs o k H) as H'.
  fold o' in H'. destruct H' as [Hf Hs].
  rewrite !get_sessions_ok by done. simpl.
  by rewrite directory_restart.
Qed.

Lemma X3_directory_survives_restart_witness :
  directory_in_step fresh_directory
  ∧ fst (ChatSessions.fetch sample_env get_sessions
           (restart_directory
              (fst (snd (serve (ChatSessions.fetch sample_env) busy_day
                           (fresh_directory, 0)))), 9))
    = fst (ChatSessions.fetch sample_env get_sessions
             (fst (snd (serve (ChatSessions.fetch sample_env) busy_day
                          (fresh_directory, 0))), 9)).
Proof.
  assert (H : directory_in_step fresh_directory).
  { split; [reflexivity|]. left. reflexivity. }
  split; [exact H|].
  exact (proj1 (X3_directory_survives_restart sample_env busy_day fresh_directory 0 H 9)).
Defined.

(** X4.  On a directory whose storage works, a POST, PUT or DELETE on
    /sessions whose body is not JSON throws the parse error and a request for
    any other path or method answers 404 Not Found; in both cases the
    summaries and the storage are unchanged. *)
Theorem X4_directory_rejects env r o k :
  fault (ChatSessions.state o) = None →
  (∀ e, json r = Throw e →
        ChatSessions.route r "GET" = false →
        (ChatSessions.route r "POST" || ChatSessions.route r "PUT"
           || ChatSessions.route r "DELETE" = true) →
        fst (ChatSessions.fetch env r (o, k)) = Throw e
        ∧ directory (fst (snd (ChatSessions.fetch env r (o, k)))) = directory o
        ∧ ChatSessions.state (fst (snd (ChatSessions.fetch env r (o, k))))
          = ChatSessions.state o)
  ∧ (ChatSessions.route r "GET" || ChatSessions.route r "POST"
       || ChatSessions.route r "PUT" || ChatSessions.route r "DELETE" = false →
     fst (ChatSessions.fetch env r (o, k))
     = Ok {| ChatSessions.status := 404; ChatSessions.payload := ChatSessions.NotFoundText |}
     ∧ directory (fst (snd (ChatSessions.fetch env r (o, k)))) = directory o
     ∧ ChatSessions.state (fst (snd (ChatSessions.fetch env r (o, k))))
       = ChatSessions.state o).
Proof.
  intros Hf. split.
  - intros e He HG H.
    assert (E : ChatSessions.fetch env r (o, k)
                = (Throw e, (with_sessions o (directory o), k))).
    { unfold ChatSessions.fetch. unfold bind at 1. rewrite hydrate_ok by done.
      rewrite HG.
      destruct (ChatSessions.route r "POST"); [by rewrite He|].
      destruct (ChatSessions.route r "PUT"); [by rewrite He|].
      destruct (ChatSessions.route r "DELETE"); [by rewrite He|done]. }
    rewrite E. simpl. by rewrite directory_with_sessions.
  - intros H. apply orb_false_elim in H as [H HD].
    apply orb_false_elim in H as [H HU]. apply orb_false_elim in H as [HG HP].
    assert (E : ChatSessions.fetch env r (o, k)
                = (Ok {| ChatSessions.status := 404;
                         ChatSessions.payload := ChatSessions.NotFoundText |},
                   (with_sessions o (directory o), k))).
    { unfold ChatSessions.fetch. unfold bind at 1. rewrite hydrate_ok by done.
      by rewrite HG, HP, HU, HD. }
    rewrite E. simpl. by rewrite directory_with_sessions.
Qed.

Lemma X4_directory_rejects_witness :
  fault (ChatSessions.state two_sessions) = None
  ∧ fst (ChatSessions.fetch sample_env bad_create (two_sessions, 0))
    = Throw (JsError "Unexpected end of JSON input")
  ∧ directory (fst (snd (ChatSessions.fetch sample_env bad_create (two_sessions, 0))))
    = directory two_sessions
  ∧ ChatSessions.state (fst (snd (ChatSessions.fetch sample_env bad_create
                                    (two_sessions, 0))))
    = ChatSessions.state two_sessions.
Proof.
  split; [reflexivity|].
  exact (proj1 (X4_directory_rejects sample_env bad_create two_sessions 0 eq_refl)
           (JsError "Unexpected end of JSON input") eq_refl eq_refl eq_refl).
Defined.

(** ** The log: appends from any state, clearing, context, restart *)

Ltac run_log :=
  unfold ChatHistory.set_messages, ChatHistory.set_userContext,
    ChatHistory.storage_put_messages, ChatHistory.storage_delete_messages,
    ChatHistory.storage_put_userContext, ChatHistory.storage_update,
    ChatHistory.storage_get, bind, this, set_this, ret, lift, Date_now, throw.

(** Loading a log whose storage works. *)
Lemma log_hydrate_ok o k :
  fault (ChatHistory.state o) = None →
  ChatHistory.hydrate (o, k) = (Ok tt, (hydrated o, k)).
Proof.
  destruct o as [[f [rm rc]] [|x l] uc]; simpl; intros ->; [|done].
  unfold ChatHistory.hydrate, hydrated, stored_messages. cbn.
  destruct rm, rc; reflexivity.
Qed.

Lemma hydrated_view o : ChatHistory.messages (hydrated o) = history_view o.
Proof. by destruct o as [st [|x l] uc]. Qed.
Lemma hydrated_state o : ChatHistory.state (hydrated o) = ChatHistory.state o.
Proof. by destruct o as [st [|x l] uc]. Qed.

(** An append on any log whose storage works. *)
Lemma append_any env o k body :
  fault (ChatHistory.state o) = None →
  ∃ o', ChatHistory.fetch env (append_request body) (o, k) = (success, (o', S k))
        ∧ synced o' (slice_last 50 (history_view o ++ [stamped env k body]))
        ∧ ChatHistory.userContext o' = context_view o.
Proof.
  intros Hf. unfold ChatHistory.fetch. unfold bind at 1.
  rewrite log_hydrate_ok by done. unfold context_view.
  rewrite <- hydrated_view. pose proof (hydrated_state o) as Hst.
  destruct (hydrated o) as [[f rec] ms uc]. simpl in Hst. rewrite <- Hst in Hf.
  simpl in Hf. subst f. unfold append_request, success.
  cbn -[slice_last Nat.ltb].
  destruct (50 <? _) eqn:E; run_log; cbn -[slice_last Nat.ltb];
    eexists; (split; [reflexivity|]); unfold synced, stored_messages;
    cbn -[slice_last].
  - auto.
  - apply Nat.ltb_ge in E. rewrite (slice_last_short 50 (ms ++ _)) by exact E. auto.
Qed.

(** The reads and the clearing of a log whose storage works. *)
Lemma get_messages_ok env o k :
  fault (ChatHistory.state o) = None →
  ChatHistory.fetch env get_messages (o, k)
  = (Ok {| ChatHistory.status := 200;
           ChatHistory.payload :=
             ChatHistory.MessagesJson (history_view o) (context_view o) |},
     (hydrated o, k)).
Proof.
  intros Hf. unfold ChatHistory.fetch. unfold bind at 1.
  rewrite log_hydrate_ok by done. unfold context_view. by rewrite <- hydrated_view.
Qed.

Lemma get_context_ok env o k :
  fault (ChatHistory.state o) = None →
  ChatHistory.fetch env get_context (o, k)
  = (Ok {| ChatHistory.status := 200;
           ChatHistory.payload := ChatHistory.ContextJson (context_view o) |},
     (hydrated o, k)).
Proof.
  intros Hf. unfold ChatHistory.fetch. unfold bind at 1.
  by rewrite log_hydrate_ok by done.
Qed.

Lemma delete_messages_ok env o k :
  fault (ChatHistory.state o) = None →
  ChatHistory.fetch env delete_messages (o, k)
  = (success,
     ({| ChatHistory.state :=
           {| fault := None;
              records :=
                {| ChatHistory.rec_messages := None;
                   ChatHistory.rec_userContext :=
                     ChatHistory.rec_userContext (records (ChatHistory.state o)) |} |};
         ChatHistory.messages := [];
         ChatHistory.userContext := context_view o |}, k)).
Proof.
  intros Hf. unfold ChatHistory.fetch. unfold bind at 1. rewrite log_hydrate_ok by done.
  unfold context_view. pose proof (hydrated_state o) as Hst.
  destruct (hydrated o) as [[f rec] ms uc]. simpl in Hst. rewrite <- Hst in *.
  simpl in Hf. subst f. reflexivity.
Qed.

(** X6.  On a log whose storage works, DELETE /messages answers success,
    empties the list in memory and removes the stored list, keeps the context
    in memory and in storage, and a following read answers with the empty
    list. *)
Theorem X6_clear_log env o k :
  fault (ChatHistory.state o) = None →
  let run := ChatHistory.fetch env delete_messages (o, k) in
  fst run = success
  ∧ history_view (fst (snd run)) = []
  ∧ stored_messages (fst (snd run)) = None
  ∧ ChatHistory.userContext (fst (snd run)) = context_view o
  ∧ ChatHistory.rec_userContext (records (ChatHistory.state (fst (snd run))))
    = ChatHistory.rec_userContext (records (ChatHistory.state o))
  ∧ ∃ c, fst (ChatHistory.fetch env get_messages (snd run))
         = Ok {| ChatHistory.status := 200;
                 ChatHistory.payload := ChatHistory.MessagesJson [] c |}.
Proof.
  intros Hf. cbv zeta. rewrite delete_messages_ok by done. simpl.
  repeat split; try done.
  eexists. rewrite get_messages_ok by done. reflexivity.
Qed.

Lemma X6_clear_log_witness :
  fault (ChatHistory.state stored_log) = None
  ∧ history_view (fst (snd (ChatHistory.fetch sample_env delete_messages (stored_log, 0))))
    = []
  ∧ stored_messages
      (fst (snd (ChatHistory.fetch sample_env delete_messages (stored_log, 0))))
    = None.
Proof.
  split; [reflexivity|].
  destruct (X6_clear_log sample_env stored_log 0 eq_refl) as (_ & H1 & H2 & _).
  split; [exact H1|exact H2].
Defined.

(** X5.  On a log whose storage works, in any state of its memory, an append
    followed by a read answers success and then the last 50 of the messages
    the log read as before followed by the new message (stamped with the clock
    reading of the append), together with the context the log read as before. *)
Theorem X5_append_then_read env o k body :
  fault (ChatHistory.state o) = None →
  fst (serve (ChatHistory.fetch env) [append_request body; get_messages] (o, k))
  = [ success;
      (Ok {| ChatHistory.status := 200;
             ChatHistory.payload :=
               ChatHistory.MessagesJson
                 (slice_last 50 (history_view o ++ [stamped env k body]))
                 (context_view o) |}) ].
Proof.
  intros Hf.
  destruct (append_any env o k body Hf) as (o' & E & (Hf' & Hm & Hs) & Hc).
  assert (Hne : ChatHistory.messages o' ≠ []).
  { rewrite Hm. intros El. apply (f_equal length) in El.
    rewrite length_slice_last, length_app in El. simpl in El. lia. }
  assert (Hh : hydrated o' = o').
  { unfold hydrated. by destruct (ChatHistory.messages o'). }
  assert (Hv : history_view o' = slice_last 50 (history_view o ++ [stamped env k body])).
  { unfold history_view at 1. rewrite <- Hm. by destruct (ChatHistory.messages o'). }
  unfold serve. rewrite E, get_messages_ok by done.
  unfold context_view at 1. by rewrite Hh, Hc, Hv.
Qed.

Lemma X5_append_then_read_witness :
  fault (ChatHistory.state stored_log) = None
  ∧ fst (serve (ChatHistory.fetch sample_env)
           [append_request (say "assistant" "b"); get_messages] (stored_log, 9))
    = [ success;
        (Ok {| ChatHistory.status := 200;
               ChatHistory.payload :=
                 ChatHistory.MessagesJson
                   (slice_last 50
                      (history_view stored_log
                         ++ [stamped sample_env 9 (say "assistant" "b")]))
                   (context_view stored_log) |}) ].
Proof.
  split; [reflexivity|].
  exact (X5_append_then_read sample_env stored_log 9 (say "assistant" "b") eq_refl).
Defined.

(** A log in step with its storage stays so, and loads the same after it
    is constructed again. *)
Lemma hydrated_in_step o : log_in_step o → log_in_step (hydrated o).
Proof.
  destruct o as [[f [rm rc]] [|x l] uc]; [|done].
  unfold log_in_step, hydrated, stored_messages. simpl.
  intros (-> & _ & Hc). split; [done|]. split.
  - destruct rm; simpl; auto.
  - destruct rc; simpl; [auto|]. destruct Hc as [Hc|[_ Hc]]; [done|]. auto.
Qed.

Lemma log_fetch_in_step env r o k :
  log_in_step o → log_in_step (fst (snd (ChatHistory.fetch env r (o, k)))).
Proof.
  intros H. unfold ChatHistory.fetch. unfold bind at 1.
  rewrite log_hydrate_ok by apply H.
  apply hydrated_in_step in H. revert H. generalize (hydrated o). clear o.
  intros [[f [rm rc]] ms uc] (Hf & Hm & Hc). simpl in Hf. subst f.
  unfold stored_messages in Hm. simpl in Hm, Hc.
  destruct (String.eqb (pathname r) "/messages").
  - destruct (String.eqb (method r) "GET"); [by repeat split|].
    destruct (String.eqb (method r) "POST").
    { destruct (json r) as [body|e]; [|by repeat split].
      cbn -[slice_last Nat.ltb].
      destruct (50 <? _); run_log; cbn -[slice_last]; repeat split; auto. }
    destruct (String.eqb (method r) "DELETE"); [|by repeat split].
    cbn. repeat split; auto.
  - destruct (String.eqb (pathname r) "/context"); [|by repeat split].
    destruct (String.eqb (method r) "POST").
    { destruct (json r) as [body|e]; [|by repeat split].
      cbn. repeat split; auto. }
    destruct (String.eqb (method r) "GET"); by repeat split.
Qed.

Lemma log_serve_in_step env reqs o k :
  log_in_step o →
  log_in_step (fst (snd (serve (ChatHistory.fetch env) reqs (o, k)))).
Proof.
  revert o k. induction reqs as [|r reqs IH]; intros o k H; [done|]. simpl.
  pose proof (log_fetch_in_step env r o k H) as Hstep.
  destruct (ChatHistory.fetch env r (o, k)) as [a [o' k']]. simpl in *.
  specialize (IH o' k' Hstep).
  by destruct (serve (ChatHistory.fetch env) reqs (o', k')).
Qed.

Lemma hydrated_restart o : log_in_step o → hydrated (restart_log o) = hydrated o.
Proof.
  destruct o as [[f [rm rc]] ms uc].
  unfold log_in_step, hydrated, restart_log, stored_messages. simpl.
  intros (-> & Hm & Hc).
  destruct ms as [|x l].
  - destruct rc; simpl; [done|]. destruct Hc as [Hc|[_ ->]]; done.
  - destruct Hm as [Hm|Hm]; [done|]. subst rm. simpl.
    destruct Hc as [->|[-> ->]]; done.
Qed.

(** X8.  After any sequence of requests served by a log whose storage works
    and agreed with its memory at the start, an instance constructed again on
    the same storage answers a read of the messages and a read of the context
    as the instance that served the requests does: with the messages and the
    context it holds. *)
Theorem X8_log_survives_restart env reqs o k :
  log_in_step o →
  let o' := fst (snd (serve (ChatHistory.fetch env) reqs (o, k))) in
  ∀ k', fst (ChatHistory.fetch env get_messages (restart_log o', k'))
        = Ok {| ChatHistory.status := 200;
                ChatHistory.payload :=
                  ChatHistory.MessagesJson (history_view o') (context_view o') |}
        ∧ fst (ChatHistory.fetch env get_messages (o', k'))
          = Ok {| ChatHistory.status := 200;
                  ChatHistory.payload :=
                    ChatHistory.MessagesJson (history_view o') (context_view o') |}
        ∧ fst (ChatHistory.fetch env get_context (restart_log o', k'))
          = fst (ChatHistory.fetch env get_context (o', k')).
Proof.
  intros H o' k'. pose proof (log_serve_in_step env reqs o k H) as H'.
  fold o' in H'. pose proof (hydrated_restart o' H') as Hr.
  destruct H' as (Hf & _).
  rewrite !get_messages_ok, !get_context_ok by done. simpl.
  unfold context_view. rewrite <- !hydrated_view, Hr. done.
Qed.

Lemma X8_log_survives_restart_witness :
  log_in_step fresh_history
  ∧ fst (ChatHistory.fetch sample_env get_context
           (restart_log
              (fst (snd (serve (ChatHistory.fetch sample_env) mixed_day
                           (fresh_history, 0)))), 9))
    = fst (ChatHistory.fetch sample_env get_context
             (fst (snd (serve (ChatHistory.fetch sample_env) mixed_day
                          (fresh_history, 0))), 9)).
Proof.
  assert (H : log_in_step fresh_history).
  { split; [reflexivity|]. split; [left; reflexivity|]. right. split; reflexivity. }
  split; [exact H|].
  exact (proj2 (proj2 (X8_log_survives_restart sample_env mixed_day fresh_history 0 H 9))).
Defined.

(** X7.  On a log whose storage works, POST /context merges the body into the
    context field by field: lastActivity becomes the clock reading, every
    other field of the body overrides the context, every other field of the
    context is kept; the merged context is stored, and the messages are
    unchanged as read and as stored. *)
Theorem X7_merge_context env o k body :
  fault (ChatHistory.state o) = None →
  let run := ChatHistory.fetch env (merge_request body) (o, k) in
  let o' := fst (snd run) in
  fst run = success
  ∧ (∀ f, ChatHistory.userContext o' !! f
          = if decide (f = "lastActivity") then Some (JNum (clock env k))
            else match body !! f with
                 | Some v => Some (JStr v)
                 | None => context_view o !! f
                 end)
  ∧ ChatHistory.rec_userContext (records (ChatHistory.state o'))
    = Some (ChatHistory.userContext o')
  ∧ history_view o' = history_view o
  ∧ stored_messages o' = stored_messages o.
Proof.
  intros Hf. cbv zeta.
  assert (E : ∃ o', ChatHistory.fetch env (merge_request body) (o, k) = (success, (o', S k))
              ∧ ChatHistory.userContext o'
                = <["lastActivity" := JNum (clock env k)]> ((JStr <$> body) ∪ context_view o)
              ∧ ChatHistory.rec_userContext (records (ChatHistory.state o'))
                = Some (ChatHistory.userContext o')
              ∧ ChatHistory.messages o' = history_view o
              ∧ stored_messages o' = stored_messages o).
  { unfold ChatHistory.fetch. unfold bind at 1. rewrite log_hydrate_ok by done.
    unfold context_view. rewrite <- hydrated_view.
    unfold stored_messages. rewrite <- (hydrated_state o).
    pose proof (hydrated_state o) as Hst.
    destruct (hydrated o) as [[f rec] ms uc]. simpl in Hst. rewrite <- Hst in Hf.
    simpl in Hf. subst f. eexists. split; [reflexivity|]. done. }
  destruct E as (o' & -> & Hu & Hr & Hm & Hs). simpl.
  split; [done|]. split.
  - intros f. rewrite Hu. destruct (decide (f = "lastActivity")) as [->|Hne].
    + by rewrite lookup_insert_eq.
    + rewrite lookup_insert_ne by done. rewrite lookup_union, lookup_fmap.
      destruct (body !! f); simpl; [by destruct (context_view o !! f)|].
      by destruct (context_view o !! f).
  - split; [done|]. split; [|done].
    unfold history_view at 1. rewrite Hm, Hs.
    destruct (history_view o) eqn:E; [|done].
    unfold history_view in E. by destruct (ChatHistory.messages o).
Qed.

Lemma X7_merge_context_witness :
  fault (ChatHistory.state stored_log) = None
  ∧ ChatHistory.userContext
      (fst (snd (ChatHistory.fetch sample_env (merge_request (field "city" "Oslo"))
                   (stored_log, 3)))) !! "name"
    = (if decide ("name" = "lastActivity") then Some (JNum (clock sample_env 3))
       else match field "city" "Oslo" !! "name" with
            | Some v => Some (JStr v)
            | None => context_view stored_log !! "name"
            end).
Proof.
  split; [reflexivity|].
  exact (proj1 (proj2 (X7_merge_context sample_env stored_log 3 (field "city" "Oslo")
                         eq_refl)) "name").
Defined.

(** X9.  On a log whose storage is out of order: with an empty list in memory
    every request throws the storage error and changes nothing; with messages
    in memory a read still answers with them, and an append throws the storage
    error after the message was added to the list in memory (cut to the last
    50), the storage being unchanged. *)
Theorem X9_log_storage_down env o k e :
  fault (ChatHistory.state o) = Some e →
  (ChatHistory.messages o = [] →
   ∀ r, ChatHistory.fetch env r (o, k) = (Throw e, (o, k)))
  ∧ (ChatHistory.messages o ≠ [] →
     fst (ChatHistory.fetch env get_messages (o, k))
     = Ok {| ChatHistory.status := 200;
             ChatHistory.payload :=
               ChatHistory.MessagesJson (ChatHistory.messages o)
                                        (ChatHistory.userContext o) |}
     ∧ ∀ body,
         ∃ o', ChatHistory.fetch env (append_request body) (o, k) = (Throw e, (o', S k))
               ∧ ChatHistory.messages o'
                 = slice_last 50 (ChatHistory.messages o ++ [stamped env k body])
               ∧ ChatHistory.state o' = ChatHistory.state o).
Proof.
  destruct o as [[f rec] [|x l] uc]; simpl; intros ->.
  - split; [|done]. intros _ r. done.
  - split; [done|]. intros _. split; [done|]. intros body.
    unfold ChatHistory.fetch, append_request. unfold bind at 1.
    cbn -[slice_last Nat.ltb].
    destruct (50 <? _) eqn:E; run_log; cbn -[slice_last Nat.ltb].
    + eexists. split; [reflexivity|]. done.
    + eexists. split; [reflexivity|]. simpl. split; [|done].
      apply Nat.ltb_ge in E. by rewrite slice_last_short.
Qed.

Lemma X9_log_storage_down_witness :
  fault (ChatHistory.state broken_log) = Some (JsError "storage unavailable")
  ∧ fst (ChatHistory.fetch sample_env get_messages (broken_log, 0))
    = Ok {| ChatHistory.status := 200;
            ChatHistory.payload := ChatHistory.MessagesJson [first_message] ∅ |}.
Proof.
  split; [reflexivity|].
  refine (proj1 (proj2 (X9_log_storage_down sample_env broken_log 0 _ eq_refl) _)).
  discriminate.
Defined.

(** X10.  On a log whose storage works, a POST on /messages or /context whose
    body is not JSON throws the parse error, and a request for any other path
    or method answers 404 Not Found; in both cases the object is left as
    loading it from the storage leaves it and no clock reading is made. *)
Theorem X10_log_rejects env r o k :
  fault (ChatHistory.state o) = None →
  (∀ e, json r = Throw e →
        log_route r "/messages" "POST" || log_route r "/context" "POST" = true →
        ChatHistory.fetch env r (o, k) = (Throw e, (hydrated o, k)))
  ∧ (log_route r "/messages" "GET" || log_route r "/messages" "POST"
       || log_route r "/messages" "DELETE" || log_route r "/context" "POST"
       || log_route r "/context" "GET" = false →
     ChatHistory.fetch env r (o, k)
     = (Ok {| ChatHistory.status := 404;
              ChatHistory.payload := ChatHistory.NotFoundText |}, (hydrated o, k))).
Proof.
  intros Hf. unfold log_route.
  split.
  - intros e He Hr. unfold ChatHistory.fetch. unfold bind at 1.
    rewrite log_hydrate_ok by done.
    destruct (String.eqb (pathname r) "/messages") eqn:Ep.
    + apply String.eqb_eq in Ep. rewrite Ep in Hr.
      change (String.eqb "/messages" "/context") with false in Hr.
      cbn [andb orb] in Hr. rewrite orb_false_r in Hr.
      apply String.eqb_eq in Hr. rewrite Hr, He. done.
    + cbn [andb orb] in Hr. apply andb_prop in Hr as [Hp Hm].
      rewrite Hp. rewrite Hm, He. done.
  - intros Hr. unfold ChatHistory.fetch. unfold bind at 1.
    rewrite log_hydrate_ok by done.
    destruct (String.eqb (pathname r) "/messages") eqn:Ep.
    + apply String.eqb_eq in Ep. rewrite Ep in Hr.
      change (String.eqb "/messages" "/context") with false in Hr.
      change (String.eqb "/messages" "/messages") with true in Hr.
      cbn [andb orb] in Hr. rewrite !orb_false_r in Hr.
      apply orb_false_elim in Hr as [Hr H3]. apply orb_false_elim in Hr as [H1 H2].
      by rewrite H1, H2, H3.
    + cbn [andb orb] in Hr.
      destruct (String.eqb (pathname r) "/context"); [|done].
      cbn [andb] in Hr. apply orb_false_elim in Hr as [H1 H2].
      by rewrite H1, H2.
Qed.

Lemma X10_log_rejects_witness :
  fault (ChatHistory.state stored_log) = None
  ∧ ChatHistory.fetch sample_env bad_append (stored_log, 0)
    = (Throw (JsError "Unexpected end of JSON input"), (hydrated stored_log, 0)).
Proof.
  split; [reflexivity|].
  exact (proj1 (X10_log_rejects sample_env bad_append stored_log 0 eq_refl)
           (JsError "Unexpected end of JSON input") eq_refl eq_refl).
Defined.

(** ** The helpers of a turn *)

Lemma new_events_same w : new_events w w = [].
Proof. apply new_events_app. by rewrite app_nil_r. Qed.

Lemma safe_analyzeImage env url q : safe (analyzeImage env url q).
Proof. apply safe_try_catch. intros e. apply safe_ret. Qed.

(** X11.  analyzeImage never throws and changes no Durable Object. When
    decoding the data URL fails it issues no call and answers Image uploaded
    (analysis unavailable: <message>), the world being unchanged; otherwise it
    issues exactly one call, the vision call on the decoded bytes with the
    prompt built from the question. *)
Theorem X11_analyzeImage_calls env url q w :
  (∃ a, fst (analyzeImage env url q w) = Ok a)
  ∧ CHAT_HISTORY (snd (analyzeImage env url q w)) = CHAT_HISTORY w
  ∧ CHAT_SESSIONS (snd (analyzeImage env url q w)) = CHAT_SESSIONS w
  ∧ match atob env (base64_part url) with
    | Throw e =>
        analyzeImage env url q w
        = (Ok ("Image uploaded (analysis unavailable: "
                 +:+ message_or e "unknown error" +:+ ")."), w)
    | Ok binary =>
        new_events w (snd (analyzeImage env url q w))
        = [EvVision (char_codes binary) (vision_prompt q)]
    end.
Proof.
  split.
  { apply safe_try_catch. intros e. apply safe_ret. }
  destruct (quiet_analyzeImage env url q w) as (Hh & Hs & _).
  split; [done|]. split; [done|].
  unfold analyzeImage, base64_part, vision_prompt, try_catch, run_vision, bind, lift, emit.
  destruct (atob env _) as [binary|e]; [|done]. simpl.
  destruct (AI_run_vision env _ _) as [[s|d r t|]|e]; simpl;
    try (by apply new_events_app).
  destruct (truthy_opt d); [by apply new_events_app|].
  destruct (truthy_opt r); [by apply new_events_app|].
  destruct (truthy_opt t); by apply new_events_app.
Qed.

(** No text extension is an image extension. *)
Lemma text_not_image x : mem x text_extensions = true → mem x image_extensions = false.
Proof.
  unfold mem, text_extensions. simpl. intros H.
  repeat (apply orb_prop in H as [H|H]; [apply String.eqb_eq in H; by subst|]).
  done.
Qed.

Lemma substring0_prefix n s :
  ∃ rest, s = String.substring 0 n s +:+ rest
          ∧ String.length (String.substring 0 n s) = Nat.min n (String.length s).
Proof.
  revert n. induction s as [|c s IH]; intros [|n]; simpl.
  - by exists EmptyString.
  - by exists EmptyString.
  - by exists (String c s).
  - destruct (IH n) as (rest & E & L). exists rest. rewrite append_cons.
    split; [by rewrite <- E|by rewrite L].
Qed.

Lemma extension_ext b e :
  no_dot e = true → file_extension (b +:+ "." +:+ e) = toLowerCase e.
Proof.
  intros H. unfold file_extension.
  change (b +:+ "." +:+ e) with (b +:+ String "." e).
  by rewrite last_split_ext.
Qed.

(** X12.  extractTextFromFile never throws. For a file whose lower-cased
    extension is not an image extension it leaves the world unchanged (no
    call, no clock reading); for an image extension it answers with the header
    Image file <name> analysis: followed by the answer of analyzeImage, in the
    world analyzeImage leaves. *)
Theorem X12_extract_dispatch env fileName url q w :
  (∃ a, fst (extractTextFromFile fileName url env q w) = Ok a)
  ∧ (mem (file_extension fileName) image_extensions = false →
     snd (extractTextFromFile fileName url env q w) = w)
  ∧ (mem (file_extension fileName) image_extensions = true →
     ∃ analysis,
       fst (analyzeImage env url q w) = Ok analysis
       ∧ extractTextFromFile fileName url env q w
         = (Ok ("📷 Image file " +:+ dquote +:+ fileName +:+ dquote +:+ " analysis:"
                  +:+ newline +:+ newline +:+ analysis),
            snd (analyzeImage env url q w))).
Proof.
  split.
  { apply safe_try_catch. intros e. apply safe_ret. }
  unfold extractTextFromFile, file_extension. split.
  - intros ->. unfold try_catch, bind, lift, ret.
    destruct (mem _ text_extensions).
    { by destruct (atob env _). }
    destruct (String.eqb _ "pdf"); [|done].
    destruct (atob env _); [|done]. simpl. by destruct (_ && _).
  - intros ->.
    destruct (safe_analyzeImage env url q w) as [a Ha].
    exists a. split; [done|]. unfold try_catch, bind.
    destruct (analyzeImage env url q w) as [r w']. simpl in Ha. by subst r.
Qed.

(** X13.  For a file name <base>.<ext> whose extension, in any letter case, is
    one of the text extensions and whose data decodes, extractTextFromFile
    answers File <name> contents: followed by the text when it has at most
    8000 characters, and by its first 8000 characters and the truncation note
    when it is longer; the world is unchanged. *)
Theorem X13_extract_text_file env b e url q w text :
  no_dot e = true →
  mem (toLowerCase e) text_extensions = true →
  atob env (base64_part url) = Ok text →
  ∃ preview,
    extractTextFromFile (b +:+ "." +:+ e) url env q w
    = (Ok ("📄 File " +:+ dquote +:+ (b +:+ "." +:+ e) +:+ dquote +:+ " contents:"
             +:+ newline +:+ newline +:+ preview), w)
    ∧ (String.length text ≤ PREVIEW_LIMIT → preview = text)
    ∧ (PREVIEW_LIMIT < String.length text →
       ∃ kept rest,
         text = kept +:+ rest ∧ String.length kept = PREVIEW_LIMIT
         ∧ preview = kept +:+ "..." +:+ newline +:+ newline
                       +:+ "[File truncated - showing first 8000 characters]").
Proof.
  intros Hd He Ha.
  pose proof (extension_ext b e Hd) as Hx. unfold file_extension in Hx.
  unfold extractTextFromFile. rewrite Hx, (text_not_image _ He), He.
  unfold base64_part in Ha. unfold try_catch, bind, lift, ret. rewrite Ha.
  eexists. split; [reflexivity|].
  destruct (PREVIEW_LIMIT <? String.length text) eqn:E.
  - apply Nat.ltb_lt in E. split; [lia|]. intros _.
    destruct (substring0_prefix PREVIEW_LIMIT text) as (rest & Ht & Hl).
    exists (String.substring 0 PREVIEW_LIMIT text), rest.
    split; [done|]. split; [lia|done].
  - apply Nat.ltb_ge in E. split; [done|lia].
Qed.

Lemma X13_extract_text_file_witness :
  no_dot "TXT" = true
  ∧ mem (toLowerCase "TXT") text_extensions = true
  ∧ atob sample_env (base64_part text_url) = Ok "hello world"
  ∧ ∃ preview,
      extractTextFromFile ("notes" +:+ "." +:+ "TXT") text_url sample_env None fresh_world
      = (Ok ("📄 File " +:+ dquote +:+ ("notes" +:+ "." +:+ "TXT") +:+ dquote
               +:+ " contents:" +:+ newline +:+ newline +:+ preview), fresh_world)
      ∧ (String.length "hello world" ≤ PREVIEW_LIMIT → preview = "hello world")
      ∧ (PREVIEW_LIMIT < String.length "hello world" →
         ∃ kept rest,
           "hello world" = kept +:+ rest ∧ String.length kept = PREVIEW_LIMIT
           ∧ preview = kept +:+ "..." +:+ newline +:+ newline
                         +:+ "[File truncated - showing first 8000 characters]").
Proof.
  split; [reflexivity|]. split; [reflexivity|]. split; [reflexivity|].
  exact (X13_extract_text_file sample_env "notes" "TXT" text_url None fresh_world
           "hello world" eq_refl eq_refl eq_refl).
Defined.

(** Joining and cutting keep the characters within a class. *)
Lemma all_chars_join p sep l :
  all_chars p sep = true → Forall (λ r, all_chars p r = true) l →
  all_chars p (join sep l) = true.
Proof.
  intros Hs H. induction H as [|x l Hx Hl IH]; [done|].
  destruct l as [|y l]; [done|].
  rewrite join_cons, !all_chars_app, Hx, Hs. by rewrite IH.
Qed.

Lemma all_chars_substring0 p n s :
  all_chars p s = true → all_chars p (String.substring 0 n s) = true.
Proof.
  intros H. destruct (substring0_prefix n s) as (rest & E & _).
  rewrite E, all_chars_app in H. by apply andb_prop in H as [H _].
Qed.

(** X14.  For a file name <base>.<ext> whose extension is pdf in any letter
    case and whose data decodes, extractTextFromFile leaves the world
    unchanged and answers either that the text could not be extracted, or with
    the extracted text: more than 100 and at most 8000 characters, all of them
    of the character class of the pattern, taken from more than 10 runs, with
    the truncation note only when there are exactly 8000. *)
Theorem X14_extract_pdf env b e url q w text :
  no_dot e = true →
  toLowerCase e = "pdf" →
  atob env (base64_part url) = Ok text →
  ∃ answer,
    extractTextFromFile (b +:+ "." +:+ e) url env q w = (Ok answer, w)
    ∧ (answer = "📄 PDF file " +:+ dquote +:+ (b +:+ "." +:+ e) +:+ dquote
                  +:+ " uploaded. I can see it's a PDF but couldn't extract the text automatically. Could you tell me what's in the document or copy-paste the text?"
       ∨ ∃ extracted note,
           answer = "📄 PDF file " +:+ dquote +:+ (b +:+ "." +:+ e) +:+ dquote
                      +:+ " content (extracted text):" +:+ newline +:+ newline
                      +:+ extracted +:+ note
           ∧ all_chars pdf_char extracted = true
           ∧ 100 < String.length extracted ≤ PREVIEW_LIMIT
           ∧ (note = empty ∨ String.length extracted = PREVIEW_LIMIT)
           ∧ 10 < length (match_runs pdf_char [] text)).
Proof.
  intros Hd He Ha.
  pose proof (extension_ext b e Hd) as Hx. unfold file_extension in Hx.
  unfold extractTextFromFile. rewrite Hx, He.
  unfold base64_part in Ha. unfold try_catch, bind, lift, ret.
  change (mem "pdf" image_extensions) with false.
  change (mem "pdf" text_extensions) with false.
  change ("pdf" =? "pdf")%string with true. cbv iota. rewrite Ha.
  set (runs := match_runs pdf_char [] text).
  set (extracted := String.substring 0 PREVIEW_LIMIT (join " " runs)).
  destruct ((10 <? length runs) && (100 <? String.length extracted)) eqn:E.
  - eexists. split; [reflexivity|]. right.
    apply andb_prop in E as [E1 E2]. apply Nat.ltb_lt in E1, E2.
    eexists extracted, _. split; [reflexivity|].
    split.
    { apply all_chars_substring0, all_chars_join; [done|].
      eapply Forall_impl; [by apply match_runs_runs|]. by intros r [_ Hr]. }
    split; [split; [done|apply length_substring0]|]. split; [|done].
    destruct (String.length extracted =? PREVIEW_LIMIT) eqn:E3; [|by left].
    right. by apply Nat.eqb_eq.
  - eexists. split; [reflexivity|]. by left.
Qed.

Lemma X14_extract_pdf_witness :
  no_dot "PDF" = true
  ∧ toLowerCase "PDF" = "pdf"
  ∧ atob sample_env (base64_part pdf_url) = Ok pdf_text
  ∧ extractTextFromFile ("paper" +:+ "." +:+ "PDF") pdf_url sample_env None fresh_world
    = (Ok ("📄 PDF file " +:+ dquote +:+ ("paper" +:+ "." +:+ "PDF") +:+ dquote
             +:+ " content (extracted text):" +:+ newline +:+ newline
             +:+ pdf_extracted), fresh_world)
  ∧ ∃ extracted note,
      "📄 PDF file " +:+ dquote +:+ ("paper" +:+ "." +:+ "PDF") +:+ dquote
        +:+ " content (extracted text):" +:+ newline +:+ newline +:+ pdf_extracted
      = "📄 PDF file " +:+ dquote +:+ ("paper" +:+ "." +:+ "PDF") +:+ dquote
          +:+ " content (extracted text):" +:+ newline +:+ newline
          +:+ extracted +:+ note
      ∧ all_chars pdf_char extracted = true
      ∧ 100 < String.length extracted ≤ PREVIEW_LIMIT
      ∧ (note = empty ∨ String.length extracted = PREVIEW_LIMIT)
      ∧ 10 < length (match_runs pdf_char [] pdf_text).
Proof.
  assert (Hrun : extractTextFromFile ("paper" +:+ "." +:+ "PDF") pdf_url sample_env None
                   fresh_world
                 = (Ok ("📄 PDF file " +:+ dquote +:+ ("paper" +:+ "." +:+ "PDF") +:+ dquote
                          +:+ " content (extracted text):" +:+ newline +:+ newline
                          +:+ pdf_extracted), fresh_world))
    by (vm_compute; reflexivity).
  split; [reflexivity|]. split; [reflexivity|]. split; [reflexivity|].
  split; [exact Hrun|].
  destruct (X14_extract_pdf sample_env "paper" "PDF" pdf_url None fresh_world
              pdf_text eq_refl eq_refl eq_refl) as (answer & E & [Hf|H]).
  - rewrite Hrun in E. injection E as <-. vm_compute in Hf. discriminate Hf.
  - rewrite Hrun in E. injection E as <-. exact H.
Defined.

(** X15.  When decoding the data of a file fails, extractTextFromFile answers
    File <name> received. Please describe ... for a text extension (the outer
    handler) and PDF file <name> uploaded. Please describe ... for a pdf (the
    inner handler); the world is unchanged. *)
Theorem X15_extract_decode_failure env b e url q w err :
  no_dot e = true →
  atob env (base64_part url) = Throw err →
  (mem (toLowerCase e) text_extensions = true →
   extractTextFromFile (b +:+ "." +:+ e) url env q w
   = (Ok ("📄 File " +:+ dquote +:+ (b +:+ "." +:+ e) +:+ dquote
            +:+ " received. Please describe what you'd like to know about it."), w))
  ∧ (toLowerCase e = "pdf" →
     extractTextFromFile (b +:+ "." +:+ e) url env q w
     = (Ok ("📄 PDF file " +:+ dquote +:+ (b +:+ "." +:+ e) +:+ dquote
              +:+ " uploaded. Please describe what you'd like to know about it."), w)).
Proof.
  intros Hd Ha.
  pose proof (extension_ext b e Hd) as Hx. unfold file_extension in Hx.
  unfold base64_part in Ha.
  split; intros He; unfold extractTextFromFile; rewrite Hx.
  - rewrite (text_not_image _ He), He. unfold try_catch, bind, lift. by rewrite Ha.
  - rewrite He.
    change (mem "pdf" image_extensions) with false.
    change (mem "pdf" text_extensions) with false.
    change ("pdf" =? "pdf")%string with true. cbv iota.
    unfold try_catch, bind, lift. by rewrite Ha.
Qed.

Lemma X15_extract_decode_failure_witness :
  no_dot "md" = true
  ∧ atob no_atob_env (base64_part text_url) = Throw (JsError "Invalid character")
  ∧ mem (toLowerCase "md") text_extensions = true
  ∧ extractTextFromFile ("notes" +:+ "." +:+ "md") text_url no_atob_env None fresh_world
    = (Ok ("📄 File " +:+ dquote +:+ ("notes" +:+ "." +:+ "md") +:+ dquote
             +:+ " received. Please describe what you'd like to know about it."),
       fresh_world).
Proof.
  split; [reflexivity|]. split; [reflexivity|]. split; [reflexivity|].
  exact (proj1 (X15_extract_decode_failure no_atob_env "notes" "md" text_url None fresh_world
                  (JsError "Invalid character") eq_refl eq_refl) eq_refl).
Defined.

Lemma first_char_append c a b : first_char (String c a +:+ b) = Some c.
Proof. by rewrite append_cons. Qed.

(** The answers of [getWeather] for a city that can be encoded. *)
Lemma getWeather_encoded env city w :
  URIError env city = None →
  ∃ answer,
    fst (getWeather env city w) = Ok answer
    ∧ (answer = "Unable to fetch weather data"
       ↔ weather_call_failed env city ∨ no_current env city)
    ∧ (∀ r, fetch_geocoding env (geocoding_url env city) = Ok r →
            results r = None ∨ results r = Some [] →
            answer = "Could not find weather data for " +:+ city
            ∧ new_events w (snd (getWeather env city w))
              = [EvFetch (geocoding_url env city)])
    ∧ (∀ g rest cur,
         fetch_geocoding env (geocoding_url env city)
         = Ok {| results := Some (g :: rest) |} →
         fetch_forecast env (forecast_url g) = Ok {| current := Some cur |} →
         answer = weather_report g cur
         ∧ new_events w (snd (getWeather env city w))
           = [EvFetch (geocoding_url env city); EvFetch (forecast_url g)]).
Proof.
  intros Hu. unfold weather_call_failed, no_current.
  unfold getWeather, try_catch, encode_uri, fetch_json, bind, lift, emit.
  rewrite Hu. fold (geocoding_url env city). simpl.
  destruct (fetch_geocoding env _) as [[[[|g rest]|]]|e] eqn:Eg; simpl.
  - eexists. split; [reflexivity|]. split; [|split].
    + split.
      * intros H. apply (f_equal first_char) in H. by rewrite first_char_append in H.
      * intros [[[e [=]]|(g & rest & e & [=] & _)]|(g & rest & [=] & _)].
    + intros r [= <-] _. split; [done|]. by apply new_events_app.
    + intros g rest cur [=].
  - destruct (fetch_forecast env _) as [[[c|]]|e] eqn:Ef; simpl.
    + eexists. split; [reflexivity|]. split; [|split].
      * split.
        -- intros H. apply (f_equal first_char) in H. by rewrite first_char_append in H.
        -- intros [[[e [=]]|(g' & rest' & e & [= <- <-] & Hf)]|(g' & rest' & [= <- <-] & Hf)];
             congruence.
      * intros r [= <-] [[=]|[=]].
      * intros g' rest' cur [= <- <-] Hf. rewrite Ef in Hf. injection Hf as <-.
        split; [done|]. apply new_events_app. simpl. by rewrite <- app_assoc.
    + eexists. split; [reflexivity|]. split; [|split].
      * split; [|done]. intros _. right. by exists g, rest.
      * intros r [= <-] [[=]|[=]].
      * intros g' rest' cur [= <- <-] Hf. congruence.
    + eexists. split; [reflexivity|]. split; [|split].
      * split; [|done]. intros _. left. right. by exists g, rest, e.
      * intros r [= <-] [[=]|[=]].
      * intros g' rest' cur [= <- <-] Hf. congruence.
  - eexists. split; [reflexivity|]. split; [|split].
    + split.
      * intros H. apply (f_equal first_char) in H. by rewrite first_char_append in H.
      * intros [[[e [=]]|(g & rest & e & [=] & _)]|(g & rest & [=] & _)].
    + intros r [= <-] _. split; [done|]. by apply new_events_app.
    + intros g rest cur [=].
  - eexists. split; [reflexivity|]. split; [|split].
    + split; [|done]. intros _. left. left. by exists e.
    + intros r [=].
    + intros g rest cur [=].
Qed.

(** X16.  getWeather never throws.  It answers Unable to fetch weather data
    exactly when the city cannot be encoded for the URL (encodeURIComponent
    throws), a remote call failed or the forecast carries no current weather;
    a city that cannot be encoded leaves the world unchanged: no call is
    issued.  For a city that can be encoded: when the geocoding finds no place
    it answers Could not find weather data for <city> after the geocoding call
    alone; when both calls answer it gives the report for the first place
    found, after exactly the geocoding call and the forecast call for that
    place. *)
Theorem X16_getWeather_answers env city w :
  ∃ answer,
    fst (getWeather env city w) = Ok answer
    ∧ (answer = "Unable to fetch weather data"
       ↔ is_Some (URIError env city) ∨ weather_call_failed env city
         ∨ no_current env city)
    ∧ (is_Some (URIError env city) → snd (getWeather env city w) = w)
    ∧ (∀ r, URIError env city = None →
            fetch_geocoding env (geocoding_url env city) = Ok r →
            results r = None ∨ results r = Some [] →
            answer = "Could not find weather data for " +:+ city
            ∧ new_events w (snd (getWeather env city w))
              = [EvFetch (geocoding_url env city)])
    ∧ (∀ g rest cur,
         URIError env city = None →
         fetch_geocoding env (geocoding_url env city)
         = Ok {| results := Some (g :: rest) |} →
         fetch_forecast env (forecast_url g) = Ok {| current := Some cur |} →
         answer = weather_report g cur
         ∧ new_events w (snd (getWeather env city w))
           = [EvFetch (geocoding_url env city); EvFetch (forecast_url g)]).
Proof.
  destruct (URIError env city) as [e|] eqn:Hu.
  - rewrite (getWeather_unencodable env city e w Hu).
    eexists. split; [reflexivity|]. split; [split; [by left|done]|].
    split; [done|]. split; [by intros|by intros].
  - destruct (getWeather_encoded env city w Hu) as (answer & Ha & Hiff & Hnone & Hrep).
    exists answer. split; [exact Ha|]. split.
    { rewrite Hiff. split; [intros [H|H]; auto|].
      intros [[x Hx]|[H|H]]; [done|by left|by right]. }
    split; [by intros [x Hx]|]. split.
    + intros r _. apply Hnone.
    + intros g rest cur _. apply Hrep.
Qed.

(** The answers of [webSearch] for a query that can be encoded. *)
Lemma webSearch_encoded env query w :
  URIError env query = None →
  ∃ answer,
    webSearch env query w = (Ok answer, issued (EvFetch (search_url env query)) w)
    ∧ (answer = "Unable to search"
       ↔ ∃ e, fetch_search env (search_url env query) = Throw e)
    ∧ (∀ data, fetch_search env (search_url env query) = Ok data →
         (truthy_opt (AbstractText data) = true →
          answer = "Search result: " +:+ to_string (AbstractText data))
         ∧ (truthy_opt (AbstractText data) = false →
            answer = match RelatedTopics data with
                     | Some (firstTopic :: _) =>
                         if truthy_opt (Text firstTopic)
                         then "Search result: " +:+ to_string (Text firstTopic)
                         else "No information found for: " +:+ query
                     | _ => "No information found for: " +:+ query
                     end)).
Proof.
  intros Hu.
  unfold webSearch, try_catch, encode_uri, fetch_json, bind, lift, emit, issued.
  rewrite Hu. fold (search_url env query). simpl.
  assert (Hc : ∀ c a b, String c a +:+ b = "Unable to search" → c = "U"%char).
  { intros c a b H. apply (f_equal first_char) in H.
    rewrite first_char_append in H. by injection H. }
  destruct (fetch_search env _) as [[a topics]|e] eqn:E; simpl.
  - destruct (truthy_opt a) eqn:Ea;
      [|destruct topics as [[|t l]|]; [|destruct (truthy_opt (Text t)) eqn:Et|]];
      (eexists; split; [reflexivity|]; split;
       [split; [intros H; by apply Hc in H|intros [e [=]]]
       |intros data [= <-]; simpl; rewrite ?Et; split; intros; first [congruence|done]]).
  - eexists. split; [reflexivity|]. split.
    + split; [|done]. intros _. by exists e.
    + intros data [=].
Qed.

(** X17.  webSearch never throws.  When the query cannot be encoded for the
    URL (encodeURIComponent throws, as it does on a lone surrogate) it issues
    no call and leaves the world unchanged; otherwise it issues exactly one
    call, the search for the encoded query, and changes nothing else.  It
    answers Unable to search exactly when the query cannot be encoded or the
    call failed.  When the call answers, a non-empty abstract is returned
    whatever the related topics are; without one the text of the first related
    topic is returned if it is non-empty, and No information found for:
    <query> otherwise. *)
Theorem X17_webSearch_answers env query w :
  ∃ answer,
    fst (webSearch env query w) = Ok answer
    ∧ snd (webSearch env query w)
      = match URIError env query with
        | Some _ => w
        | None => issued (EvFetch (search_url env query)) w
        end
    ∧ (answer = "Unable to search"
       ↔ is_Some (URIError env query)
         ∨ ∃ e, fetch_search env (search_url env query) = Throw e)
    ∧ (∀ data, URIError env query = None →
         fetch_search env (search_url env query) = Ok data →
         (truthy_opt (AbstractText data) = true →
          answer = "Search result: " +:+ to_string (AbstractText data))
         ∧ (truthy_opt (AbstractText data) = false →
            answer = match RelatedTopics data with
                     | Some (firstTopic :: _) =>
                         if truthy_opt (Text firstTopic)
                         then "Search result: " +:+ to_string (Text firstTopic)
                         else "No information found for: " +:+ query
                     | _ => "No information found for: " +:+ query
                     end)).
Proof.
  destruct (URIError env query) as [e|] eqn:Hu.
  - rewrite (webSearch_unencodable env query e w Hu).
    eexists. split; [reflexivity|]. split; [reflexivity|].
    split; [split; [by left|done]|by intros].
  - destruct (webSearch_encoded env query w Hu) as (answer & -> & Hiff & Hdata).
    exists answer. split; [reflexivity|]. split; [reflexivity|]. split.
    { rewrite Hiff. split; [by right|]. by intros [[x Hx]|H]. }
    intros data _. apply Hdata.
Qed.

(** ** The user turn, the bundle and the committed turn *)

Lemma truthy_append a b : truthy (a +:+ b) = truthy a || truthy b.
Proof. destruct a; [done|]. by rewrite append_cons. Qed.

(** X19.  The user turn of the generation request is never empty; it ends with
    the message when the message is non-empty; without image and file context
    it is the message itself, or Hello! How can I help you today? for an empty
    message; with an image context it starts with [IMAGE ANALYSIS] and that
    context; and it does not depend on the external context. *)
Theorem X19_userMessage_shape m b :
  truthy (userMessage m b) = true
  ∧ (truthy m = true → ∃ pre, userMessage m b = pre +:+ m)
  ∧ (truthy (imageContext b) = false → truthy (fileContext b) = false →
     userMessage m b = if truthy m then m else "Hello! How can I help you today?")
  ∧ (truthy (imageContext b) = true →
     ∃ post, userMessage m b
             = "[IMAGE ANALYSIS]" +:+ newline +:+ imageContext b +:+ newline +:+ newline
                 +:+ post)
  ∧ (∀ x, userMessage m {| imageContext := imageContext b;
                           fileContext := fileContext b; externalContext := x |}
          = userMessage m b).
Proof.
  split; [|split; [|split; [|split]]].
  - unfold userMessage. cbv zeta.
    match goal with |- truthy (if truthy ?u then _ else _) = true =>
      by destruct (truthy u) eqn:E end.
  - intros Hm. unfold userMessage. cbv zeta. rewrite Hm.
    destruct (truthy (imageContext b)) eqn:Hi, (truthy (fileContext b)) eqn:Hf;
      cbn [orb]; rewrite ?truthy_append, ?Hm, ?orb_true_r, ?Hi, ?Hf; cbn [orb];
      rewrite ?Hm.
    + eexists. by rewrite <- !append_assoc.
    + eexists. by rewrite <- !append_assoc.
    + eexists. by rewrite <- !append_assoc.
    + by exists empty.
  - intros Hi Hf. unfold userMessage. cbv zeta. rewrite Hi, Hf. cbn [orb].
    by destruct (truthy m) eqn:Hm; [rewrite Hm|].
  - intros Hi. unfold userMessage. cbv zeta. rewrite Hi. cbn [orb].
    destruct (truthy m) eqn:Hm, (truthy (fileContext b)) eqn:Hf;
      rewrite ?truthy_append, ?Hi, ?orb_true_r; cbn [orb truthy empty append];
      rewrite ?append_assoc; eexists; reflexivity.
  - done.
Qed.

(** Results of different types fill different fields. *)
Lemma mergeResult_comm b x y :
  type x ≠ type y →
  mergeResult (mergeResult b x) y = mergeResult (mergeResult b y) x.
Proof.
  intros H. unfold mergeResult.
  destruct (truthy_opt (data x)), (truthy_opt (data y)); try done.
  by destruct (type x), (type y).
Qed.

(** X20.  Filling the bundle from the results of the tasks does not depend on
    the order of the results when no two results have the same type (as the
    results of Promise.all have: one task per type). *)
Theorem X20_mergeResults_order rs rs' :
  NoDup (type <$> rs) → rs ≡ₚ rs' → mergeResults rs' = mergeResults rs.
Proof.
  intros Hn Hp. unfold mergeResults.
  generalize {| imageContext := empty; fileContext := empty; externalContext := empty |}.
  induction Hp as [|x l l' Hp IH|x y l|l l' l'' H1 IH1 H2 IH2]; intros b.
  - done.
  - simpl. apply IH. by apply NoDup_cons in Hn as [_ Hn].
  - simpl. rewrite mergeResult_comm; [done|].
    apply NoDup_cons in Hn as [Hn _]. intros E. apply Hn. rewrite E. by left.
  - rewrite IH2, IH1; [done|done|]. by rewrite <- H1.
Qed.

Lemma X20_mergeResults_order_witness :
  NoDup (type <$> cat_and_sun)
  ∧ mergeResults sun_and_cat = mergeResults cat_and_sun.
Proof.
  assert (H : NoDup (type <$> cat_and_sun)).
  { simpl. apply NoDup_cons. split; [|apply NoDup_singleton].
    intros Hin. apply list_elem_of_singleton in Hin. discriminate. }
  split; [exact H|]. apply (X20_mergeResults_order _ _ H). apply perm_swap.
Defined.

(** X21.  handleChat never throws: it answers with status 200 and the reply of
    the turn together with the session id of the body (only for a parsed body
    that passes the input check and a turn that returned), or with status 500
    and an error text. A body that is not JSON gives status 500 with the
    message of the parse error, and the world is unchanged. *)
Theorem X21_handleChat_answers request env w :
  (∃ r, fst (handleChat request env w) = Ok r
        ∧ ((status r = 200 ∧ ∃ body reply,
              request = Ok body ∧ valid body = true
              ∧ fst (turn env body w) = Ok reply
              ∧ payload r = ChatReply reply (sessionId body))
           ∨ (status r = 500 ∧ ∃ error, payload r = ChatError error)))
  ∧ (∀ e, request = Throw e →
          handleChat request env w
          = (Ok {| status := 500; payload := ChatError (message_or e "Unknown error") |},
             w)).
Proof.
  split; [|by intros e ->].
  destruct request as [body|e].
  - destruct (valid body) eqn:Hv.
    + rewrite handleChat_valid by done.
      destruct (turn env body w) as [[reply|e] w1] eqn:Ht.
      * destruct (sessions_stub_fetch env "user-default" (preview_update body) w1)
          as [[r|e] w2]; eexists; (split; [reflexivity|]).
        -- left. split; [done|]. exists body, reply. by rewrite Ht.
        -- right. split; [done|]. by eexists.
      * eexists. split; [reflexivity|]. right. split; [done|]. by eexists.
    + rewrite handleChat_invalid by done.
      eexists. split; [reflexivity|]. right. split; [done|]. by eexists.
  - eexists. split; [reflexivity|]. right. split; [done|]. by eexists.
Qed.

Lemma history_view_hydrated o : history_view (hydrated o) = history_view o.
Proof.
  destruct o as [[f [rm rc]] [|x l] uc]; [|done].
  unfold history_view, hydrated, stored_messages. simpl. by destruct rm as [[|y r]|].
Qed.

Lemma synced_view o l : synced o l → history_view o = l.
Proof.
  intros (_ & Hm & Hs). unfold history_view. rewrite Hm.
  destruct l; [|done]. by destruct Hs as [->|[_ ->]].
Qed.

(** An append through the stub of the log [n]. *)
Lemma stub_append env n r c w :
  fault (ChatHistory.state (history_object w n)) = None →
  ∃ o', history_stub_fetch env n (post_message r c) w
        = (success,
           {| CHAT_HISTORY := <[n := o']> (CHAT_HISTORY w);
              CHAT_SESSIONS := CHAT_SESSIONS w;
              readings := S (readings w); trace := trace w |})
        ∧ synced o' (slice_last 50
                       (history_view (history_object w n)
                          ++ [{| role := Some r; content := Some c;
                                 timestamp := clock env (readings w) |}])).
Proof.
  intros Hf.
  destruct (append_any env (history_object w n) (readings w) (say r c) Hf)
    as (o' & E & Hs & _).
  exists o'. unfold history_stub_fetch.
  change (post_message r c) with (append_request (say r c)). rewrite E.
  split; [done|]. by unfold stamped, say in Hs; simplify_map_eq.
Qed.

(** X22.  When the log storage of the session works and the turn returns a
    reply, the log of the session holds, in memory and in storage, the last 50
    of: the messages it read as before, then the user turn (the message with
    the gathered context), then the reply, stamped with consecutive clock
    readings; every other log is untouched, the directories are untouched, and
    the turn read the clock three times after the tasks. *)
Theorem X22_turn_commits env body w reply w' :
  fault (ChatHistory.state (history_object w (sessionId body))) = None →
  turn env body w = (Ok reply, w') →
  ∃ results w1,
    runTasks env (or_else (message body) empty) (image body) (fileData body)
             (fileName body) w = (Ok results, w1)
    ∧ synced (history_object w' (sessionId body))
        (slice_last 50
           (history_view (history_object w (sessionId body))
              ++ [ {| role := Some "user";
                      content := Some (userMessage (or_else (message body) empty)
                                                   (mergeResults results));
                      timestamp := clock env (S (readings w1)) |};
                   {| role := Some "assistant"; content := Some reply;
                      timestamp := clock env (S (S (readings w1))) |} ]))
    ∧ (∀ n, n ≠ sessionId body → history_object w' n = history_object w n)
    ∧ CHAT_SESSIONS w' = CHAT_SESSIONS w
    ∧ readings w' = S (S (S (readings w1))).
Proof.
  intros Hf Ht. unfold turn in Ht.
  set (msg := or_else (message body) empty) in *.
  set (sid := sessionId body) in *.
  destruct (safe_runTasks env msg (image body) (fileData body) (fileName body) w)
    as [results Hr].
  pose proof (quiet_runTasks env msg (image body) (fileData body) (fileName body) w)
    as (Hh & Hs & _).
  destruct (runTasks env msg (image body) (fileData body) (fileName body) w)
    as [r w1] eqn:E. simpl in *. subst r.
  exists results, w1. split; [done|].
  assert (Ho : history_object w1 sid = history_object w sid).
  { unfold history_object. by rewrite Hh. }
  set (o := history_object w sid) in *.
  unfold coordinateChat, bind at 1 in Ht. rewrite E in Ht.
  unfold bind at 1 in Ht. unfold history_stub_fetch at 1 in Ht.
  rewrite Ho, get_messages_ok in Ht by done.
  cbn -[history_view context_view generationRequest systemPrompt userMessage
        mergeResults history_stub_fetch hydrated] in Ht.
  destruct (AI_run_text env _) as [[|[s|]]|e];
    cbn -[history_view context_view generationRequest systemPrompt userMessage
          mergeResults history_stub_fetch hydrated] in Ht; try discriminate.
  destruct (truthy s); [|discriminate].
  match type of Ht with
  | (_ ;;; _) ?x = _ => set (w3 := x) in *
  end.
  assert (Ho3 : history_object w3 sid = hydrated o).
  { unfold history_object, w3. simpl. by rewrite lookup_insert_eq. }
  destruct (stub_append env sid "user" (userMessage msg (mergeResults results)) w3)
    as (o4 & E4 & S4).
  { by rewrite Ho3, hydrated_state. }
  unfold bind at 1 in Ht. rewrite E4 in Ht. unfold success in Ht.
  match type of Ht with
  | (_ ;;; _) ?x = _ => set (w4 := x) in *
  end.
  assert (Ho4 : history_object w4 sid = o4).
  { unfold history_object, w4. simpl. by rewrite lookup_insert_eq. }
  destruct (stub_append env sid "assistant" s w4) as (o5 & E5 & S5).
  { rewrite Ho4. apply S4. }
  unfold bind at 1 in Ht. rewrite E5 in Ht. unfold success, ret in Ht.
  injection Ht as <- <-.
  rewrite Ho3, history_view_hydrated in S4.
  rewrite Ho4, (synced_view _ _ S4) in S5.
  rewrite slice_last_snoc in S5 by lia. rewrite <- app_assoc in S5. simpl in S5.
  split.
  { unfold history_object at 1. simpl. rewrite lookup_insert_eq. simpl. exact S5. }
  split.
  { intros n Hn. unfold history_object. simpl.
    rewrite !lookup_insert_ne by done. by rewrite Hh. }
  split; [done|]. done.
Qed.

Lemma X22_turn_commits_witness :
  fault (ChatHistory.state (history_object fresh_world (sessionId hello))) = None
  ∧ turn sample_env hello fresh_world
    = (Ok "Hi there", snd (turn sample_env hello fresh_world))
  ∧ ∃ results w1,
      runTasks sample_env (or_else (message hello) empty) (image hello) (fileData hello)
               (fileName hello) fresh_world = (Ok results, w1)
      ∧ synced (history_object (snd (turn sample_env hello fresh_world)) (sessionId hello))
          (slice_last 50
             (history_view (history_object fresh_world (sessionId hello))
                ++ [ {| role := Some "user";
                        content := Some (userMessage (or_else (message hello) empty)
                                                     (mergeResults results));
                        timestamp := clock sample_env (S (readings w1)) |};
                     {| role := Some "assistant"; content := Some "Hi there";
                        timestamp := clock sample_env (S (S (readings w1))) |} ])).
Proof.
  assert (Ht : turn sample_env hello fresh_world
               = (Ok "Hi there", snd (turn sample_env hello fresh_world)))
    by (vm_compute; reflexivity).
  split; [reflexivity|]. split; [exact Ht|].
  destruct (X22_turn_commits sample_env hello fresh_world "Hi there" _ eq_refl Ht)
    as (results & w1 & Hr & Hs & _).
  exists results, w1. split; [exact Hr|exact Hs].
Defined.

(** ** What a request to the worker can reach *)

(** A relation between worlds that is reflexive and transitive is kept by
    the monad operations when it is kept by their parts. *)
Section Preserves.

Variable R : World → World → Prop.
Hypothesis R_refl : ∀ w, R w w.
Hypothesis R_trans : ∀ w1 w2 w3, R w1 w2 → R w2 w3 → R w1 w3.
Context {A B : Type}.

Lemma preserves_ret (a : A) : preserves R (ret a).
Proof. intros w. apply R_refl. Qed.
Lemma preserves_throw e : preserves R (@throw World A e).
Proof. intros w. apply R_refl. Qed.
Lemma preserves_lift (o : outcome A) : preserves R (lift o).
Proof. intros w. apply R_refl. Qed.
Lemma preserves_bind (m : M World A) (k : A → M World B) :
  preserves R m → (∀ a, preserves R (k a)) → preserves R (let* x := m in k x).
Proof.
  intros Hm Hk w. unfold bind. specialize (Hm w).
  destruct (m w) as [[a|e] w1]; simpl in *; [|done].
  eapply R_trans; [exact Hm|apply Hk].
Qed.
Lemma preserves_try_catch (m : M World A) h :
  preserves R m → (∀ e, preserves R (h e)) → preserves R (try_catch m h).
Proof.
  intros Hm Hh w. unfold try_catch. specialize (Hm w).
  destruct (m w) as [[a|e] w1]; simpl in *; [done|].
  eapply R_trans; [exact Hm|apply Hh].
Qed.

End Preserves.

(** A turn leaves the directories alone. *)
Lemma same_directories_refl w : same_directories w w.
Proof. done. Qed.
Lemma same_directories_trans w1 w2 w3 :
  same_directories w1 w2 → same_directories w2 w3 → same_directories w1 w3.
Proof. unfold same_directories. congruence. Qed.

Lemma quiet_same_directories {A} (m : M World A) : quiet m → preserves same_directories m.
Proof. intros H w. by destruct (H w) as (_ & Hs & _). Qed.

Lemma history_stub_directories env n r :
  preserves same_directories (history_stub_fetch env n r).
Proof.
  intros w. unfold history_stub_fetch.
  by destruct (ChatHistory.fetch env r (history_object w n, readings w)) as [a [o k]].
Qed.

Ltac preserves_step :=
  match goal with
  | |- preserves _ (match ?x with _ => _ end) => destruct x
  | |- preserves _ (let* _ := _ in _) =>
      apply (preserves_bind _ same_directories_trans); [|intros ?]
  | |- preserves _ (ret _) => apply (preserves_ret _ same_directories_refl)
  | |- preserves _ (throw _) => apply (preserves_throw _ same_directories_refl)
  | |- preserves _ (history_stub_fetch _ _ _) => apply history_stub_directories
  | |- preserves _ (runTasks _ _ _ _ _) =>
      apply quiet_same_directories, quiet_runTasks
  | |- preserves _ (utc_now _) => apply quiet_same_directories, quiet_utc_now
  end.

Lemma coordinateChat_directories env message sid image fd fn :
  preserves same_directories (coordinateChat env message sid image fd fn).
Proof.
  unfold coordinateChat, history_messages, run_text.
  repeat preserves_step; done.
Qed.

(** X23.  When the turn of a valid request returns a reply and the directory
    user-default works and holds the session id, handleChat answers 200 with
    the reply and the first summary with that id gets the message (or Sent an
    attachment) as preview and the clock reading as update time, its id, name
    and creation time and all other summaries being kept; the preview update
    changes no log. *)
Theorem X23_chat_updates_preview env body w reply w1 before s after :
  valid body = true →
  turn env body w = (Ok reply, w1) →
  fault (ChatSessions.state (sessions_object w "user-default")) = None →
  directory (sessions_object w "user-default") = before ++ s :: after →
  id s = sessionId body →
  sessionId body ∉ ids before →
  fst (handleChat (Ok body) env w)
  = Ok {| status := 200; payload := ChatReply reply (sessionId body) |}
  ∧ directory (sessions_object (snd (handleChat (Ok body) env w)) "user-default")
    = before
        ++ {| id := id s; name := name s;
              lastMessage := Some (or_else (message body) "Sent an attachment");
              createdAt := createdAt s; updatedAt := clock env (readings w1) |}
        :: after
  ∧ CHAT_HISTORY (snd (handleChat (Ok body) env w)) = CHAT_HISTORY w1.
Proof.
  intros Hv Ht Hf Hd Hs Hn.
  pose proof (coordinateChat_directories env (or_else (message body) empty)
                (sessionId body) (image body) (fileData body) (fileName body) w) as Hk.
  fold (turn env body) in Hk. rewrite Ht in Hk. simpl in Hk.
  assert (Ho : sessions_object w1 "user-default" = sessions_object w "user-default").
  { unfold sessions_object. by rewrite Hk. }
  rewrite handleChat_valid by done. rewrite Ht.
  unfold sessions_stub_fetch. rewrite Ho.
  pose proof (put_found env (sessions_object w "user-default") (readings w1)
                (<["id" := sessionId body]>
                   (<["lastMessage" := or_else (message body) "Sent an attachment"]> ∅))
                before s after Hf Hd) as Hp.
  rewrite lookup_insert_eq in Hp.
  specialize (Hp (f_equal Some Hs) (not_in_ids _ _ Hn)).
  change (update_request _) with (preview_update body) in Hp. rewrite Hp.
  simpl. split; [done|]. split; [|done].
  unfold sessions_object. simpl. rewrite lookup_insert_eq. simpl.
  rewrite directory_persisted. unfold updated. by simplify_map_eq.
Qed.

Lemma X23_chat_updates_preview_witness :
  valid hello = true
  ∧ turn sample_env hello listed_world
    = (Ok "Hi there", snd (turn sample_env hello listed_world))
  ∧ fault (ChatSessions.state (sessions_object listed_world "user-default")) = None
  ∧ directory (sessions_object listed_world "user-default") = [] ++ s1_session :: []
  ∧ id s1_session = sessionId hello
  ∧ (sessionId hello ∉ ids [])
  ∧ directory (sessions_object (snd (handleChat (Ok hello) sample_env listed_world))
                 "user-default")
    = [] ++ {| id := id s1_session; name := name s1_session;
               lastMessage := Some (or_else (message hello) "Sent an attachment");
               createdAt := createdAt s1_session;
               updatedAt :=
                 clock sample_env
                   (readings (snd (turn sample_env hello listed_world))) |} :: [].
Proof.
  assert (Ht : turn sample_env hello listed_world
               = (Ok "Hi there", snd (turn sample_env hello listed_world)))
    by (vm_compute; reflexivity).
  assert (Hn : sessionId hello ∉ ids []) by apply not_elem_of_nil.
  split; [reflexivity|]. split; [exact Ht|]. split; [reflexivity|].
  split; [reflexivity|]. split; [reflexivity|]. split; [exact Hn|].
  exact (proj1 (proj2 (X23_chat_updates_preview sample_env hello listed_world "Hi there" _
                         [] s1_session [] eq_refl Ht eq_refl eq_refl eq_refl Hn))).
Defined.

(** X24.  The worker answers an OPTIONS request for any path with the
    preflight response, and a request that matches no API route (any path
    other than /api/sessions; /api/chat without POST; /api/history without GET
    or DELETE) with the HTML page for / and /index.html and with 404 Not Found
    otherwise; in all these cases the world is unchanged. *)
Theorem X24_worker_static request env w :
  (request_method request = "OPTIONS" →
   worker_fetch request env w = (Ok Preflight, w))
  ∧ (request_method request ≠ "OPTIONS" →
     url_pathname request ≠ "/api/sessions" →
     (url_pathname request = "/api/chat" → request_method request ≠ "POST") →
     (url_pathname request = "/api/history" →
      request_method request ≠ "GET" ∧ request_method request ≠ "DELETE") →
     worker_fetch request env w
     = (Ok (if bool_decide (url_pathname request = "/"
                            ∨ url_pathname request = "/index.html")
            then HtmlPage else NotFound), w)).
Proof.
  unfold worker_fetch. split.
  - intros ->. done.
  - intros Hm Hs Hc Hh.
    apply String.eqb_neq in Hm, Hs. rewrite Hm, Hs.
    destruct (String.eqb_spec (url_pathname request) "/api/chat") as [Ec|Ec].
    + specialize (Hc Ec). apply String.eqb_neq in Hc. rewrite Hc, Ec. done.
    + destruct (String.eqb_spec (url_pathname request) "/api/history") as [Eh|Eh].
      * destruct (Hh Eh) as [Hg Hd]. apply String.eqb_neq in Hg, Hd.
        rewrite Hg, Hd, Eh. done.
      * cbn [andb].
        destruct (String.eqb_spec (url_pathname request) "/") as [E1|E1].
        { rewrite bool_decide_eq_true_2 by auto. done. }
        destruct (String.eqb_spec (url_pathname request) "/index.html") as [E2|E2].
        { rewrite bool_decide_eq_true_2 by auto. done. }
        rewrite bool_decide_eq_false_2 by (intros [?|?]; done). done.
Qed.

(** The only directory [handleChat] writes to is [user-default]. *)
Lemma only_directory_refl n w : only_directory n w w.
Proof. done. Qed.
Lemma only_directory_trans n w1 w2 w3 :
  only_directory n w1 w2 → only_directory n w2 w3 → only_directory n w1 w3.
Proof. intros H1 H2 m Hm. by rewrite H2, H1. Qed.
Lemma same_only_directory n w w' : same_directories w w' → only_directory n w w'.
Proof. intros H m _. by rewrite H. Qed.

Lemma sessions_stub_only env n r : preserves (only_directory n) (sessions_stub_fetch env n r).
Proof.
  intros w m Hm. unfold sessions_stub_fetch.
  destruct (ChatSessions.fetch env r (sessions_object w n, readings w)) as [a [o k]].
  simpl. by rewrite lookup_insert_ne.
Qed.
Lemma sessions_stub_logs env n r w :
  CHAT_HISTORY (snd (sessions_stub_fetch env n r w)) = CHAT_HISTORY w.
Proof.
  unfold sessions_stub_fetch.
  by destruct (ChatSessions.fetch env r (sessions_object w n, readings w)) as [a [o k]].
Qed.

Lemma handleChat_only_directory request env :
  preserves (only_directory "user-default") (handleChat request env).
Proof.
  unfold handleChat.
  apply (preserves_try_catch _ (only_directory_trans _));
    [|intros e; apply (preserves_ret _ (only_directory_refl _))].
  apply (preserves_bind _ (only_directory_trans _));
    [apply (preserves_lift _ (only_directory_refl _))|intros body].
  destruct (_ && _); [apply (preserves_throw _ (only_directory_refl _))|].
  apply (preserves_bind _ (only_directory_trans _)).
  { intros w. apply same_only_directory, coordinateChat_directories. }
  intros reply. apply (preserves_bind _ (only_directory_trans _));
    [apply sessions_stub_only|intros; apply (preserves_ret _ (only_directory_refl _))].
Qed.

(** X25.  For every request to the worker: only POST /api/chat issues remote
    calls; only /api/chat and /api/history requests change a log object; only
    /api/chat and /api/sessions requests change a directory object; and no
    directory other than user-default ever changes. *)
Theorem X25_worker_reach request env w :
  (trace (snd (worker_fetch request env w)) = trace w
   ∨ (url_pathname request = "/api/chat" ∧ request_method request = "POST"))
  ∧ (CHAT_HISTORY (snd (worker_fetch request env w)) = CHAT_HISTORY w
     ∨ url_pathname request = "/api/chat" ∨ url_pathname request = "/api/history")
  ∧ (CHAT_SESSIONS (snd (worker_fetch request env w)) = CHAT_SESSIONS w
     ∨ url_pathname request = "/api/chat" ∨ url_pathname request = "/api/sessions")
  ∧ only_directory "user-default" w (snd (worker_fetch request env w)).
Proof.
  unfold worker_fetch.
  destruct (String.eqb (request_method request) "OPTIONS");
    [by repeat split; auto|].
  destruct (String.eqb_spec (url_pathname request) "/api/sessions") as [Es|Es].
  { set (r := {| pathname := "/sessions" |}). unfold bind.
    pose proof (sessions_stub_trace env "user-default" r w) as H1.
    pose proof (sessions_stub_logs env "user-default" r w) as H2.
    pose proof (sessions_stub_only env "user-default" r w) as H3.
    destruct (sessions_stub_fetch env "user-default" r w) as [[a|e] w'];
      simpl in *; repeat split; auto. }
  destruct (String.eqb_spec (url_pathname request) "/api/chat") as [Ec|Ec].
  { destruct (String.eqb_spec (request_method request) "POST") as [Ep|Ep]; cbn [andb].
    - unfold bind.
      pose proof (handleChat_only_directory (request_chat request) env w) as H3.
      destruct (handleChat (request_chat request) env w) as [[a|e] w'];
        simpl in *; repeat split; auto.
    - rewrite Ec. cbn. repeat split; auto. }
  cbn [andb].
  destruct (String.eqb_spec (url_pathname request) "/api/history") as [Eh|Eh]; cbn [andb].
  { assert (H : ∀ r w',
               w' = snd (history_stub_fetch env
                           (or_else (sessionId_param request) "default") r w) →
               trace w' = trace w ∧ CHAT_SESSIONS w' = CHAT_SESSIONS w).
    { intros r w' ->. split; [apply history_stub_trace|apply history_stub_directories]. }
    destruct (String.eqb (request_method request) "GET").
    - unfold bind.
      destruct (H get_messages _ eq_refl) as [H1 H2].
      destruct (history_stub_fetch env _ get_messages w) as [[a|e] w'];
        simpl in *; repeat split; auto; by apply same_only_directory.
    - destruct (String.eqb (request_method request) "DELETE").
      + unfold bind.
        destruct (H delete_messages _ eq_refl) as [H1 H2].
        destruct (history_stub_fetch env _ delete_messages w) as [[a|e] w'];
          simpl in *; repeat split; auto; by apply same_only_directory.
      + rewrite Eh. cbn. repeat split; auto. }
  destruct (_ || _); repeat split; auto.
Qed.

(** X26.  Through the worker, DELETE /api/history followed by GET /api/history
    for the same session (a missing or empty sessionId parameter standing for
    the session default), on a log whose storage works, answers success and
    then the empty list of messages. *)
Theorem X26_worker_clear_then_read env w sid sid' j c j' c' :
  or_else sid "default" = or_else sid' "default" →
  fault (ChatHistory.state (history_object w (or_else sid "default"))) = None →
  ∃ ctx,
    fst (worker_fetch {| request_method := "DELETE"; url_pathname := "/api/history";
                         sessionId_param := sid; request_json := j;
                         request_chat := c |} env w)
    = Ok (FromHistory {| ChatHistory.status := 200;
                         ChatHistory.payload := ChatHistory.SuccessJson |})
    ∧ fst (worker_fetch {| request_method := "GET"; url_pathname := "/api/history";
                           sessionId_param := sid'; request_json := j';
                           request_chat := c' |} env
             (snd (worker_fetch {| request_method := "DELETE";
                                   url_pathname := "/api/history";
                                   sessionId_param := sid; request_json := j;
                                   request_chat := c |} env w)))
      = Ok (FromHistory {| ChatHistory.status := 200;
                           ChatHistory.payload := ChatHistory.MessagesJson [] ctx |}).
Proof.
  intros Hs Hf. unfold worker_fetch. cbn -[history_stub_fetch or_else].
  rewrite <- Hs. set (n := or_else sid "default") in *.
  eexists. unfold bind, history_stub_fetch.
  rewrite delete_messages_ok by done. unfold success. simpl.
  unfold history_object at 1. simpl. rewrite lookup_insert_eq. simpl.
  rewrite get_messages_ok by done. split; reflexivity.
Qed.

Lemma X26_worker_clear_then_read_witness :
  or_else None "default" = or_else (Some "default") "default"
  ∧ fault (ChatHistory.state (history_object fresh_world (or_else None "default"))) = None
  ∧ ∃ ctx,
      fst (worker_fetch {| request_method := "DELETE"; url_pathname := "/api/history";
                           sessionId_param := None; request_json := Throw NonError;
                           request_chat := Throw NonError |} sample_env fresh_world)
      = Ok (FromHistory {| ChatHistory.status := 200;
                           ChatHistory.payload := ChatHistory.SuccessJson |})
      ∧ fst (worker_fetch {| request_method := "GET"; url_pathname := "/api/history";
                             sessionId_param := Some "default";
                             request_json := Throw NonError;
                             request_chat := Throw NonError |} sample_env
               (snd (worker_fetch {| request_method := "DELETE";
                                     url_pathname := "/api/history";
                                     sessionId_param := None;
                                     request_json := Throw NonError;
                                     request_chat := Throw NonError |}
                       sample_env fresh_world)))
        = Ok (FromHistory {| ChatHistory.status := 200;
                             ChatHistory.payload := ChatHistory.MessagesJson [] ctx |}).
Proof.
  split; [reflexivity|]. split; [reflexivity|].
  exact (X26_worker_clear_then_read sample_env fresh_world None (Some "default")
           (Throw NonError) (Throw NonError) (Throw NonError) (Throw NonError)
           eq_refl eq_refl).
Defined.

(** ** Searching the saved chats *)

(** Listing the directory and reading a log are reads. *)
Lemma read_only_refl w : read_only w w.
Proof. by repeat split. Qed.
Lemma read_only_trans w1 w2 w3 : read_only w1 w2 → read_only w2 w3 → read_only w1 w3.
Proof.
  intros (T1 & K1 & L1 & D1) (T2 & K2 & L2 & D2).
  split; [congruence|]. split; [congruence|]. split; intros n.
  - destruct (L1 n), (L2 n). split; congruence.
  - destruct (D1 n), (D2 n). split; congruence.
Qed.

Lemma get_sessions_cases env o k :
  (∃ e, ChatSessions.fetch env get_sessions (o, k) = (Throw e, (o, k)))
  ∨ (∃ o1, ChatSessions.fetch env get_sessions (o, k)
           = (Ok {| ChatSessions.status := 200;
                    ChatSessions.payload := ChatSessions.SessionsJson (directory o) |},
              (o1, k))
           ∧ directory o1 = directory o
           ∧ ChatSessions.state o1 = ChatSessions.state o).
Proof.
  destruct (hydrate_cases o k) as [[e E]|(o1 & E & Hs & Hst)].
  - left. exists e. unfold ChatSessions.fetch. unfold bind at 1. by rewrite E.
  - right. exists o1. destruct o1 as [st1 l1]. simpl in Hs, Hst. subst st1 l1.
    split; [unfold ChatSessions.fetch; unfold bind at 1; by rewrite E|].
    split; [|done].
    unfold directory at 1. simpl.
    destruct (directory o) eqn:Ed; [|done].
    unfold directory in Ed. by destruct (ChatSessions.sessions o).
Qed.

Lemma sessions_object_insert w h k t n o m :
  sessions_object {| CHAT_HISTORY := h; CHAT_SESSIONS := <[n := o]> (CHAT_SESSIONS w);
                     readings := k; trace := t |} m
  = if decide (n = m) then o else sessions_object w m.
Proof.
  unfold sessions_object. simpl.
  destruct (decide (n = m)) as [->|Hne].
  - by rewrite lookup_insert_eq.
  - by rewrite lookup_insert_ne.
Qed.

Lemma sessions_read_only env n :
  preserves read_only (sessions_stub_fetch env n get_sessions).
Proof.
  intros w. unfold sessions_stub_fetch.
  destruct (get_sessions_cases env (sessions_object w n) (readings w))
    as [[e ->]|(o1 & -> & Hd & Hst)]; simpl;
    (split; [done|]; split; [done|]; split; [done|]);
    intros m; rewrite sessions_object_insert;
    by destruct (decide (n = m)) as [->|Hne].
Qed.

Lemma history_read_only env n :
  preserves read_only (history_stub_fetch env n get_messages).
Proof.
  intros w. unfold history_stub_fetch.
  destruct (get_messages_cases env (history_object w n) (readings w))
    as [(e & _ & ->)|(o1 & c & -> & Hst & Hv)]; simpl;
    (split; [done|]; split; [done|]; split; [|done]);
    intros m; rewrite history_object_insert;
    by destruct (decide (n = m)) as [->|Hne].
Qed.

Lemma collectChats_read_only env f sessions info :
  preserves read_only (collectChats env f sessions info).
Proof.
  revert info. induction sessions as [|s rest IH]; intros info.
  - apply (preserves_ret _ read_only_refl).
  - simpl. apply (preserves_bind _ read_only_trans); [apply history_read_only|].
    intros r. apply (preserves_bind _ read_only_trans).
    { unfold history_messages. destruct (ChatHistory.payload r);
        first [apply (preserves_ret _ read_only_refl)
              |apply (preserves_throw _ read_only_refl)]. }
    intros messages. apply (preserves_bind _ read_only_trans); [|intros; apply IH].
    destruct (0 <? length messages);
      [apply (preserves_lift _ read_only_refl)|apply (preserves_ret _ read_only_refl)].
Qed.

(** X27.  searchChatHistory never throws and only reads: it issues no remote
    call, makes no clock reading, and every log and every directory reads and
    stores what it did before. *)
Theorem X27_search_read_only env toLocaleDateString userId query w :
  (∃ answer, fst (searchChatHistory env toLocaleDateString userId query w) = Ok answer)
  ∧ read_only w (snd (searchChatHistory env toLocaleDateString userId query w)).
Proof.
  split.
  { apply safe_try_catch. intros e. apply safe_ret. }
  revert w. change (preserves read_only (searchChatHistory env toLocaleDateString userId query)).
  unfold searchChatHistory.
  apply (preserves_try_catch _ read_only_trans);
    [|intros; apply (preserves_ret _ read_only_refl)].
  apply (preserves_bind _ read_only_trans); [apply sessions_read_only|intros r].
  apply (preserves_bind _ read_only_trans).
  { unfold sessions_list. destruct (ChatSessions.payload r);
      first [apply (preserves_ret _ read_only_refl)
            |apply (preserves_throw _ read_only_refl)]. }
  intros sessions. destruct (length sessions =? 0);
    [apply (preserves_ret _ read_only_refl)|].
  apply (preserves_bind _ read_only_trans); [apply collectChats_read_only|intros info].
  destruct (negb (truthy info)); apply (preserves_ret _ read_only_refl).
Qed.

(** The loop over the summaries touches the logs of these summaries only,
    and adds nothing to the text for a log that is empty. *)
Lemma history_stub_only env n r : preserves (only_log n) (history_stub_fetch env n r).
Proof.
  intros w m Hm. unfold history_stub_fetch.
  destruct (ChatHistory.fetch env r (history_object w n, readings w)) as [a [o k]].
  simpl. by rewrite lookup_insert_ne.
Qed.

Lemma collectChats_window env f sessions info w n :
  n ∉ ids sessions →
  CHAT_HISTORY (snd (collectChats env f sessions info w)) !! n = CHAT_HISTORY w !! n.
Proof.
  revert info w. induction sessions as [|s rest IH]; intros info w Hn; [done|].
  apply not_elem_of_cons in Hn as [Hs Hn]. simpl. unfold bind at 1.
  pose proof (history_stub_only env (id s) get_messages w n Hs) as H1.
  destruct (history_stub_fetch env (id s) get_messages w) as [[r|e] w1]; [|done].
  simpl in H1. unfold bind at 1, history_messages.
  destruct (ChatHistory.payload r) as [l c| | |]; try done;
    unfold ret, throw; try done; unfold bind at 1.
  - destruct (0 <? length l); unfold lift, ret.
    + destruct (chat_lines _ l); [|done]. by rewrite IH.
    + by rewrite IH.
  - simpl. unfold ret. by rewrite IH.
  - simpl. unfold ret. by rewrite IH.
Qed.

Lemma collectChats_empty env f sessions info w :
  (∀ s, s ∈ sessions →
        fault (ChatHistory.state (history_object w (id s))) = None
        ∧ history_view (history_object w (id s)) = []) →
  fst (collectChats env f sessions info w) = Ok info.
Proof.
  revert w. induction sessions as [|s rest IH]; intros w H; [done|].
  destruct (H s) as [Hf Hv]; [by left|].
  simpl. unfold bind at 1.
  pose proof (history_read_only env (id s) w) as (_ & _ & Hl & _).
  unfold history_stub_fetch in *.
  rewrite get_messages_ok in * by done. simpl in Hl. rewrite Hv.
  unfold bind at 1. simpl. unfold bind at 1. simpl.
  apply IH. intros s' Hs'. destruct (H s') as [Hf' Hv']; [by right|].
  destruct (Hl (id s')) as [E1 E2]. by rewrite E1, E2.
Qed.

(** X28.  searchChatHistory touches no log object other than those of the
    first 10 summaries of the directory; on a working directory it answers You
    don't have any saved chats yet. when the directory is empty and Your chats
    don't contain any messages yet. when the logs of the first 10 summaries
    work and are empty; when the directory cannot be loaded it answers I
    encountered an error while searching your chat history. *)
Theorem X28_search_answers env toLocaleDateString userId query w :
  (∀ n, n ∉ ids (take 10 (directory (sessions_object w userId))) →
        CHAT_HISTORY (snd (searchChatHistory env toLocaleDateString userId query w)) !! n
        = CHAT_HISTORY w !! n)
  ∧ (fault (ChatSessions.state (sessions_object w userId)) = None →
     (directory (sessions_object w userId) = [] →
      fst (searchChatHistory env toLocaleDateString userId query w)
      = Ok "You don't have any saved chats yet.")
     ∧ (directory (sessions_object w userId) ≠ [] →
        (∀ s, s ∈ take 10 (directory (sessions_object w userId)) →
              fault (ChatHistory.state (history_object w (id s))) = None
              ∧ history_view (history_object w (id s)) = []) →
        fst (searchChatHistory env toLocaleDateString userId query w)
        = Ok "Your chats don't contain any messages yet."))
  ∧ (∀ e, fault (ChatSessions.state (sessions_object w userId)) = Some e →
          ChatSessions.sessions (sessions_object w userId) = [] →
          fst (searchChatHistory env toLocaleDateString userId query w)
          = Ok "I encountered an error while searching your chat history.").
Proof.
  set (o := sessions_object w userId).
  assert (Hrun : ∀ o1,
    ChatSessions.fetch env get_sessions (o, readings w)
    = (Ok {| ChatSessions.status := 200;
             ChatSessions.payload := ChatSessions.SessionsJson (directory o) |},
       (o1, readings w)) →
    searchChatHistory env toLocaleDateString userId query w
    = let w1 := {| CHAT_HISTORY := CHAT_HISTORY w;
                   CHAT_SESSIONS := <[userId := o1]> (CHAT_SESSIONS w);
                   readings := readings w; trace := trace w |} in
      if (length (directory o) =? 0)%nat
      then (Ok "You don't have any saved chats yet.", w1)
      else
        match collectChats env toLocaleDateString (take 10 (directory o)) empty w1 with
        | (Ok info, w2) =>
            (Ok (if negb (truthy info)
                 then "Your chats don't contain any messages yet."
                 else "Here's information from your saved chats:" +:+ newline +:+ info),
             w2)
        | (Throw _, w2) =>
            (Ok "I encountered an error while searching your chat history.", w2)
        end).
  { intros o1 E. unfold searchChatHistory, try_catch. unfold bind at 1.
    unfold sessions_stub_fetch. fold o. rewrite E. unfold bind at 1. simpl.
    destruct (length (directory o) =? 0); [done|]. unfold bind.
    destruct (collectChats _ _ _ _ _) as [[info|e] w2]; [|done].
    by destruct (negb (truthy info)). }
  split; [|split].
  - intros n Hn.
    destruct (get_sessions_cases env o (readings w)) as [[e E]|(o1 & E & _)].
    + unfold searchChatHistory, try_catch. unfold bind at 1.
      unfold sessions_stub_fetch. fold o. by rewrite E.
    + rewrite (Hrun o1 E). cbv zeta.
      destruct (length (directory o) =? 0); [done|].
      pose proof (collectChats_window env toLocaleDateString (take 10 (directory o))
                    empty
                    {| CHAT_HISTORY := CHAT_HISTORY w;
                       CHAT_SESSIONS := <[userId := o1]> (CHAT_SESSIONS w);
                       readings := readings w; trace := trace w |} n Hn) as Hw.
      by destruct (collectChats _ _ _ _ _) as [[info|e] w2].
  - intros Hf.
    pose proof (Hrun _ (get_sessions_ok env o (readings w) Hf)) as E.
    split.
    + intros Hd. rewrite E, Hd. done.
    + intros Hd Hlogs. rewrite E. cbv zeta.
      destruct (directory o) as [|s l] eqn:Ed; [done|].
      change (length (s :: l) =? 0) with false. cbv iota.
      match goal with
      | |- context [collectChats ?e ?f ?ss ?i ?w1] =>
          pose proof (collectChats_empty e f ss i w1) as Hc
      end.
      rewrite <- Ed in *.
      destruct (collectChats _ _ _ _ _) as [r w2]. simpl in Hc.
      rewrite Hc; [done|]. intros s' Hs'. apply (Hlogs s' Hs').
  - intros e Hf Hs. unfold searchChatHistory, try_catch. unfold bind at 1.
    unfold sessions_stub_fetch. fold o.
    destruct o as [[f r] l]. simpl in Hf, Hs. subst. done.
Qed.
